(** * chinadns-ng, [dns.c]: DNS packet validation and answer scanning

    A shallow embedding of the four routines of [src/dns.c]
    ([decode_name], [check_packet], [skip_name], [dns_chnip_check]) and of
    the two entry points built on [check_packet], followed by the
    properties established about them.

    The C code works on raw pointers.  Memory is modelled in the style of
    a block memory: a pointer is a block identifier and an offset, a block
    is an array of cells, and pointer arithmetic moves the offset only.
    Every load is recorded in a trace, so that statements of the form
    "only bytes in this range are read" are statements about the trace,
    and every store acts on the heap, so that frame statements are
    statements about the heap before and after a call. *)

From Stdlib Require Import ZArith Lia List.
From stdpp Require Import base option list gmap.

Local Open Scope Z_scope.

(** ** Machine integers

    [ssize_t] and [size_t] are 64 bits wide.  Conversions between the two
    wrap around; they are written out wherever the C code converts. *)

Definition size_wrap (z : Z) : Z := z mod 2 ^ 64.

Definition ssize_wrap (z : Z) : Z := (z + 2 ^ 63) mod 2 ^ 64 - 2 ^ 63.

Definition is_ssize (z : Z) : Prop := - 2 ^ 63 <= z < 2 ^ 63.

(** ** Pointers and memory *)

Definition block := positive.

Record pointer := Ptr { blk : block; ofs : Z }.

Definition ptr_add (p : pointer) (n : Z) : pointer := Ptr (blk p) (ofs p + n).

Notation "p .+ n" := (ptr_add p n) (at level 50, left associativity).

Abbreviation mem := (gmap block (list Z)).

Definition load_cell (m : mem) (p : pointer) : option Z :=
  if decide (0 <= ofs p)
  then match m !! blk p with
       | Some cells => cells !! Z.to_nat (ofs p)
       | None => None
       end
  else None.

Definition store_cell (m : mem) (p : pointer) (v : Z) : option mem :=
  if decide (0 <= ofs p)
  then match m !! blk p with
       | Some cells =>
           if decide (Z.to_nat (ofs p) < length cells)%nat
           then Some (<[blk p := <[Z.to_nat (ofs p) := v]> cells]> m)
           else None
       | None => None
       end
  else None.

(** ** The monad of the embedding

    A computation threads the heap and the trace of what it has read, and
    ends with a value, with a memory fault (an access outside every
    block) or by exhausting the fuel of a loop. *)

Inductive event :=
| EvRead (p : pointer)
| EvIpset (addr : list Z) (is_ipv4 : bool).

Record state := State { heap : mem; trace : list event }.

Inductive res (A : Type) :=
| Val (a : A)
| Fault
| OutOfFuel.

Arguments Val {A} a.
Arguments Fault {A}.
Arguments OutOfFuel {A}.

Definition M (A : Type) : Type := state -> res A * state.

Definition M_ret {A} (a : A) : M A := fun st => (Val a, st).

Definition M_bind {A B} (c : M A) (k : A -> M B) : M B :=
  fun st =>
    match c st with
    | (Val a, st') => k a st'
    | (Fault, st') => (Fault, st')
    | (OutOfFuel, st') => (OutOfFuel, st')
    end.

#[export] Instance M_MRet : MRet M := @M_ret.
#[export] Instance M_MBind : MBind M := fun A B k c => M_bind c k.

Definition out_of_fuel {A} : M A := fun st => (OutOfFuel, st).

Definition load (p : pointer) : M Z :=
  fun st =>
    let st' := State (heap st) (trace st ++ [EvRead p]) in
    match load_cell (heap st) p with
    | Some v => (Val v, st')
    | None => (Fault, st')
    end.

Definition store (p : pointer) (v : Z) : M unit :=
  fun st =>
    match store_cell (heap st) p v with
    | Some m' => (Val tt, State m' (trace st))
    | None => (Fault, st)
    end.

Definition log (e : event) : M unit :=
  fun st => (Val tt, State (heap st) (trace st ++ [e])).

(** A load through [const uchar *]: the value read is in [0, 255]. *)
Definition load_uchar (p : pointer) : M Z :=
  v ← load p; mret (v mod 256).

(** [ntohs] applied to a 16-bit field stored at [p]: the field is in
    network byte order, most significant byte first. *)
Definition ntohs (p : pointer) : M Z :=
  hi ← load_uchar p; lo ← load_uchar (p .+ 1); mret (256 * hi + lo).

Fixpoint load_bytes (p : pointer) (n : nat) : M (list Z) :=
  match n with
  | O => mret []
  | S n' => v ← load_uchar p; vs ← load_bytes (p .+ 1) n'; mret (v :: vs)
  end.

(** [memcpy (dst, src, n)], byte after byte. *)
Fixpoint memcpy (dst src : pointer) (n : nat) : M unit :=
  match n with
  | O => mret tt
  | S n' => v ← load src; store dst v;; memcpy (dst .+ 1) (src .+ 1) n'
  end.

(** [memchr (s, c, n)]: the first of the [n] bytes at [s] equal to [c];
    the bytes are examined in order and the search stops at the first
    match. *)
Fixpoint memchr (s : pointer) (c : Z) (n : nat) : M (option pointer) :=
  match n with
  | O => mret None
  | S n' =>
      v ← load_uchar s;
      if decide (v = c) then mret (Some s) else memchr (s .+ 1) c n'
  end.

(** ** Observing a computation *)

Definition result {A} (c : M A) (st : state) : res A := fst (c st).

Definition final {A} (c : M A) (st : state) : state := snd (c st).

(** What an unsigned byte read, or a 16-bit big-endian read, would see in
    a heap. *)
Definition peek8 (m : mem) (p : pointer) : option Z :=
  match load_cell m p with
  | Some v => Some (v mod 256)
  | None => None
  end.

Definition peek16 (m : mem) (p : pointer) : option Z :=
  match peek8 m p, peek8 m (p .+ 1) with
  | Some hi, Some lo => Some (256 * hi + lo)
  | _, _ => None
  end.

Definition is_byte (b : Z) : Prop := 0 <= b < 256.

#[export] Instance is_byte_dec (b : Z) : Decision (is_byte b).
Proof. unfold is_byte. apply _. Defined.

(** The cells from [p] on hold the list [l]. *)
Definition cells_at (m : mem) (p : pointer) (l : list Z) : Prop :=
  forall (i : nat) (v : Z),
    l !! i = Some v -> load_cell m (p .+ Z.of_nat i) = Some v.

Definition bytes_at (m : mem) (p : pointer) (l : list Z) : Prop :=
  cells_at m p l /\ Forall is_byte l.

(** The [n] cells from [p] on exist. *)
Definition allocated (m : mem) (p : pointer) (n : Z) : Prop :=
  forall i, 0 <= i < n -> is_Some (load_cell m (p .+ i)).

(** The address [p] lies among the [n] cells that start at [base]. *)
Definition in_range (base : pointer) (n : Z) (p : pointer) : Prop :=
  blk p = blk base /\ ofs base <= ofs p < ofs base + n.

Definition event_reads_in (S : pointer -> Prop) (e : event) : Prop :=
  match e with
  | EvRead p => S p
  | EvIpset _ _ => True
  end.

(** From [st] to [st'] the trace only grows, and every load added is a
    load from [S]. *)
Definition reads_only (S : pointer -> Prop) (st st' : state) : Prop :=
  exists t, trace st' = trace st ++ t /\ Forall (event_reads_in S) t.

Definition is_ipset_event (e : event) : Prop :=
  match e with
  | EvRead _ => False
  | EvIpset _ _ => True
  end.

(** From [st] to [st'] the membership set has not been consulted. *)
Definition ipset_untouched (st st' : state) : Prop :=
  exists t, trace st' = trace st ++ t /\ Forall (fun e => ~ is_ipset_event e) t.

(** From [st] to [st'] no cell outside [W] has changed. *)
Definition unchanged_outside (W : pointer -> Prop) (st st' : state) : Prop :=
  forall p, ~ W p -> load_cell (heap st') p = load_cell (heap st) p.

Definition same_heap (st st' : state) : Prop := heap st' = heap st.

(** A computation keeps a relation between the state it starts from and
    the state it ends in, whatever its outcome, and its value, if it
    returns one, satisfies [Q]. *)
Definition yields {A} (R : state -> state -> Prop) (Q : A -> Prop) (c : M A)
    : Prop :=
  forall st, R st (final c st) /\ (forall a, result c st = Val a -> Q a).

(** A computation keeps a relation between the state it starts from and
    the state it ends in, whatever its outcome. *)
Definition keeps {A} (R : state -> state -> Prop) (c : M A) : Prop :=
  forall st, R st (final c st).

(** A computation never exhausts the fuel of its loops. *)
Definition terminates {A} (c : M A) : Prop :=
  forall st, result c st <> OutOfFuel.

(** On the heap [m] the computation returns [a] and leaves the heap [m'],
    whatever the trace so far. *)
Definition runs_to {A} (c : M A) (m : mem) (a : A) (m' : mem) : Prop :=
  forall st, heap st = m -> result c st = Val a /\ heap (final c st) = m'.

(** On the heap [m] the computation returns a value and leaves a heap
    which together satisfy [Q]. *)
Definition ends_with {A} (c : M A) (m : mem) (Q : A -> mem -> Prop) : Prop :=
  exists a m', runs_to c m a m' /\ Q a m'.

(** The outcome and the final heap depend on the initial heap only. *)
Definition heap_determined {A} (c : M A) : Prop :=
  forall st1 st2, heap st1 = heap st2 ->
    result c st1 = result c st2 /\ heap (final c st1) = heap (final c st2).

(** From [st] to [st'] the trace only grows and no cell disappears. *)
Definition grows (st st' : state) : Prop :=
  (exists t, trace st' = trace st ++ t) /\
  (forall p, is_Some (load_cell (heap st) p) ->
             is_Some (load_cell (heap st') p)).

(** Where a memory fault between [st] and [st'] comes from: a load, the
    last one logged in the trace, from a cell that does not exist, or a
    store into a cell of [W] that does not exist. *)
Definition fault_cause (W : pointer -> Prop) (st st' : state) : Prop :=
  (exists t p, trace st' = trace st ++ t ++ [EvRead p] /\
               load_cell (heap st) p = None) \/
  (exists q, W q /\ load_cell (heap st) q = None).

(** A computation that stores into [W] only, and that faults on such
    accesses only. *)
Definition faults_at {A} (W : pointer -> Prop) (c : M A) : Prop :=
  forall st,
    grows st (final c st) /\
    (result c st = Fault -> fault_cause W st (final c st)).

(** The consultations of the membership set in a trace, in order. *)
Fixpoint ipset_queries (t : list event) : list (list Z * bool) :=
  match t with
  | [] => []
  | EvRead _ :: t' => ipset_queries t'
  | EvIpset addr is_ipv4 :: t' => (addr, is_ipv4) :: ipset_queries t'
  end.

(** How a computation ends and the consultations of the membership set
    it adds to the trace satisfy [Phi]. *)
Definition accounts {A} (Phi : res A -> list (list Z * bool) -> Prop)
    (c : M A) : Prop :=
  forall st, exists t,
    trace (final c st) = trace st ++ t /\
    Phi (result c st) (ipset_queries t).

(** ** Constants and layouts of [dns.h]

    [dns.c] includes [dns.h], which is not among the sources.  What the
    spec fixes of it is given here; the packet size bounds and the
    ceiling of the encoded name, whose values the spec does not give,
    are parameters of the functions that use them. *)

(** Modelled from the spec: the minimum encoding is the root name, a
    single zero byte; a label length is at most 63; a compression pointer
    is a byte with both top bits set. *)
Definition DNS_NAME_ENC_MINLEN : Z := 1.
Definition DNS_DNAME_LABEL_MAXLEN : Z := 63.
Definition DNS_DNAME_COMPRESSION_MINVAL : Z := 192.

(** Modelled from the spec: the query/response indicator of a query and
    of a reply, the opcode of a standard query, the Internet class and
    the record types A and AAAA, with the codes these have in the DNS
    wire format the spec describes. *)
Definition DNS_QR_QUERY : Z := 0.
Definition DNS_QR_REPLY : Z := 1.
Definition DNS_OPCODE_QUERY : Z := 0.
Definition DNS_CLASS_INTERNET : Z := 1.
Definition DNS_RECORD_TYPE_A : Z := 1.
Definition DNS_RECORD_TYPE_AAAA : Z := 28.

(** Modelled from the spec: an IPv4 address is 4 bytes, an IPv6 address
    16 bytes. *)
Definition IPV4_BINADDR_LEN : Z := 4.
Definition IPV6_BINADDR_LEN : Z := 16.

(** Modelled from the spec: the header is a transaction identifier, two
    bytes of flags and four 16-bit counts; the question record is a type
    and a class; the fixed part of a resource record is a type, a class,
    a time to live and a 16-bit rdata length, and the rdata follows
    it. *)
Definition sizeof_dns_header_t : Z := 12.
Definition sizeof_dns_query_t : Z := 4.
Definition sizeof_dns_record_t : Z := 10.

(** Modelled from the spec: the offsets of the fields inside the three
    structures, which follow the wire format. *)
Definition off_flags : Z := 2.
Definition off_question_count : Z := 4.
Definition off_answer_count : Z := 6.
Definition off_qclass : Z := 2.
Definition off_rtype : Z := 0.
Definition off_rclass : Z := 2.
Definition off_rdatalen : Z := 8.
Definition off_rdata : Z := 10.

(** Modelled from the spec: the bit fields [qr] and [opcode] of the
    header.  The first flag byte holds, from its most significant bit,
    the query/response bit, four bits of opcode, and the AA, TC and RD
    bits. *)
Definition flags_qr (b : Z) : Z := Z.land (Z.shiftr b 7) 1.
Definition flags_opcode (b : Z) : Z := Z.land (Z.shiftr b 3) 15.

(** [header->qr] and [header->opcode]. *)
Definition header_qr (header : pointer) : M Z :=
  b ← load_uchar (header .+ off_flags); mret (flags_qr b).

Definition header_opcode (header : pointer) : M Z :=
  b ← load_uchar (header .+ off_flags); mret (flags_opcode b).

(** Modelled from the spec: the four outcomes of the scan, a closed
    enumeration; their integer codes are in [dns.h]. *)
Inductive dns_ipchk :=
| DNS_IPCHK_IS_CHNIP
| DNS_IPCHK_NOT_CHNIP
| DNS_IPCHK_NOT_FOUND
| DNS_IPCHK_BAD_PACKET.

#[export] Instance dns_ipchk_eq_dec : EqDecision dns_ipchk.
Proof. solve_decision. Defined.

Inductive scan_step :=
| Verdict (verdict : dns_ipchk)
| Next (packet_buf : pointer) (packet_len : Z).

#[export] Instance ptr_eq_dec : EqDecision pointer.
Proof. solve_decision. Defined.

(** ** [decode_name]

    The [for] loop is a recursion on fuel; [decode_name] hands it
    [len] units, one more than the number of turns it can take, since
    each turn takes at least two bytes off [len].  The lemmas
    [terminates_...] below show that no routine ever runs out of
    fuel. *)

Fixpoint decode_name_loop (fuel : nat) (first : bool)
    (out src : pointer) (len : Z) : M bool :=
  if decide (len >= 2) then
    match fuel with
    | O => out_of_fuel
    | S fuel' =>
        out ← (if first then mret out else store out 46;; mret (out .+ 1));
        label_len ← load_uchar src;
        let src := src .+ 1 in
        let len := len - 1 in
        if decide (label_len < 1) then mret false
        else if decide (label_len > DNS_DNAME_LABEL_MAXLEN) then mret false
        else if decide (label_len > len) then mret false
        else decode_name_loop fuel' false
               (out .+ label_len) (src .+ label_len) (len - label_len)
    end
  else
    if decide (len <> 0) then mret false else mret true.

Definition decode_name (out src : pointer) (len : Z) : M bool :=
  if decide (len <= DNS_NAME_ENC_MINLEN) then
    store out 46;; store (out .+ 1) 0;; mret true
  else
    let len := len - 1 in
    memcpy out (src .+ 1) (Z.to_nat (size_wrap len));;
    decode_name_loop (Z.to_nat len) true out src len.

(** ** [skip_name]

    The two in/out parameters are locals of the caller; the embedding
    passes their values in and returns the new values on success, and
    [None] when the C function returns [false] and leaves them alone.
    The [while] loop is a recursion on fuel, [len] units of it, each turn
    taking at least one byte off [len]. *)

Fixpoint skip_name_loop (fuel : nat) (ptr : pointer) (len : Z)
    : M (option (pointer * Z)) :=
  if decide (len > 0) then
    match fuel with
    | O => out_of_fuel
    | S fuel' =>
        label_len ← load_uchar ptr;
        if decide (label_len = 0) then
          mret (Some (ptr .+ 1, len - 1))
        else if decide (label_len >= DNS_DNAME_COMPRESSION_MINVAL) then
          mret (Some (ptr .+ 2, len - 2))
        else if decide (label_len > DNS_DNAME_LABEL_MAXLEN) then
          mret None
        else
          skip_name_loop fuel' (ptr .+ (1 + label_len)) (len - (1 + label_len))
    end
  else mret (Some (ptr, len)).

Definition skip_name (p_ptr : pointer) (p_len : Z) : M (option (pointer * Z)) :=
  r ← skip_name_loop (Z.to_nat p_len) p_ptr p_len;
  match r with
  | None => mret None
  | Some (ptr, len) =>
      if decide (len < sizeof_dns_record_t) then mret None
      else mret (Some (ptr, len))
  end.

Section Dns.

(** The packet size bounds and the ceiling of the encoded name are
    macros of [dns.h] whose values the sources do not show; the
    membership set is an external collaborator. *)
Variable DNS_PACKET_MINSIZE : Z.
Variable DNS_PACKET_MAXSIZE : Z.
Variable DNS_NAME_ENC_MAXLEN : Z.
Variable ipset_addr_is_exists : list Z -> bool -> bool.

(** ** [check_packet]

    [name_buf] and [p_namelen] may be null pointers: [None].  The
    conversions between [ssize_t] and [size_t] of the C code are written
    out. *)

Definition check_packet (is_query : bool)
    (packet_buf : pointer) (packet_len : Z)
    (name_buf : option pointer) (p_namelen : option pointer) : M bool :=
  if decide (packet_len < DNS_PACKET_MINSIZE) then mret false
  else if decide (packet_len > DNS_PACKET_MAXSIZE) then mret false
  else
    let header := packet_buf in
    qr ← header_qr header;
    if decide (qr <> (if is_query then DNS_QR_QUERY else DNS_QR_REPLY))
    then mret false
    else
      opcode ← header_opcode header;
      if decide (opcode <> DNS_OPCODE_QUERY) then mret false
      else
        question_count ← ntohs (header .+ off_question_count);
        if decide (question_count <> 1) then mret false
        else
          let packet_buf := packet_buf .+ sizeof_dns_header_t in
          let packet_len := ssize_wrap (packet_len - sizeof_dns_header_t) in
          p ← memchr packet_buf 0 (Z.to_nat (size_wrap packet_len));
          match p with
          | None => mret false
          | Some p =>
              let namelen := size_wrap (ofs p + 1 - ofs packet_buf) in
              if decide (namelen < DNS_NAME_ENC_MINLEN) then mret false
              else if decide (namelen > DNS_NAME_ENC_MAXLEN) then mret false
              else
                decoded ← match name_buf with
                          | Some out =>
                              decode_name out packet_buf (ssize_wrap namelen)
                          | None => mret true
                          end;
                if negb decoded then mret false
                else
                  match p_namelen with
                  | Some slot => store slot namelen
                  | None => mret tt
                  end;;
                  let packet_buf := packet_buf .+ namelen in
                  let packet_len := ssize_wrap (packet_len - namelen) in
                  if decide (packet_len < sizeof_dns_query_t) then mret false
                  else
                    qclass ← ntohs (packet_buf .+ off_qclass);
                    if decide (qclass <> DNS_CLASS_INTERNET) then mret false
                    else mret true
          end.

Definition dns_query_check := check_packet true.
Definition dns_reply_check := check_packet false.

(** ** [dns_chnip_check] *)

(** The external predicate is handed the raw address at [rdata]; it
    reads the exact width of the address family. *)
Definition ipset_query (rdata : pointer) (is_ipv4 : bool) : M bool :=
  addr ← load_bytes rdata
           (Z.to_nat (if is_ipv4 then IPV4_BINADDR_LEN else IPV6_BINADDR_LEN));
  log (EvIpset addr is_ipv4);;
  mret (ipset_addr_is_exists addr is_ipv4).

(** One turn of the [for] loop: either the scan returns a verdict, or
    it goes on with a new cursor and remaining length. *)
Definition chnip_record (packet_buf : pointer) (packet_len : Z)
    : M scan_step :=
  skipped ← skip_name packet_buf packet_len;
  match skipped with
  | None => mret (Verdict DNS_IPCHK_BAD_PACKET)
  | Some (packet_buf, packet_len) =>
      let record := packet_buf in
      rclass ← ntohs (record .+ off_rclass);
      if decide (rclass <> DNS_CLASS_INTERNET)
      then mret (Verdict DNS_IPCHK_BAD_PACKET)
      else
        rdatalen ← ntohs (record .+ off_rdatalen);
        let recordlen := sizeof_dns_record_t + rdatalen in
        if decide (packet_len < recordlen)
        then mret (Verdict DNS_IPCHK_BAD_PACKET)
        else
          rtype ← ntohs (record .+ off_rtype);
          if decide (rtype = DNS_RECORD_TYPE_A) then
            if decide (rdatalen <> IPV4_BINADDR_LEN)
            then mret (Verdict DNS_IPCHK_BAD_PACKET)
            else
              found ← ipset_query (record .+ off_rdata) true;
              mret (Verdict (if found : bool then DNS_IPCHK_IS_CHNIP
                             else DNS_IPCHK_NOT_CHNIP))
          else if decide (rtype = DNS_RECORD_TYPE_AAAA) then
            if decide (rdatalen <> IPV6_BINADDR_LEN)
            then mret (Verdict DNS_IPCHK_BAD_PACKET)
            else
              found ← ipset_query (record .+ off_rdata) false;
              mret (Verdict (if found : bool then DNS_IPCHK_IS_CHNIP
                             else DNS_IPCHK_NOT_CHNIP))
          else
            mret (Next (packet_buf .+ recordlen) (packet_len - recordlen))
  end.

(** The loop runs [answer_count] times at most; the counter is a
    [uint16_t] below [answer_count], so it never wraps. *)
Fixpoint chnip_loop (remaining : nat) (packet_buf : pointer) (packet_len : Z)
    : M dns_ipchk :=
  match remaining with
  | O => mret DNS_IPCHK_NOT_FOUND
  | S remaining' =>
      r ← chnip_record packet_buf packet_len;
      match r with
      | Verdict verdict => mret verdict
      | Next packet_buf packet_len =>
          chnip_loop remaining' packet_buf packet_len
      end
  end.

Definition dns_chnip_check (packet_buf : pointer) (packet_len : Z) (namelen : Z)
    : M dns_ipchk :=
  let h := packet_buf in
  answer_count ← ntohs (h .+ off_answer_count);
  let skip := size_wrap (sizeof_dns_header_t + namelen + sizeof_dns_query_t) in
  chnip_loop (Z.to_nat answer_count)
    (packet_buf .+ skip) (ssize_wrap (packet_len - skip)).

End Dns.

(** ** Predicates of the statements *)

(** The cursor and remaining length [r] are [ptr] and [len] moved forward
    by some number of bytes. *)
Definition advanced (ptr : pointer) (len : Z) (r : pointer * Z) : Prop :=
  exists d, 0 <= d /\ fst r = ptr .+ d /\ snd r = len - d.

(** What [check_packet] may write: the decoded name, of at most
    [DNS_NAME_ENC_MAXLEN - 1] bytes (two for the root name), and the slot
    of the encoded length. *)
Definition check_packet_writes (DNS_NAME_ENC_MAXLEN : Z)
    (name_buf p_namelen : option pointer) (q : pointer) : Prop :=
  (exists out, name_buf = Some out /\
     in_range out (Z.max 2 (DNS_NAME_ENC_MAXLEN - 1)) q) \/
  p_namelen = Some q.

(** What follows the loop in [skip_name]. *)
Definition enough_for_record (r : option (pointer * Z))
    : option (pointer * Z) :=
  match r with
  | None => None
  | Some (ptr, len) =>
      if decide (len < sizeof_dns_record_t) then None else Some (ptr, len)
  end.

(** ** Encoded names, as the statements speak of them *)

(** A label is between 1 and 63 bytes. *)
Definition label_ok (l : list Z) : Prop :=
  (1 <= length l <= 63)%nat /\ Forall is_byte l.

#[export] Instance label_ok_dec (l : list Z) : Decision (label_ok l).
Proof. unfold label_ok. apply _. Defined.

(** The labels, each behind its length byte; the terminating byte is not
    included. *)
Fixpoint encode_labels (ls : list (list Z)) : list Z :=
  match ls with
  | [] => []
  | l :: ls' => Z.of_nat (length l) :: l ++ encode_labels ls'
  end.

(** The labels, each behind a dot. *)
Fixpoint dot_prefixed (ls : list (list Z)) : list Z :=
  match ls with
  | [] => []
  | l :: ls' => 46 :: l ++ dot_prefixed ls'
  end.

(** The labels joined by dots, in their order. *)
Definition join_dots (ls : list (list Z)) : list Z :=
  match ls with
  | [] => []
  | l :: ls' => l ++ dot_prefixed ls'
  end.

(** The bytes of a name before its last byte do not split into labels:
    walking from length byte to length byte, some length byte is 0, is
    above 63, or is larger than the number of bytes that remain. *)
Inductive malformed_labels : list Z -> Prop :=
| malformed_here (l : Z) (rest : list Z) :
    l = 0 \/ l > DNS_DNAME_LABEL_MAXLEN \/ l > Z.of_nat (length rest) ->
    malformed_labels (l :: rest)
| malformed_later (l : Z) (rest : list Z) :
    1 <= l <= DNS_DNAME_LABEL_MAXLEN -> l <= Z.of_nat (length rest) ->
    malformed_labels (drop (Z.to_nat l) rest) ->
    malformed_labels (l :: rest).

(** A name as it stands in a resource record: labels, then a zero byte
    or a two-byte compression pointer. *)
Inductive wire_name : list Z -> Prop :=
| wire_root : wire_name [0]
| wire_pointer (c x : Z) :
    DNS_DNAME_COMPRESSION_MINVAL <= c < 256 -> is_byte x -> wire_name [c; x]
| wire_label (l : list Z) (rest : list Z) :
    label_ok l -> wire_name rest ->
    wire_name (Z.of_nat (length l) :: l ++ rest).

(** The [n] records from the cursor on pass the structural checks of the
    scan and are of a type other than A and AAAA: the name of each can be
    skipped, its class is Internet, and the record fits in the remaining
    length. *)
Inductive skippable_records (m : mem) : nat -> pointer -> Z -> Prop :=
| skippable_done (ptr : pointer) (len : Z) : skippable_records m 0 ptr len
| skippable_next (n : nat) (ptr : pointer) (len : Z)
    (record : pointer) (len' rtype rdatalen : Z) :
    runs_to (skip_name ptr len) m (Some (record, len')) m ->
    peek16 m (record .+ off_rclass) = Some DNS_CLASS_INTERNET ->
    peek16 m (record .+ off_rdatalen) = Some rdatalen ->
    sizeof_dns_record_t + rdatalen <= len' ->
    peek16 m (record .+ off_rtype) = Some rtype ->
    rtype <> DNS_RECORD_TYPE_A -> rtype <> DNS_RECORD_TYPE_AAAA ->
    skippable_records m n
      (record .+ (sizeof_dns_record_t + rdatalen))
      (len' - (sizeof_dns_record_t + rdatalen)) ->
    skippable_records m (S n) ptr len.

(** The bytes of the question name of a packet before its terminating
    zero: what follows the header, up to the first zero byte. *)
Definition question_name (pkt : list Z) : list Z :=
  let after_header := drop (Z.to_nat sizeof_dns_header_t) pkt in
  match list_find (fun b => b = 0) after_header with
  | Some (i, _) => take i after_header
  | None => after_header
  end.

(** The text of a name: a single dot for the root name, the labels
    joined by dots otherwise. *)
Definition dotted_name (ls : list (list Z)) : list Z :=
  match ls with
  | [] => [46]
  | _ :: _ => join_dots ls
  end.

(** A packet as the validator expects it: twelve bytes of header, the
    labels of the question name behind their length bytes, the zero byte
    that ends the name, two bytes of query type, the class Internet, and
    whatever follows. *)
Definition question_packet (hdr : list Z) (ls : list (list Z))
    (qtype rest : list Z) : list Z :=
  hdr ++ encode_labels ls ++ [0] ++ qtype ++ [0; DNS_CLASS_INTERNET] ++ rest.

(** The packet passes the checks of the validator on its length and on
    its header: the length is within the bounds, the query/response bit
    is the one of the direction asked for, the opcode is the one of a
    standard query and the question count is 1. *)
Definition header_passes (MINSIZE MAXSIZE : Z) (is_query : bool)
    (pkt : list Z) : Prop :=
  MINSIZE <= Z.of_nat (length pkt) <= MAXSIZE /\
  (exists flags, pkt !! 2%nat = Some flags /\
     Z.testbit flags 7 = negb is_query /\
     flags_opcode flags = DNS_OPCODE_QUERY) /\
  pkt !! 4%nat = Some 0 /\ pkt !! 5%nat = Some 1.

(** The packet passes every check up to and including the decoding of
    the name: the header passes, the first zero byte behind the header is
    at index [i], the encoded length [i + 1] of the name is not above
    the ceiling, and, when a name buffer has been given, the bytes of the
    name split into labels. *)
Definition name_passes (MINSIZE MAXSIZE ENC_MAXLEN : Z) (is_query : bool)
    (name_buf : option pointer) (pkt : list Z) (i : nat) : Prop :=
  header_passes MINSIZE MAXSIZE is_query pkt /\
  list_find (fun b => b = 0) (drop 12 pkt) = Some (i, 0) /\
  Z.of_nat i + 1 <= ENC_MAXLEN /\
  (name_buf <> None -> ~ malformed_labels (question_name pkt)).

(** The question record behind a name of [i] bytes and its zero byte
    passes the last checks: its four bytes fit in the packet and its
    class is Internet. *)
Definition question_passes (pkt : list Z) (i : nat) : Prop :=
  12 + (Z.of_nat i + 1) + 4 <= Z.of_nat (length pkt) /\
  pkt !! (12 + i + 1 + 2)%nat = Some 0 /\
  pkt !! (12 + i + 1 + 3)%nat = Some DNS_CLASS_INTERNET.

(** ** Resource records, as the statements speak of them *)

(** A 16-bit value in network byte order. *)
Definition be16 (v : Z) : list Z := [v / 256; v mod 256].

(** The ten bytes of fixed fields of a record, [dns_record_t]: type,
    class, time to live and the declared length of the data. *)
Definition rr_fixed (rtype rclass : Z) (ttl : list Z) (rdatalen : Z)
    : list Z :=
  be16 rtype ++ be16 rclass ++ ttl ++ be16 rdatalen.

(** A resource record: a name, a type, a class, a time to live and the
    data. *)
Record rr := RR {
  rr_name : list Z;
  rr_type : Z;
  rr_class : Z;
  rr_ttl : list Z;
  rr_rdata : list Z
}.

(** The record on the wire: the name, the fixed fields, which declare
    the length of the data, and the data. *)
Definition encode_rr (r : rr) : list Z :=
  rr_name r ++
  rr_fixed (rr_type r) (rr_class r) (rr_ttl r)
    (Z.of_nat (length (rr_rdata r))) ++
  rr_rdata r.

Definition encode_rrs (rs : list rr) : list Z := concat (map encode_rr rs).

(** The name is in wire form and the time to live has four bytes. *)
Definition rr_ok (r : rr) : Prop :=
  wire_name (rr_name r) /\ length (rr_ttl r) = 4%nat.

(** A record of class Internet and of a type other than A and AAAA. *)
Definition rr_other (r : rr) : Prop :=
  rr_ok r /\ rr_class r = DNS_CLASS_INTERNET /\
  rr_type r <> DNS_RECORD_TYPE_A /\ rr_type r <> DNS_RECORD_TYPE_AAAA.

(** An address record of class Internet: of type A with four bytes of
    data, or of type AAAA with sixteen. *)
Definition rr_address (is_ipv4 : bool) (r : rr) : Prop :=
  rr_ok r /\ rr_class r = DNS_CLASS_INTERNET /\
  rr_type r = (if is_ipv4 then DNS_RECORD_TYPE_A else DNS_RECORD_TYPE_AAAA) /\
  Z.of_nat (length (rr_rdata r))
    = (if is_ipv4 then IPV4_BINADDR_LEN else IPV6_BINADDR_LEN).

(** The verdict of the scan against the consultations of the
    membership set [q] made on the way: "in range" and "not in range"
    come with a single consultation, of an address of the width of its
    family, and are its answer; any other outcome comes with none. *)
Definition verdict_from_set (ipset_addr_is_exists : list Z -> bool -> bool)
    (r : res dns_ipchk) (q : list (list Z * bool)) : Prop :=
  match r with
  | Val DNS_IPCHK_IS_CHNIP =>
      exists addr is_ipv4,
        q = [(addr, is_ipv4)] /\
        ipset_addr_is_exists addr is_ipv4 = true /\
        Z.of_nat (length addr)
          = (if is_ipv4 : bool then IPV4_BINADDR_LEN else IPV6_BINADDR_LEN)
  | Val DNS_IPCHK_NOT_CHNIP =>
      exists addr is_ipv4,
        q = [(addr, is_ipv4)] /\
        ipset_addr_is_exists addr is_ipv4 = false /\
        Z.of_nat (length addr)
          = (if is_ipv4 : bool then IPV4_BINADDR_LEN else IPV6_BINADDR_LEN)
  | _ => q = []
  end.

(** ** Concrete memories

    A packet is placed in block 1 from offset 0, a name buffer of 254
    bytes in block 2 and the slot of the encoded length in block 3. *)

Definition packet_block : block := 1%positive.
Definition name_block : block := 2%positive.
Definition slot_block : block := 3%positive.

Definition heap_of (pkt : list Z) : mem :=
  <[packet_block := pkt]>
    (<[name_block := replicate 254 255]> (<[slot_block := [0]]> ∅)).

Definition state_of (pkt : list Z) : state := State (heap_of pkt) [].

Definition at_packet (o : Z) : pointer := Ptr packet_block o.

Definition name_buf_0 : pointer := Ptr name_block 0.
Definition slot_0 : pointer := Ptr slot_block 0.

(** The name [a.bb.ccc] in its encoded form. *)
Definition a_bb_ccc : list Z := [1; 97; 2; 98; 98; 3; 99; 99; 99; 0].

(** Sample values of the three macros the sources do not show: a header,
    a root name and a question record; the payload of an Ethernet frame;
    the ceiling of an encoded name. *)
Definition sample_minsize : Z :=
  sizeof_dns_header_t + DNS_NAME_ENC_MINLEN + sizeof_dns_query_t.
Definition sample_maxsize : Z := 1472.
Definition sample_enc_maxlen : Z := 255.

(** A membership set that holds the single address 1.2.3.4. *)
Definition sample_ipset (addr : list Z) (is_ipv4 : bool) : bool :=
  is_ipv4 && bool_decide (addr = [1; 2; 3; 4]).

Definition sample_header (flags qdcount ancount : Z) : list Z :=
  [18; 52; flags; 128; 0; qdcount; 0; ancount; 0; 0; 0; 0].

(** [www.google.com], encoded. *)
Definition www_google_com : list Z :=
  [3; 119; 119; 119; 6; 103; 111; 111; 103; 108; 101; 3; 99; 111; 109; 0].

(** A reply to a question of type A and class IN for [www.google.com],
    with one answer: a compressed name, type A, class IN, four bytes of
    rdata, 1.2.3.4. *)
Definition reply_a : list Z :=
  sample_header 129 1 1 ++ www_google_com ++ [0; 1; 0; 1] ++
  [192; 12; 0; 1; 0; 1; 0; 0; 0; 60; 0; 4; 1; 2; 3; 4].

(** The same reply cut two bytes short: the address record declares four
    bytes of rdata of which two are there. *)
Definition reply_truncated : list Z := take 46 reply_a.

(** The same reply with a question of class CHAOS. *)
Definition reply_chaos : list Z :=
  sample_header 129 1 1 ++ www_google_com ++ [0; 1; 0; 3] ++
  [192; 12; 0; 1; 0; 1; 0; 0; 0; 60; 0; 4; 1; 2; 3; 4].

(** A reply whose single answer is a CNAME record. *)
Definition reply_cname : list Z :=
  sample_header 129 1 1 ++ www_google_com ++ [0; 1; 0; 1] ++
  [192; 12; 0; 5; 0; 1; 0; 0; 0; 60; 0; 2; 192; 12].

(** A query whose name starts with the length byte 64. *)
Definition query_bad_label : list Z :=
  sample_header 1 1 0 ++ [64; 97; 0] ++ [0; 1; 0; 1].

(** The labels of [www.google.com]. *)
Definition www_google_com_labels : list (list Z) :=
  [[119; 119; 119]; [103; 111; 111; 103; 108; 101]; [99; 111; 109]].

(** The text [www.google.com]. *)
Definition www_google_com_text : list Z :=
  [119; 119; 119; 46; 103; 111; 111; 103; 108; 101; 46; 99; 111; 109].

(** A query of type A and class IN for [www.google.com]. *)
Definition query_a : list Z :=
  sample_header 1 1 0 ++ www_google_com ++ [0; 1; 0; 1].

(** Two answers for the name of the question, given as a compression
    pointer to offset 12: an address record for 1.2.3.4 and a CNAME
    record. *)
Definition answer_a : rr := RR [192; 12] 1 1 [0; 0; 0; 60] [1; 2; 3; 4].
Definition answer_cname : rr := RR [192; 12] 5 1 [0; 0; 0; 60] [192; 12].

(** A reply with two answers: the CNAME record, then the address
    record. *)
Definition reply_cname_a : list Z :=
  sample_header 129 1 2 ++ www_google_com ++ [0; 1; 0; 1] ++
  encode_rr answer_cname ++ encode_rr answer_a.

Definition sample_query_check (pkt : list Z) : res bool * state :=
  dns_query_check sample_minsize sample_maxsize sample_enc_maxlen
    (at_packet 0) (Z.of_nat (length pkt)) (Some name_buf_0) (Some slot_0)
    (state_of pkt).

Definition sample_reply_check (pkt : list Z) : res bool * state :=
  dns_reply_check sample_minsize sample_maxsize sample_enc_maxlen
    (at_packet 0) (Z.of_nat (length pkt)) (Some name_buf_0) (Some slot_0)
    (state_of pkt).

(** The state the reply validator leaves behind. *)
Definition validated (pkt : list Z) : state := snd (sample_reply_check pkt).

(** * Properties *)

(** ** Wrap-around *)

Lemma size_wrap_small (z : Z) : 0 <= z < 2 ^ 64 -> size_wrap z = z.
Proof. intros H. unfold size_wrap. apply Z.mod_small. exact H. Qed.

Lemma ssize_wrap_small (z : Z) : - 2 ^ 63 <= z < 2 ^ 63 -> ssize_wrap z = z.
Proof.
  intros H. unfold ssize_wrap.
  rewrite Z.mod_small by lia. lia.
Qed.

Lemma size_wrap_range (z : Z) : 0 <= size_wrap z < 2 ^ 64.
Proof. unfold size_wrap. apply Z.mod_pos_bound. lia. Qed.

(** ** Cells *)

Lemma ptr_add_0 (p : pointer) : p .+ 0 = p.
Proof. destruct p as [b o]. unfold ptr_add. simpl. f_equal. lia. Qed.

Lemma ptr_add_add (p : pointer) (a b : Z) : p .+ a .+ b = p .+ (a + b).
Proof. unfold ptr_add. simpl. f_equal. lia. Qed.

Lemma ptr_add_inj (p : pointer) (a b : Z) : p .+ a = p .+ b -> a = b.
Proof. unfold ptr_add. intros H. injection H. lia. Qed.

Lemma store_cell_is_Some (m : mem) (p : pointer) (v : Z) :
  is_Some (load_cell m p) -> is_Some (store_cell m p v).
Proof.
  unfold load_cell, store_cell. intros [w H].
  destruct (decide (0 <= ofs p)); [|discriminate].
  destruct (m !! blk p) as [cells|]; [|discriminate].
  apply lookup_lt_Some in H.
  destruct (decide (Z.to_nat (ofs p) < length cells)%nat); [eauto|lia].
Qed.

Lemma load_store_eq (m m' : mem) (p : pointer) (v : Z) :
  store_cell m p v = Some m' -> load_cell m' p = Some v.
Proof.
  unfold load_cell, store_cell. intros H.
  destruct (decide (0 <= ofs p)); [|discriminate].
  destruct (m !! blk p) as [cells|]; [|discriminate].
  destruct (decide (Z.to_nat (ofs p) < length cells)%nat); [|discriminate].
  injection H as <-. rewrite lookup_insert_eq.
  apply list_lookup_insert_eq. assumption.
Qed.

Lemma load_store_ne (m m' : mem) (p q : pointer) (v : Z) :
  store_cell m p v = Some m' -> q <> p -> load_cell m' q = load_cell m q.
Proof.
  unfold load_cell, store_cell. intros H Hne.
  destruct (decide (0 <= ofs p)); [|discriminate].
  destruct (m !! blk p) as [cells|] eqn:Hm; [|discriminate].
  destruct (decide (Z.to_nat (ofs p) < length cells)%nat); [|discriminate].
  injection H as <-.
  destruct (decide (0 <= ofs q)); [|reflexivity].
  destruct (decide (blk q = blk p)) as [Hb|Hb].
  - rewrite Hb, lookup_insert_eq, Hm.
    apply list_lookup_insert_ne. intros Ho. apply Hne.
    destruct p, q. simpl in *. f_equal; [congruence|lia].
  - rewrite lookup_insert_ne by congruence. reflexivity.
Qed.

Lemma peek8_byte (m : mem) (p : pointer) (b : Z) :
  peek8 m p = Some b -> is_byte b.
Proof.
  unfold peek8. destruct (load_cell m p); [|discriminate].
  intros [= <-]. apply Z.mod_pos_bound. lia.
Qed.

(** ** The relations kept by a computation *)

#[local] Instance reads_only_preorder (S : pointer -> Prop) :
  PreOrder (reads_only S).
Proof.
  split.
  - intros st. exists []. split; [symmetry; apply app_nil_r|constructor].
  - intros s1 s2 s3 [t1 [E1 F1]] [t2 [E2 F2]]. exists (t1 ++ t2). split.
    + rewrite E2, E1. symmetry. apply app_assoc.
    + apply Forall_app. split; assumption.
Qed.

#[local] Instance ipset_untouched_preorder : PreOrder ipset_untouched.
Proof.
  split.
  - intros st. exists []. split; [symmetry; apply app_nil_r|constructor].
  - intros s1 s2 s3 [t1 [E1 F1]] [t2 [E2 F2]]. exists (t1 ++ t2). split.
    + rewrite E2, E1. symmetry. apply app_assoc.
    + apply Forall_app. split; assumption.
Qed.

#[local] Instance unchanged_outside_preorder (W : pointer -> Prop) :
  PreOrder (unchanged_outside W).
Proof.
  split.
  - intros st p _. reflexivity.
  - intros s1 s2 s3 H12 H23 p Hp. rewrite (H23 p Hp). apply H12, Hp.
Qed.

#[local] Instance same_heap_preorder : PreOrder same_heap.
Proof.
  split.
  - intros st. reflexivity.
  - intros s1 s2 s3 H12 H23. unfold same_heap in *. congruence.
Qed.

Lemma reads_only_mono (S S' : pointer -> Prop) (st st' : state) :
  (forall p, S p -> S' p) -> reads_only S st st' -> reads_only S' st st'.
Proof.
  intros HS [t [E F]]. exists t. split; [exact E|].
  eapply Forall_impl; [exact F|]. intros [p|a b]; simpl; auto.
Qed.

Lemma unchanged_outside_mono (W W' : pointer -> Prop) (st st' : state) :
  (forall p, W p -> W' p) ->
  unchanged_outside W st st' -> unchanged_outside W' st st'.
Proof. intros HW H p Hp. apply H. intros Hw. apply Hp, HW, Hw. Qed.

Section Yields.

Context (R : state -> state -> Prop) `{!PreOrder R}.

Lemma yields_ret {A} (Q : A -> Prop) (a : A) : Q a -> yields R Q (mret a).
Proof.
  intros HQ st. split; [reflexivity|].
  intros a' [= <-]. exact HQ.
Qed.

Lemma yields_out_of_fuel {A} (Q : A -> Prop) : yields R Q out_of_fuel.
Proof. intros st. split; [reflexivity|]. intros a [=]. Qed.

Lemma yields_bind {A B} (Q : A -> Prop) (Q' : B -> Prop)
    (c : M A) (k : A -> M B) :
  yields R Q c -> (forall a, Q a -> yields R Q' (k a)) ->
  yields R Q' (c ≫= k).
Proof.
  intros Hc Hk st. destruct (Hc st) as [HR HQ].
  unfold result, final in *.
  unfold mbind, M_MBind, M_bind.
  destruct (c st) as [[a| |] st1]; simpl in *.
  - destruct (Hk a (HQ a eq_refl) st1) as [HR' HQ'].
    split; [etransitivity; eassumption|exact HQ'].
  - split; [exact HR|intros b [=]].
  - split; [exact HR|intros b [=]].
Qed.

Lemma yields_weaken {A} (Q Q' : A -> Prop) (c : M A) :
  yields R Q c -> (forall a, Q a -> Q' a) -> yields R Q' c.
Proof.
  intros Hc HQ st. destruct (Hc st) as [HR H]. split; [exact HR|].
  intros a Ha. apply HQ, H, Ha.
Qed.

End Yields.

Lemma yields_rel {A} (R R' : state -> state -> Prop) (Q : A -> Prop) (c : M A) :
  (forall st st', R st st' -> R' st st') -> yields R Q c -> yields R' Q c.
Proof.
  intros HR Hc st. destruct (Hc st) as [H1 H2]. split; [apply HR, H1|exact H2].
Qed.

Ltac ybind := eapply yields_bind; [typeclasses eauto | | ].
Ltac yret := apply yields_ret; [typeclasses eauto | ].
Ltac yfuel := apply yields_out_of_fuel; typeclasses eauto.

(** *** Loads, stores and the trace *)

Lemma load_reads (S : pointer -> Prop) (p : pointer) :
  S p -> yields (reads_only S) (fun _ => True) (load p).
Proof.
  intros HS st. split; [|trivial].
  exists [EvRead p]. unfold final, load.
  destruct (load_cell (heap st) p); simpl; (split; [reflexivity|]);
    repeat constructor; exact HS.
Qed.

Lemma store_reads (S : pointer -> Prop) (p : pointer) (v : Z) :
  yields (reads_only S) (fun _ => True) (store p v).
Proof.
  intros st. split; [|trivial].
  exists []. unfold final, store.
  destruct (store_cell (heap st) p v); simpl;
    (split; [symmetry; apply app_nil_r|constructor]).
Qed.

Lemma log_ipset_reads (S : pointer -> Prop) (addr : list Z) (v4 : bool) :
  yields (reads_only S) (fun _ => True) (log (EvIpset addr v4)).
Proof.
  intros st. split; [|trivial].
  exists [EvIpset addr v4]. split; [reflexivity|]. repeat constructor.
Qed.

Lemma load_uchar_reads (S : pointer -> Prop) (p : pointer) :
  S p -> yields (reads_only S) is_byte (load_uchar p).
Proof.
  intros HS. unfold load_uchar.
  ybind; [apply load_reads, HS|].
  intros v _. yret.
  apply Z.mod_pos_bound. lia.
Qed.

Lemma ntohs_reads (S : pointer -> Prop) (p : pointer) :
  S p -> S (p .+ 1) ->
  yields (reads_only S) (fun v => 0 <= v < 65536) (ntohs p).
Proof.
  intros H0 H1. unfold ntohs.
  ybind; [apply load_uchar_reads, H0|].
  intros hi Hhi.
  ybind; [apply load_uchar_reads, H1|].
  intros lo Hlo. yret.
  unfold is_byte in *. lia.
Qed.

Lemma header_qr_reads (S : pointer -> Prop) (header : pointer) :
  S (header .+ off_flags) ->
  yields (reads_only S) (fun _ => True) (header_qr header).
Proof.
  intros HS. unfold header_qr. ybind; [apply load_uchar_reads, HS|].
  intros b _. yret. exact I.
Qed.

Lemma header_opcode_reads (S : pointer -> Prop) (header : pointer) :
  S (header .+ off_flags) ->
  yields (reads_only S) (fun _ => True) (header_opcode header).
Proof.
  intros HS. unfold header_opcode. ybind; [apply load_uchar_reads, HS|].
  intros b _. yret. exact I.
Qed.

Lemma load_bytes_reads (S : pointer -> Prop) (n : nat) (p : pointer) :
  (forall i, 0 <= i < Z.of_nat n -> S (p .+ i)) ->
  yields (reads_only S) (fun _ => True) (load_bytes p n).
Proof.
  revert p. induction n as [|n IH]; intros p HS; simpl.
  - yret. trivial.
  - ybind.
    + apply load_uchar_reads. rewrite <- (ptr_add_0 p). apply HS. lia.
    + intros v _. ybind.
      * apply IH. intros i Hi. rewrite ptr_add_add. apply HS. lia.
      * intros vs _. yret. trivial.
Qed.

Lemma memcpy_reads (S : pointer -> Prop) (n : nat) (dst src : pointer) :
  (forall i, 0 <= i < Z.of_nat n -> S (src .+ i)) ->
  yields (reads_only S) (fun _ => True) (memcpy dst src n).
Proof.
  revert dst src. induction n as [|n IH]; intros dst src HS; simpl.
  - yret. trivial.
  - ybind.
    + apply load_reads. rewrite <- (ptr_add_0 src). apply HS. lia.
    + intros v _. ybind; [apply store_reads|].
      intros _ _. apply IH. intros i Hi. rewrite ptr_add_add. apply HS. lia.
Qed.

(** [memchr] reads inside the [n] bytes it is given, and what it finds is
    one of them. *)
Lemma memchr_reads (S : pointer -> Prop) (n : nat) (s : pointer) (c : Z) :
  (forall i, 0 <= i < Z.of_nat n -> S (s .+ i)) ->
  yields (reads_only S)
    (fun r => forall p, r = Some p ->
       exists d, 0 <= d < Z.of_nat n /\ p = s .+ d)
    (memchr s c n).
Proof.
  revert s. induction n as [|n IH]; intros s HS; simpl.
  - yret. intros p [=].
  - ybind.
    + apply load_uchar_reads. rewrite <- (ptr_add_0 s). apply HS. lia.
    + intros v _. case_decide.
      * yret. intros p [= <-]. exists 0. split; [lia|].
        symmetry. apply ptr_add_0.
      * eapply yields_weaken.
        -- apply IH. intros i Hi. rewrite ptr_add_add. apply HS. lia.
        -- simpl. intros r Hr p Hp. destruct (Hr p Hp) as [d [Hd ->]].
           exists (1 + d). split; [lia|]. apply ptr_add_add.
Qed.

(** *** [decode_name] reads inside the declared length *)

Lemma decode_name_loop_reads (S : pointer -> Prop) (fuel : nat) :
  forall (first : bool) (out src : pointer) (len : Z),
    (forall i, 0 <= i < len -> S (src .+ i)) ->
    yields (reads_only S) (fun _ => True)
      (decode_name_loop fuel first out src len).
Proof.
  induction fuel as [|fuel IH]; intros first out src len HS; simpl.
  - case_decide; [yfuel|]. case_decide; yret; trivial.
  - case_decide; [|case_decide; yret; trivial].
    ybind.
    { instantiate (1 := fun _ => True).
      destruct first; [yret; trivial|].
      ybind; [apply store_reads|]. intros _ _. yret. trivial. }
    intros out' _. ybind.
    { apply load_uchar_reads. rewrite <- (ptr_add_0 src). apply HS. lia. }
    intros label_len Hb.
    repeat (case_decide; [yret; trivial|]).
    apply IH. intros i Hi. rewrite !ptr_add_add. apply HS. lia.
Qed.

Lemma decode_name_reads (out src : pointer) (len : Z) :
  yields (reads_only (in_range src len)) (fun _ => True)
    (decode_name out src len).
Proof.
  assert (Hin : forall i, 0 <= i < len -> in_range src len (src .+ i)).
  { intros i Hi. unfold in_range. simpl. split; [reflexivity|lia]. }
  unfold decode_name. case_decide.
  - ybind; [apply store_reads|]. intros _ _.
    ybind; [apply store_reads|]. intros _ _. yret. trivial.
  - unfold DNS_NAME_ENC_MINLEN in *. ybind.
    + apply memcpy_reads. intros i Hi. rewrite ptr_add_add. apply Hin.
      assert (size_wrap (len - 1) <= len - 1).
      { unfold size_wrap. apply Z.mod_le; lia. }
      lia.
    + intros _ _. apply decode_name_loop_reads.
      intros i Hi. apply Hin. lia.
Qed.

(** *** [skip_name] reads inside the remaining length *)

Lemma skip_name_loop_reads (S : pointer -> Prop) (fuel : nat) :
  forall (ptr : pointer) (len : Z),
    (forall i, 0 <= i < len -> S (ptr .+ i)) ->
    yields (reads_only S)
      (fun r => forall x, r = Some x -> advanced ptr len x)
      (skip_name_loop fuel ptr len).
Proof.
  assert (Hstay : forall ptr len x, x = (ptr, len) -> advanced ptr len x).
  { intros ptr len x ->. exists 0. simpl.
    repeat split; [lia|symmetry; apply ptr_add_0|lia]. }
  induction fuel as [|fuel IH]; intros ptr len HS; simpl.
  - case_decide; [yfuel|]. yret. intros x [= <-]. eapply Hstay; reflexivity.
  - case_decide; [|yret; intros x [= <-]; eapply Hstay; reflexivity].
    ybind.
    { apply load_uchar_reads. rewrite <- (ptr_add_0 ptr). apply HS. lia. }
    intros label_len Hb. unfold is_byte in Hb.
    case_decide.
    { yret. intros x [= <-]. exists 1. simpl. repeat split; (reflexivity || lia). }
    case_decide.
    { yret. intros x [= <-]. exists 2. simpl. repeat split; (reflexivity || lia). }
    case_decide.
    { yret. intros x [=]. }
    eapply yields_weaken.
    + apply IH. intros i Hi. rewrite ptr_add_add. apply HS. lia.
    + simpl. intros r Hr x Hx. destruct (Hr x Hx) as [d [Hd [E1 E2]]].
      exists (1 + label_len + d). rewrite E1, E2, ptr_add_add.
      split; [lia|]. split; [reflexivity|lia].
Qed.

Lemma skip_name_reads (S : pointer -> Prop) (ptr : pointer) (len : Z) :
  (forall i, 0 <= i < len -> S (ptr .+ i)) ->
  yields (reads_only S)
    (fun r => forall x, r = Some x ->
       advanced ptr len x /\ sizeof_dns_record_t <= snd x)
    (skip_name ptr len).
Proof.
  intros HS. unfold skip_name. ybind.
  - apply skip_name_loop_reads, HS.
  - simpl. intros [[ptr' len']|] Hr.
    + case_decide; yret.
      * intros x [=].
      * intros x [= <-]. split; [apply Hr; reflexivity|simpl; lia].
    + yret. intros x [=].
Qed.

Section DnsReads.

Variable DNS_PACKET_MINSIZE : Z.
Variable DNS_PACKET_MAXSIZE : Z.
Variable DNS_NAME_ENC_MAXLEN : Z.
Variable ipset_addr_is_exists : list Z -> bool -> bool.

(** The smallest packet the validator lets through holds a header. *)
Hypothesis minsize_covers_header : sizeof_dns_header_t <= DNS_PACKET_MINSIZE.

Lemma ipset_query_reads (S : pointer -> Prop) (rdata : pointer) (v4 : bool) :
  (forall i, 0 <= i < (if v4 then IPV4_BINADDR_LEN else IPV6_BINADDR_LEN) ->
     S (rdata .+ i)) ->
  yields (reads_only S) (fun _ => True)
    (ipset_query ipset_addr_is_exists rdata v4).
Proof.
  intros HS. unfold ipset_query. ybind.
  - apply load_bytes_reads. intros i Hi. apply HS.
    destruct v4; unfold IPV4_BINADDR_LEN, IPV6_BINADDR_LEN in *; lia.
  - intros addr _. ybind; [apply log_ipset_reads|].
    intros _ _. yret. trivial.
Qed.

Lemma chnip_record_reads (S : pointer -> Prop)
    (packet_buf : pointer) (packet_len : Z) :
  (forall i, 0 <= i < packet_len -> S (packet_buf .+ i)) ->
  yields (reads_only S)
    (fun r => forall p l, r = Next p l -> advanced packet_buf packet_len (p, l))
    (chnip_record ipset_addr_is_exists packet_buf packet_len).
Proof.
  intros HS. unfold chnip_record. ybind; [apply skip_name_reads, HS|].
  simpl. intros [[rec len]|] Hr; [|yret; intros p l [=]].
  destruct (Hr _ eq_refl) as [[d [Hd [E1 E2]]] Hlen]. simpl in *. subst rec len.
  unfold sizeof_dns_record_t, off_rclass, off_rdatalen, off_rtype, off_rdata,
    IPV4_BINADDR_LEN, IPV6_BINADDR_LEN in *.
  assert (Hin : forall j, 0 <= j < packet_len - d -> S (packet_buf .+ d .+ j)).
  { intros j Hj. rewrite ptr_add_add. apply HS. lia. }
  ybind.
  { apply ntohs_reads; [|rewrite ptr_add_add]; apply Hin; lia. }
  intros rclass _. case_decide; [yret; intros p l [=]|].
  ybind.
  { apply ntohs_reads; [|rewrite ptr_add_add]; apply Hin; lia. }
  intros rdatalen Hrd. simpl in Hrd.
  case_decide; [yret; intros p l [=]|].
  ybind.
  { apply ntohs_reads; [|rewrite ptr_add_add]; apply Hin; lia. }
  intros rtype _.
  case_decide.
  { case_decide; [yret; intros p l [=]|]. ybind.
    - apply ipset_query_reads. intros i Hi. rewrite ptr_add_add. apply Hin.
      unfold IPV4_BINADDR_LEN in *. lia.
    - intros found _. yret. intros p l [=]. }
  case_decide.
  { case_decide; [yret; intros p l [=]|]. ybind.
    - apply ipset_query_reads. intros i Hi. rewrite ptr_add_add. apply Hin.
      unfold IPV6_BINADDR_LEN in *. lia.
    - intros found _. yret. intros p l [=]. }
  yret. intros p l [= <- <-]. exists (d + (10 + rdatalen)). simpl.
  split; [lia|]. split; [apply ptr_add_add|lia].
Qed.

Lemma chnip_loop_reads (S : pointer -> Prop) (n : nat) :
  forall (packet_buf : pointer) (packet_len : Z),
    (forall i, 0 <= i < packet_len -> S (packet_buf .+ i)) ->
    yields (reads_only S) (fun _ => True)
      (chnip_loop ipset_addr_is_exists n packet_buf packet_len).
Proof.
  induction n as [|n IH]; intros packet_buf packet_len HS; simpl.
  - yret. trivial.
  - ybind; [apply chnip_record_reads, HS|].
    simpl. intros [verdict|p l] Hr; [yret; trivial|].
    destruct (Hr p l eq_refl) as [d [Hd [E1 E2]]]. simpl in *. subst p l.
    apply IH. intros i Hi. rewrite ptr_add_add. apply HS. lia.
Qed.

(** The scan reads inside the packet as soon as the question it skips
    over fits in the packet. *)
Lemma dns_chnip_check_reads (packet_buf : pointer) (packet_len namelen : Z) :
  is_ssize packet_len -> 0 <= namelen ->
  sizeof_dns_header_t + namelen + sizeof_dns_query_t <= packet_len ->
  yields (reads_only (in_range packet_buf packet_len)) (fun _ => True)
    (dns_chnip_check ipset_addr_is_exists packet_buf packet_len namelen).
Proof.
  unfold is_ssize, sizeof_dns_header_t, sizeof_dns_query_t.
  intros Hlen Hn Hfit. unfold dns_chnip_check.
  assert (Hin : forall i, 0 <= i < packet_len ->
                  in_range packet_buf packet_len (packet_buf .+ i)).
  { intros i Hi. unfold in_range. simpl. split; [reflexivity|lia]. }
  unfold off_answer_count, sizeof_dns_header_t, sizeof_dns_query_t.
  ybind.
  { apply ntohs_reads; [|rewrite ptr_add_add]; apply Hin; lia. }
  intros answer_count _.
  rewrite (size_wrap_small (12 + namelen + 4)) by lia.
  rewrite ssize_wrap_small by lia.
  apply chnip_loop_reads. intros i Hi. rewrite ptr_add_add. apply Hin. lia.
Qed.

(** What the validator has established about the lengths by the time it
    reports the encoded length of the name. *)
Lemma check_packet_reads (is_query : bool) (packet_buf : pointer)
    (packet_len : Z) (name_buf p_namelen : option pointer) :
  is_ssize packet_len ->
  yields (reads_only (in_range packet_buf packet_len)) (fun _ => True)
    (check_packet DNS_PACKET_MINSIZE DNS_PACKET_MAXSIZE DNS_NAME_ENC_MAXLEN
       is_query packet_buf packet_len name_buf p_namelen).
Proof.
  unfold is_ssize. intros Hlen. unfold check_packet.
  pose proof minsize_covers_header as Hmin.
  assert (Hin : forall i, 0 <= i < packet_len ->
                  in_range packet_buf packet_len (packet_buf .+ i)).
  { intros i Hi. unfold in_range. simpl. split; [reflexivity|lia]. }
  assert (Hflags : in_range packet_buf packet_len (packet_buf .+ off_flags) \/
                   packet_len < DNS_PACKET_MINSIZE).
  { destruct (decide (packet_len < DNS_PACKET_MINSIZE)); [right; assumption|].
    left. apply Hin. unfold off_flags, sizeof_dns_header_t in *. lia. }
  unfold sizeof_dns_header_t, sizeof_dns_query_t,
    off_question_count, off_qclass, DNS_NAME_ENC_MINLEN in *.
  case_decide; [yret; trivial|].
  destruct Hflags as [Hflags|]; [|contradiction].
  case_decide; [yret; trivial|].
  ybind; [apply header_qr_reads, Hflags|].
  intros qr _. case_decide; [yret; trivial|].
  ybind; [apply header_opcode_reads, Hflags|].
  intros opcode _. case_decide; [yret; trivial|].
  ybind.
  { apply ntohs_reads; [|rewrite ptr_add_add]; apply Hin; lia. }
  intros question_count _. case_decide; [yret; trivial|].
  rewrite (ssize_wrap_small (packet_len - 12)) by lia.
  rewrite (size_wrap_small (packet_len - 12)) by lia.
  ybind.
  { apply memchr_reads. intros i Hi. rewrite ptr_add_add. apply Hin. lia. }
  simpl. intros [p|] Hp; [|yret; trivial].
  destruct (Hp p eq_refl) as [d [Hd ->]]. simpl.
  replace (ofs packet_buf + 12 + d + 1 - (ofs packet_buf + 12)) with (d + 1)
    by lia.
  rewrite (size_wrap_small (d + 1)) by lia.
  case_decide; [yret; trivial|].
  case_decide; [yret; trivial|].
  rewrite (ssize_wrap_small (d + 1)) by lia.
  ybind.
  { instantiate (1 := fun _ => True). destruct name_buf as [out|].
    - eapply yields_rel; [|apply decode_name_reads].
      intros st st'. apply reads_only_mono.
      intros q [Hb Ho]. simpl in *. split; [exact Hb|lia].
    - yret. trivial. }
  intros decoded _. destruct decoded; simpl; [|yret; trivial].
  ybind.
  { instantiate (1 := fun _ => True). destruct p_namelen as [slot|].
    - apply store_reads.
    - yret. trivial. }
  intros _ _.
  rewrite (ssize_wrap_small (packet_len - 12 - (d + 1))) by lia.
  case_decide; [yret; trivial|].
  ybind.
  { apply ntohs_reads; rewrite !ptr_add_add; apply Hin; lia. }
  intros qclass _. case_decide; yret; trivial.
Qed.

End DnsReads.

(** ** Stepping through a run *)

Lemma bind_Val_inv {A B} (c : M A) (k : A -> M B) (st st' : state) (b : B) :
  (c ≫= k) st = (Val b, st') ->
  exists a st1, c st = (Val a, st1) /\ k a st1 = (Val b, st').
Proof.
  unfold mbind, M_MBind, M_bind.
  destruct (c st) as [[a| |] st1]; intros H; try discriminate.
  exists a, st1. split; [reflexivity|exact H].
Qed.

Lemma yields_run {A} (R : state -> state -> Prop) (Q : A -> Prop) (c : M A)
    (st st' : state) (r : res A) :
  yields R Q c -> c st = (r, st') ->
  R st st' /\ (forall a, r = Val a -> Q a).
Proof.
  intros Hc E. destruct (Hc st) as [HR HQ]. unfold final, result in *.
  rewrite E in HR, HQ. split; assumption.
Qed.

(** ** Computations that keep a relation, whatever they return *)

Lemma keeps_yields {A} (R : state -> state -> Prop) (Q : A -> Prop) (c : M A) :
  yields R Q c -> keeps R c.
Proof. intros H st. apply H. Qed.

Lemma keeps_run {A} (R : state -> state -> Prop) (c : M A)
    (st st' : state) (r : res A) :
  keeps R c -> c st = (r, st') -> R st st'.
Proof. intros H E. specialize (H st). unfold final in H. rewrite E in H. exact H. Qed.

Section Keeps.

Context (R : state -> state -> Prop) `{!PreOrder R}.

Lemma keeps_ret {A} (a : A) : keeps R (mret a).
Proof. intros st. reflexivity. Qed.

Lemma keeps_out_of_fuel {A} : keeps R (@out_of_fuel A).
Proof. intros st. reflexivity. Qed.

Lemma keeps_bind {A B} (c : M A) (k : A -> M B) :
  keeps R c -> (forall a, keeps R (k a)) -> keeps R (c ≫= k).
Proof.
  intros Hc Hk st. specialize (Hc st). unfold final in *.
  unfold mbind, M_MBind, M_bind.
  destruct (c st) as [[a| |] st1]; simpl in *; try exact Hc.
  etransitivity; [exact Hc|apply Hk].
Qed.

End Keeps.

Ltac kbind := apply keeps_bind; [typeclasses eauto | | ].
Ltac kret := apply keeps_ret; typeclasses eauto.
Ltac kfuel := apply keeps_out_of_fuel; typeclasses eauto.

(** *** Reading leaves the heap alone *)

Lemma load_same_heap (p : pointer) : keeps same_heap (load p).
Proof.
  intros st. unfold final, load, same_heap.
  destruct (load_cell (heap st) p); reflexivity.
Qed.

Lemma log_same_heap (e : event) : keeps same_heap (log e).
Proof. intros st. reflexivity. Qed.

Lemma load_uchar_same_heap (p : pointer) : keeps same_heap (load_uchar p).
Proof.
  unfold load_uchar. kbind; [apply load_same_heap|]. intros v. kret.
Qed.

Lemma ntohs_same_heap (p : pointer) : keeps same_heap (ntohs p).
Proof.
  unfold ntohs. kbind; [apply load_uchar_same_heap|]. intros hi.
  kbind; [apply load_uchar_same_heap|]. intros lo. kret.
Qed.

Lemma load_bytes_same_heap (n : nat) (p : pointer) :
  keeps same_heap (load_bytes p n).
Proof.
  revert p. induction n as [|n IH]; intros p; simpl; [kret|].
  kbind; [apply load_uchar_same_heap|]. intros v.
  kbind; [apply IH|]. intros vs. kret.
Qed.

Lemma memchr_same_heap (n : nat) (s : pointer) (c : Z) :
  keeps same_heap (memchr s c n).
Proof.
  revert s. induction n as [|n IH]; intros s; simpl; [kret|].
  kbind; [apply load_uchar_same_heap|]. intros v.
  case_decide; [kret|apply IH].
Qed.

Lemma header_qr_same_heap (header : pointer) :
  keeps same_heap (header_qr header).
Proof.
  unfold header_qr. kbind; [apply load_uchar_same_heap|]. intros b. kret.
Qed.

Lemma header_opcode_same_heap (header : pointer) :
  keeps same_heap (header_opcode header).
Proof.
  unfold header_opcode. kbind; [apply load_uchar_same_heap|]. intros b. kret.
Qed.

Lemma skip_name_loop_same_heap (fuel : nat) (ptr : pointer) (len : Z) :
  keeps same_heap (skip_name_loop fuel ptr len).
Proof.
  revert ptr len. induction fuel as [|fuel IH]; intros ptr len; simpl.
  - case_decide; [kfuel|kret].
  - case_decide; [|kret].
    kbind; [apply load_uchar_same_heap|]. intros label_len.
    repeat (case_decide; [kret|]). apply IH.
Qed.

Lemma skip_name_same_heap (ptr : pointer) (len : Z) :
  keeps same_heap (skip_name ptr len).
Proof.
  unfold skip_name. kbind; [apply skip_name_loop_same_heap|].
  intros [[ptr' len']|]; [|kret]. case_decide; kret.
Qed.

Lemma ipset_query_same_heap (f : list Z -> bool -> bool)
    (rdata : pointer) (v4 : bool) :
  keeps same_heap (ipset_query f rdata v4).
Proof.
  unfold ipset_query. kbind; [apply load_bytes_same_heap|]. intros addr.
  kbind; [apply log_same_heap|]. intros _. kret.
Qed.

Lemma chnip_record_same_heap (f : list Z -> bool -> bool)
    (packet_buf : pointer) (packet_len : Z) :
  keeps same_heap (chnip_record f packet_buf packet_len).
Proof.
  unfold chnip_record. kbind; [apply skip_name_same_heap|].
  intros [[rec len]|]; [|kret].
  kbind; [apply ntohs_same_heap|]. intros rclass. case_decide; [kret|].
  kbind; [apply ntohs_same_heap|]. intros rdatalen. case_decide; [kret|].
  kbind; [apply ntohs_same_heap|]. intros rtype.
  case_decide.
  { case_decide; [kret|]. kbind; [apply ipset_query_same_heap|].
    intros found. kret. }
  case_decide; [|kret].
  case_decide; [kret|]. kbind; [apply ipset_query_same_heap|].
  intros found. kret.
Qed.

Lemma chnip_loop_same_heap (f : list Z -> bool -> bool) (n : nat)
    (packet_buf : pointer) (packet_len : Z) :
  keeps same_heap (chnip_loop f n packet_buf packet_len).
Proof.
  revert packet_buf packet_len.
  induction n as [|n IH]; intros packet_buf packet_len; simpl; [kret|].
  kbind; [apply chnip_record_same_heap|].
  intros [verdict|p l]; [kret|apply IH].
Qed.

Lemma dns_chnip_check_same_heap (f : list Z -> bool -> bool)
    (packet_buf : pointer) (packet_len namelen : Z) :
  keeps same_heap (dns_chnip_check f packet_buf packet_len namelen).
Proof.
  unfold dns_chnip_check. kbind; [apply ntohs_same_heap|].
  intros answer_count. apply chnip_loop_same_heap.
Qed.

(** ** Writes *)

Lemma ssize_wrap_le (z : Z) : 0 <= z < 2 ^ 64 -> ssize_wrap z <= z.
Proof.
  intros H. unfold ssize_wrap.
  change (2 ^ 64) with 18446744073709551616 in *.
  change (2 ^ 63) with 9223372036854775808 in *.
  Z.div_mod_to_equations. lia.
Qed.

Lemma keeps_rel {A} (R R' : state -> state -> Prop) (c : M A) :
  (forall st st', R st st' -> R' st st') -> keeps R c -> keeps R' c.
Proof. intros HR Hc st. apply HR, Hc. Qed.

Lemma same_heap_unchanged (W : pointer -> Prop) (st st' : state) :
  same_heap st st' -> unchanged_outside W st st'.
Proof. intros H p _. unfold same_heap in H. rewrite H. reflexivity. Qed.

Lemma reading_unchanged {A} (W : pointer -> Prop) (c : M A) :
  keeps same_heap c -> keeps (unchanged_outside W) c.
Proof. apply keeps_rel. apply same_heap_unchanged. Qed.

Lemma store_unchanged (W : pointer -> Prop) (p : pointer) (v : Z) :
  W p -> keeps (unchanged_outside W) (store p v).
Proof.
  intros HW st q Hq. unfold final, store.
  destruct (store_cell (heap st) p v) as [m'|] eqn:E; simpl; [|reflexivity].
  eapply load_store_ne; [exact E|]. intros ->. contradiction.
Qed.

Lemma memcpy_unchanged (W : pointer -> Prop) (n : nat) (dst src : pointer) :
  (forall i, 0 <= i < Z.of_nat n -> W (dst .+ i)) ->
  keeps (unchanged_outside W) (memcpy dst src n).
Proof.
  revert dst src. induction n as [|n IH]; intros dst src HW; simpl; [kret|].
  kbind; [apply reading_unchanged, load_same_heap|]. intros v.
  kbind.
  - apply store_unchanged. rewrite <- (ptr_add_0 dst). apply HW. lia.
  - intros _. apply IH. intros i Hi. rewrite ptr_add_add. apply HW. lia.
Qed.

Lemma yields_keeps {A} (R : state -> state -> Prop) (c : M A) :
  keeps R c -> yields R (fun _ => True) c.
Proof. intros H st. split; [apply H|trivial]. Qed.

Lemma decode_name_loop_unchanged (W : pointer -> Prop) (fuel : nat) :
  forall (first : bool) (out src : pointer) (len : Z),
    (forall i, 0 <= i < len -> W (out .+ i)) ->
    keeps (unchanged_outside W) (decode_name_loop fuel first out src len).
Proof.
  induction fuel as [|fuel IH]; intros first out src len HW; simpl.
  - case_decide; [kfuel|]. case_decide; kret.
  - case_decide; [|case_decide; kret].
    eapply keeps_yields. ybind.
    { instantiate (1 := fun o => o = if first then out else out .+ 1).
      destruct first; [yret; reflexivity|].
      ybind.
      - apply yields_keeps, store_unchanged.
        rewrite <- (ptr_add_0 out). apply HW. lia.
      - intros _ _. yret. reflexivity. }
    intros out' ->. apply yields_keeps.
    kbind; [apply reading_unchanged, load_uchar_same_heap|].
    intros label_len.
    repeat (case_decide; [kret|]).
    apply IH. intros i Hi.
    destruct first; rewrite ?ptr_add_add; apply HW; lia.
Qed.

Lemma decode_name_unchanged (out src : pointer) (len : Z) :
  keeps (unchanged_outside (in_range out (Z.max 2 (len - 1))))
    (decode_name out src len).
Proof.
  assert (Hin : forall i, 0 <= i < Z.max 2 (len - 1) ->
                  in_range out (Z.max 2 (len - 1)) (out .+ i)).
  { intros i Hi. unfold in_range. simpl. split; [reflexivity|lia]. }
  unfold decode_name. case_decide.
  - kbind.
    { apply store_unchanged. specialize (Hin 0). rewrite ptr_add_0 in Hin.
      apply Hin. lia. }
    intros _. kbind; [apply store_unchanged, Hin; lia|]. intros _. kret.
  - unfold DNS_NAME_ENC_MINLEN in *. kbind.
    + apply memcpy_unchanged. intros i Hi. apply Hin.
      assert (size_wrap (len - 1) <= len - 1).
      { unfold size_wrap. apply Z.mod_le; lia. }
      lia.
    + intros _. apply decode_name_loop_unchanged.
      intros i Hi. apply Hin. lia.
Qed.

Lemma check_packet_unchanged (MINSIZE MAXSIZE ENC_MAXLEN : Z)
    (is_query : bool) (packet_buf : pointer) (packet_len : Z)
    (name_buf p_namelen : option pointer) :
  keeps (unchanged_outside (check_packet_writes ENC_MAXLEN name_buf p_namelen))
    (check_packet MINSIZE MAXSIZE ENC_MAXLEN
       is_query packet_buf packet_len name_buf p_namelen).
Proof.
  unfold check_packet.
  case_decide; [kret|]. case_decide; [kret|].
  kbind; [apply reading_unchanged, header_qr_same_heap|]. intros qr.
  case_decide; [kret|].
  kbind; [apply reading_unchanged, header_opcode_same_heap|]. intros opcode.
  case_decide; [kret|].
  kbind; [apply reading_unchanged, ntohs_same_heap|]. intros question_count.
  case_decide; [kret|].
  kbind; [apply reading_unchanged, memchr_same_heap|].
  intros [p|]; [|kret].
  case_decide; [kret|]. case_decide; [kret|].
  kbind.
  { destruct name_buf as [out|]; [|kret].
    eapply keeps_rel; [|apply decode_name_unchanged].
    intros st st'. apply unchanged_outside_mono.
    intros q [Hb Ho]. left. exists out. split; [reflexivity|].
    split; [exact Hb|].
    pose proof (size_wrap_range (ofs p + 1 - ofs (packet_buf .+ sizeof_dns_header_t))) as Hr.
    pose proof (ssize_wrap_le _ Hr). lia. }
  intros decoded. destruct decoded; simpl; [|kret].
  kbind.
  { destruct p_namelen as [slot|]; [|kret].
    apply store_unchanged. right. reflexivity. }
  intros _. case_decide; [kret|].
  kbind; [apply reading_unchanged, ntohs_same_heap|]. intros qclass.
  case_decide; kret.
Qed.

(** ** Running on a known heap *)

Lemma runs_to_ret {A} (a : A) (m : mem) : runs_to (mret a) m a m.
Proof. intros st <-. split; reflexivity. Qed.

Lemma runs_to_bind {A B} (c : M A) (k : A -> M B)
    (m m1 m2 : mem) (a : A) (b : B) :
  runs_to c m a m1 -> runs_to (k a) m1 b m2 -> runs_to (c ≫= k) m b m2.
Proof.
  intros Hc Hk st Hst. destruct (Hc st Hst) as [Hr Hh].
  unfold result, final in *. unfold mbind, M_MBind, M_bind.
  destruct (c st) as [r st1]. simpl in *. subst r. apply Hk, Hh.
Qed.

Lemma runs_to_load (m : mem) (p : pointer) (v : Z) :
  load_cell m p = Some v -> runs_to (load p) m v m.
Proof.
  intros H st <-. unfold result, final, load. rewrite H. split; reflexivity.
Qed.

Lemma runs_to_store (m m' : mem) (p : pointer) (v : Z) :
  store_cell m p v = Some m' -> runs_to (store p v) m tt m'.
Proof.
  intros H st <-. unfold result, final, store. rewrite H. split; reflexivity.
Qed.

Lemma runs_to_log (m : mem) (e : event) : runs_to (log e) m tt m.
Proof. intros st <-. split; reflexivity. Qed.

Lemma runs_to_load_uchar (m : mem) (p : pointer) (b : Z) :
  peek8 m p = Some b -> runs_to (load_uchar p) m b m.
Proof.
  unfold peek8. destruct (load_cell m p) as [v|] eqn:E; [|discriminate].
  intros [= <-]. unfold load_uchar.
  eapply runs_to_bind; [apply runs_to_load, E|apply runs_to_ret].
Qed.

Lemma runs_to_ntohs (m : mem) (p : pointer) (v : Z) :
  peek16 m p = Some v -> runs_to (ntohs p) m v m.
Proof.
  unfold peek16.
  destruct (peek8 m p) as [hi|] eqn:Hhi; [|discriminate].
  destruct (peek8 m (p .+ 1)) as [lo|] eqn:Hlo; [|discriminate].
  intros [= <-]. unfold ntohs.
  eapply runs_to_bind; [apply runs_to_load_uchar, Hhi|].
  eapply runs_to_bind; [apply runs_to_load_uchar, Hlo|apply runs_to_ret].
Qed.

Lemma runs_to_result {A} (c : M A) (m m' : mem) (a : A) (st : state) :
  runs_to c m a m' -> heap st = m -> result c st = Val a.
Proof. intros H E. apply H, E. Qed.

Lemma bytes_at_peek8 (m : mem) (p : pointer) (l : list Z) (i : nat) (b : Z) :
  bytes_at m p l -> l !! i = Some b -> peek8 m (p .+ Z.of_nat i) = Some b.
Proof.
  intros [Hc Hb] Hi. unfold peek8. rewrite (Hc i b Hi).
  rewrite Forall_lookup in Hb. specialize (Hb i b Hi). unfold is_byte in Hb.
  rewrite Z.mod_small by lia. reflexivity.
Qed.

Lemma bytes_at_app (m : mem) (p : pointer) (l1 l2 : list Z) :
  bytes_at m p (l1 ++ l2) <->
  bytes_at m p l1 /\ bytes_at m (p .+ Z.of_nat (length l1)) l2.
Proof.
  unfold bytes_at, cells_at. rewrite Forall_app. split.
  - intros [Hc [F1 F2]]. repeat split; try assumption.
    + intros i v Hi. apply Hc. rewrite lookup_app_l; [exact Hi|].
      eapply lookup_lt_Some, Hi.
    + intros i v Hi. rewrite ptr_add_add, <- Nat2Z.inj_add. apply Hc.
      rewrite lookup_app_r by lia.
      replace (length l1 + i - length l1)%nat with i by lia. exact Hi.
  - intros [[Hc1 F1] [Hc2 F2]]. repeat split; try assumption.
    intros i v Hi. destruct (decide (i < length l1)%nat) as [Hlt|Hge].
    + apply Hc1. rewrite lookup_app_l in Hi by exact Hlt. exact Hi.
    + rewrite lookup_app_r in Hi by lia.
      specialize (Hc2 _ _ Hi). rewrite ptr_add_add, <- Nat2Z.inj_add in Hc2.
      replace (length l1 + (i - length l1))%nat with i in Hc2 by lia.
      exact Hc2.
Qed.

Lemma bytes_at_cons (m : mem) (p : pointer) (b : Z) (l : list Z) :
  bytes_at m p (b :: l) ->
  peek8 m p = Some b /\ is_byte b /\ bytes_at m (p .+ 1) l.
Proof.
  change (b :: l) with ([b] ++ l). rewrite bytes_at_app. simpl.
  intros [H1 H2]. split; [|split; [|exact H2]].
  - rewrite <- (ptr_add_0 p). apply (bytes_at_peek8 m p [b] 0 b H1).
    reflexivity.
  - destruct H1 as [_ F]. inversion F. assumption.
Qed.

Lemma bytes_at_same_cells (m m' : mem) (p : pointer) (l : list Z) :
  (forall i, 0 <= i < Z.of_nat (length l) ->
     load_cell m' (p .+ i) = load_cell m (p .+ i)) ->
  bytes_at m p l -> bytes_at m' p l.
Proof.
  intros Hsame [Hc Hb]. split; [|exact Hb].
  intros i v Hi. rewrite Hsame; [apply Hc, Hi|].
  apply lookup_lt_Some in Hi. lia.
Qed.

Lemma runs_to_load_bytes (m : mem) (l : list Z) (p : pointer) :
  bytes_at m p l -> runs_to (load_bytes p (length l)) m l m.
Proof.
  revert p. induction l as [|b l IH]; intros p H; simpl.
  - apply runs_to_ret.
  - apply bytes_at_cons in H. destruct H as [H1 [_ H2]].
    eapply runs_to_bind; [apply runs_to_load_uchar, H1|].
    eapply runs_to_bind; [apply IH, H2|apply runs_to_ret].
Qed.

(** ** Outcomes that depend on the heap only *)

Lemma heap_determined_ret {A} (a : A) : heap_determined (mret a).
Proof. intros st1 st2 H. split; [reflexivity|exact H]. Qed.

Lemma heap_determined_out_of_fuel {A} : heap_determined (@out_of_fuel A).
Proof. intros st1 st2 H. split; [reflexivity|exact H]. Qed.

Lemma heap_determined_bind {A B} (c : M A) (k : A -> M B) :
  heap_determined c -> (forall a, heap_determined (k a)) ->
  heap_determined (c ≫= k).
Proof.
  intros Hc Hk st1 st2 H. destruct (Hc st1 st2 H) as [Hr Hh].
  unfold result, final in *. unfold mbind, M_MBind, M_bind.
  destruct (c st1) as [r1 s1], (c st2) as [r2 s2]. simpl in *. subst r2.
  destruct r1 as [a| |]; simpl; [apply Hk, Hh|split..]; trivial.
Qed.

Lemma heap_determined_load (p : pointer) : heap_determined (load p).
Proof.
  intros st1 st2 H. unfold result, final, load. rewrite H.
  destruct (load_cell (heap st2) p); simpl; split; reflexivity.
Qed.

Lemma heap_determined_load_uchar (p : pointer) : heap_determined (load_uchar p).
Proof.
  unfold load_uchar. apply heap_determined_bind; [apply heap_determined_load|].
  intros v. apply heap_determined_ret.
Qed.

Lemma heap_determined_skip_name_loop (fuel : nat) (ptr : pointer) (len : Z) :
  heap_determined (skip_name_loop fuel ptr len).
Proof.
  revert ptr len. induction fuel as [|fuel IH]; intros ptr len; simpl.
  - case_decide; [apply heap_determined_out_of_fuel|apply heap_determined_ret].
  - case_decide; [|apply heap_determined_ret].
    apply heap_determined_bind; [apply heap_determined_load_uchar|].
    intros label_len.
    repeat (case_decide; [apply heap_determined_ret|]). apply IH.
Qed.

Lemma heap_determined_skip_name (ptr : pointer) (len : Z) :
  heap_determined (skip_name ptr len).
Proof.
  unfold skip_name.
  apply heap_determined_bind; [apply heap_determined_skip_name_loop|].
  intros [[ptr' len']|]; [|apply heap_determined_ret].
  case_decide; apply heap_determined_ret.
Qed.

(** ** [skip_name] *)

Lemma load_uchar_byte (p : pointer) (st st' : state) (b : Z) :
  load_uchar p st = (Val b, st') -> is_byte b.
Proof.
  intros E.
  destruct (yields_run _ _ _ _ _ _ (load_uchar_reads (fun _ => True) p I) E)
    as [_ H].
  apply H. reflexivity.
Qed.

Lemma load_uchar_total (p : pointer) (st st' : state) :
  load_uchar p st <> (OutOfFuel, st').
Proof.
  unfold load_uchar, load, mbind, M_MBind, M_bind.
  destruct (load_cell (heap st) p); discriminate.
Qed.

(** The fuel handed to the loop by [skip_name] is never exhausted: any
    two amounts that cover the remaining length give the same run. *)
Lemma skip_name_loop_fuel (fuel1 : nat) :
  forall (fuel2 : nat) (ptr : pointer) (len : Z) (st : state),
    (Z.to_nat len <= fuel1)%nat -> (Z.to_nat len <= fuel2)%nat ->
    skip_name_loop fuel1 ptr len st = skip_name_loop fuel2 ptr len st.
Proof.
  induction fuel1 as [|fuel1 IH]; intros fuel2 ptr len st H1 H2.
  - destruct fuel2; simpl; case_decide; try reflexivity; lia.
  - destruct fuel2 as [|fuel2]; simpl.
    { case_decide; [lia|reflexivity]. }
    case_decide; [|reflexivity].
    unfold mbind, M_MBind, M_bind.
    destruct (load_uchar ptr st) as [[b| |] st1] eqn:E; try reflexivity.
    apply load_uchar_byte in E. unfold is_byte in E.
    repeat (case_decide; [reflexivity|]).
    apply IH; lia.
Qed.

Lemma skip_name_loop_total (fuel : nat) :
  forall (ptr : pointer) (len : Z) (st : state),
    (Z.to_nat len <= fuel)%nat ->
    result (skip_name_loop fuel ptr len) st <> OutOfFuel.
Proof.
  induction fuel as [|fuel IH]; intros ptr len st Hf; simpl.
  - case_decide; [lia|]. discriminate.
  - case_decide; [|discriminate].
    unfold result, mbind, M_MBind, M_bind.
    destruct (load_uchar ptr st) as [[b| |] st1] eqn:E; simpl;
      try discriminate; [|exfalso; eapply load_uchar_total, E].
    apply load_uchar_byte in E. unfold is_byte in E.
    repeat (case_decide; [discriminate|]).
    apply IH. lia.
Qed.

Lemma skip_name_total (ptr : pointer) (len : Z) (st : state) :
  result (skip_name ptr len) st <> OutOfFuel.
Proof.
  unfold skip_name, result, mbind, M_MBind, M_bind.
  pose proof (skip_name_loop_total (Z.to_nat len) ptr len st (le_n _)) as H.
  unfold result in H.
  destruct (skip_name_loop (Z.to_nat len) ptr len st) as [[[[p l]|]| |] st1];
    simpl in *; try discriminate; [|contradiction].
  case_decide; discriminate.
Qed.

Lemma skip_name_result (ptr : pointer) (len : Z) (st : state) :
  result (skip_name ptr len) st =
  match result (skip_name_loop (Z.to_nat len) ptr len) st with
  | Val r => Val (enough_for_record r)
  | Fault => Fault
  | OutOfFuel => OutOfFuel
  end.
Proof.
  unfold skip_name, result, mbind, M_MBind, M_bind.
  destruct (skip_name_loop (Z.to_nat len) ptr len st) as [[[[p l]|]| |] st1];
    simpl; try reflexivity.
  case_decide; reflexivity.
Qed.

Lemma skip_name_stops (m : mem) (ptr : pointer) (len : Z) :
  len <= 0 -> runs_to (skip_name ptr len) m None m.
Proof.
  intros Hlen. unfold skip_name. eapply runs_to_bind.
  - destruct (Z.to_nat len); simpl; (case_decide; [lia|]); apply runs_to_ret.
  - simpl. unfold sizeof_dns_record_t. case_decide; [|lia]. apply runs_to_ret.
Qed.

Lemma skip_name_loop_ends (m : mem) (ptr : pointer) (len b used : Z) :
  peek8 m ptr = Some b -> 0 < len ->
  (b = 0 /\ used = 1) \/ (DNS_DNAME_COMPRESSION_MINVAL <= b /\ used = 2) ->
  runs_to (skip_name_loop (Z.to_nat len) ptr len) m
    (Some (ptr .+ used, len - used)) m.
Proof.
  intros Hb Hlen Hcase.
  destruct (Z.to_nat len) as [|fuel] eqn:Ef; [lia|]. simpl.
  case_decide; [|lia].
  eapply runs_to_bind; [apply runs_to_load_uchar, Hb|].
  unfold DNS_DNAME_COMPRESSION_MINVAL in *.
  destruct Hcase as [[-> ->]|[Hc ->]].
  - case_decide; [|lia]. apply runs_to_ret.
  - case_decide; [lia|]. case_decide; [|lia]. apply runs_to_ret.
Qed.

Lemma skip_name_ends (m : mem) (ptr : pointer) (len b used : Z) :
  peek8 m ptr = Some b -> 0 < len ->
  (b = 0 /\ used = 1) \/ (DNS_DNAME_COMPRESSION_MINVAL <= b /\ used = 2) ->
  runs_to (skip_name ptr len) m
    (if decide (len - used < sizeof_dns_record_t) then None
     else Some (ptr .+ used, len - used)) m.
Proof.
  intros Hb Hlen Hcase. unfold skip_name. eapply runs_to_bind.
  - eapply skip_name_loop_ends; eassumption.
  - simpl. case_decide; apply runs_to_ret.
Qed.

Lemma skip_name_rejects (m : mem) (ptr : pointer) (len b : Z) :
  peek8 m ptr = Some b -> 0 < len ->
  DNS_DNAME_LABEL_MAXLEN < b < DNS_DNAME_COMPRESSION_MINVAL ->
  runs_to (skip_name ptr len) m None m.
Proof.
  unfold DNS_DNAME_LABEL_MAXLEN, DNS_DNAME_COMPRESSION_MINVAL.
  intros Hb Hlen Hcase. unfold skip_name. eapply runs_to_bind.
  - destruct (Z.to_nat len) as [|fuel] eqn:Ef; [lia|]. simpl.
    case_decide; [|lia].
    eapply runs_to_bind; [apply runs_to_load_uchar, Hb|].
    unfold DNS_DNAME_LABEL_MAXLEN, DNS_DNAME_COMPRESSION_MINVAL.
    case_decide; [lia|]. case_decide; [lia|]. case_decide; [|lia].
    apply runs_to_ret.
  - apply runs_to_ret.
Qed.

Lemma skip_name_label (ptr : pointer) (len b : Z) (st : state) :
  peek8 (heap st) ptr = Some b -> 0 < len ->
  1 <= b <= DNS_DNAME_LABEL_MAXLEN ->
  result (skip_name ptr len) st =
  result (skip_name (ptr .+ (1 + b)) (len - (1 + b))) st.
Proof.
  unfold DNS_DNAME_LABEL_MAXLEN. intros Hb Hlen Hcase.
  rewrite !skip_name_result.
  destruct (Z.to_nat len) as [|fuel] eqn:Ef; [lia|]. simpl.
  case_decide; [|lia].
  destruct (runs_to_load_uchar _ _ _ Hb st eq_refl) as [Hr Hh].
  unfold result, final, mbind, M_MBind, M_bind in *.
  destruct (load_uchar ptr st) as [r st1]. simpl in Hr, Hh. subst r.
  unfold DNS_DNAME_LABEL_MAXLEN, DNS_DNAME_COMPRESSION_MINVAL.
  case_decide; [lia|]. case_decide; [lia|]. case_decide; [lia|].
  rewrite (skip_name_loop_fuel fuel (Z.to_nat (len - (1 + b)))) by lia.
  destruct (heap_determined_skip_name_loop (Z.to_nat (len - (1 + b)))
              (ptr .+ (1 + b)) (len - (1 + b)) st1 st Hh) as [E _].
  unfold result in E. rewrite E. reflexivity.
Qed.

Lemma top_bits_set (b : Z) :
  is_byte b -> Z.land b 192 = 192 <-> DNS_DNAME_COMPRESSION_MINVAL <= b.
Proof.
  unfold is_byte, DNS_DNAME_COMPRESSION_MINVAL. intros Hb.
  assert (Hall : forall x, In x (seqZ 0 256) ->
                   Bool.eqb (Z.land x 192 =? 192) (192 <=? x) = true).
  { apply forallb_forall. vm_compute. reflexivity. }
  assert (Hin : In b (seqZ 0 256)).
  { apply list_elem_of_In, elem_of_seqZ. lia. }
  specialize (Hall b Hin). apply Bool.eqb_prop in Hall.
  rewrite <- Z.eqb_eq, <- Z.leb_le, Hall. reflexivity.
Qed.

(** ** Cells under stores *)

Lemma store_cell_allocated (m m' : mem) (p q : pointer) (v : Z) :
  store_cell m p v = Some m' ->
  is_Some (load_cell m q) -> is_Some (load_cell m' q).
Proof.
  intros H Hq. destruct (decide (q = p)) as [->|Hne].
  - rewrite (load_store_eq _ _ _ _ H). eauto.
  - rewrite (load_store_ne _ _ _ _ _ H Hne). exact Hq.
Qed.

Lemma cells_at_app (m : mem) (p : pointer) (l1 l2 : list Z) :
  cells_at m p (l1 ++ l2) <->
  cells_at m p l1 /\ cells_at m (p .+ Z.of_nat (length l1)) l2.
Proof.
  unfold cells_at. split.
  - intros Hc. split.
    + intros i v Hi. apply Hc. rewrite lookup_app_l; [exact Hi|].
      eapply lookup_lt_Some, Hi.
    + intros i v Hi. rewrite ptr_add_add, <- Nat2Z.inj_add. apply Hc.
      rewrite lookup_app_r by lia.
      replace (length l1 + i - length l1)%nat with i by lia. exact Hi.
  - intros [Hc1 Hc2] i v Hi.
    destruct (decide (i < length l1)%nat) as [Hlt|Hge].
    + apply Hc1. rewrite lookup_app_l in Hi by exact Hlt. exact Hi.
    + rewrite lookup_app_r in Hi by lia.
      specialize (Hc2 _ _ Hi). rewrite ptr_add_add, <- Nat2Z.inj_add in Hc2.
      replace (length l1 + (i - length l1))%nat with i in Hc2 by lia.
      exact Hc2.
Qed.

Lemma cells_at_cons (m : mem) (p : pointer) (v : Z) (l : list Z) :
  cells_at m p (v :: l) <-> load_cell m p = Some v /\ cells_at m (p .+ 1) l.
Proof.
  change (v :: l) with ([v] ++ l). rewrite cells_at_app. simpl.
  split; intros [H1 H2]; (split; [|exact H2]).
  - specialize (H1 0%nat v eq_refl). simpl in H1.
    rewrite ptr_add_0 in H1. exact H1.
  - intros [|i] w Hi; simpl in Hi; [|destruct i; discriminate].
    injection Hi as <-. simpl. rewrite ptr_add_0. exact H1.
Qed.

Lemma cells_at_nil (m : mem) (p : pointer) : cells_at m p [].
Proof. intros i v [=]. Qed.

Lemma cells_at_same (m m' : mem) (p : pointer) (l : list Z) :
  (forall i, 0 <= i < Z.of_nat (length l) ->
     load_cell m' (p .+ i) = load_cell m (p .+ i)) ->
  cells_at m p l -> cells_at m' p l.
Proof.
  intros Hsame Hc i v Hi. rewrite Hsame; [apply Hc, Hi|].
  apply lookup_lt_Some in Hi. lia.
Qed.

Lemma cells_at_allocated (m : mem) (p : pointer) (l : list Z) :
  cells_at m p l -> allocated m p (Z.of_nat (length l)).
Proof.
  intros Hc i Hi.
  destruct (lookup_lt_is_Some_2 l (Z.to_nat i)) as [v Hv]; [lia|].
  specialize (Hc _ _ Hv). rewrite Z2Nat.id in Hc by lia. eauto.
Qed.

Lemma other_block_ne (p q : pointer) (i j : Z) :
  blk p <> blk q -> p .+ i <> q .+ j.
Proof. intros Hb E. apply Hb. injection E. auto. Qed.

Lemma runs_to_frame {A} (W : pointer -> Prop) (c : M A)
    (m m' : mem) (a : A) (q : pointer) :
  runs_to c m a m' -> keeps (unchanged_outside W) c -> ~ W q ->
  load_cell m' q = load_cell m q.
Proof.
  intros Hr Hk Hq. destruct (Hr (State m []) eq_refl) as [_ Hh].
  specialize (Hk (State m []) q Hq). rewrite Hh in Hk. exact Hk.
Qed.

Lemma result_bind {A B} (c : M A) (k : A -> M B)
    (m m' : mem) (a : A) (st : state) :
  runs_to c m a m' -> heap st = m ->
  exists st1, heap st1 = m' /\
    result (c ≫= k) st = result (k a) st1 /\
    final (c ≫= k) st = final (k a) st1 /\
    c st = (Val a, st1).
Proof.
  intros Hc Hst. destruct (Hc st Hst) as [Hr Hh].
  unfold result, final in *. unfold mbind, M_MBind, M_bind.
  destruct (c st) as [r st1]. simpl in *. subst r. exists st1. auto.
Qed.

(** ** [memcpy] *)

Lemma runs_to_memcpy (l : list Z) :
  forall (m : mem) (dst src : pointer),
    cells_at m src l -> allocated m dst (Z.of_nat (length l)) ->
    blk dst <> blk src ->
    exists m', runs_to (memcpy dst src (length l)) m tt m' /\
               cells_at m' dst l.
Proof.
  induction l as [|v l IH]; intros m dst src Hsrc Hdst Hne; simpl.
  - exists m. split; [apply runs_to_ret|apply cells_at_nil].
  - apply cells_at_cons in Hsrc. destruct Hsrc as [Hv Hsrc].
    destruct (store_cell_is_Some m dst v) as [m1 Hm1].
    { rewrite <- (ptr_add_0 dst). apply Hdst. simpl length. lia. }
    destruct (IH m1 (dst .+ 1) (src .+ 1)) as [m' [Hrun Hcells]].
    + eapply cells_at_same; [|exact Hsrc]. intros i Hi.
      eapply load_store_ne; [exact Hm1|].
      rewrite <- (ptr_add_0 dst). apply not_eq_sym, other_block_ne. simpl.
      exact Hne.
    + intros i Hi. rewrite ptr_add_add.
      eapply store_cell_allocated; [exact Hm1|].
      apply Hdst. simpl length. lia.
    + simpl. exact Hne.
    + exists m'. split.
      * eapply runs_to_bind; [apply runs_to_load, Hv|].
        eapply runs_to_bind; [apply runs_to_store, Hm1|exact Hrun].
      * apply cells_at_cons. split; [|exact Hcells].
        rewrite (runs_to_frame (in_range (dst .+ 1) (Z.of_nat (length l)))
                   _ _ _ _ dst Hrun).
        -- eapply load_store_eq, Hm1.
        -- apply memcpy_unchanged. intros i Hi. unfold in_range. simpl.
           split; [reflexivity|lia].
        -- unfold in_range. simpl. lia.
Qed.

(** ** [decode_name] *)

Lemma malformed_labels_nil : ~ malformed_labels [].
Proof. intros H. inversion H. Qed.

Lemma malformed_labels_step (x : Z) (rest : list Z) :
  1 <= x <= DNS_DNAME_LABEL_MAXLEN -> x <= Z.of_nat (length rest) ->
  malformed_labels (x :: rest) <->
  malformed_labels (drop (Z.to_nat x) rest).
Proof.
  intros Hx Hfit. split.
  - intros H. inversion H; subst; [lia|assumption].
  - intros H. apply malformed_later; assumption.
Qed.

Lemma bytes_at_drop (m : mem) (p : pointer) (l : list Z) (n : nat) :
  (n <= length l)%nat -> bytes_at m p l ->
  bytes_at m (p .+ Z.of_nat n) (drop n l).
Proof.
  intros Hn H. rewrite <- (take_drop n l) in H.
  apply bytes_at_app in H. destruct H as [_ H].
  rewrite length_take, Nat.min_l in H by exact Hn. exact H.
Qed.

Lemma bytes_at_store_other (m m' : mem) (p q : pointer) (v : Z) (l : list Z) :
  store_cell m q v = Some m' -> blk q <> blk p ->
  bytes_at m p l -> bytes_at m' p l.
Proof.
  intros Hs Hne. apply bytes_at_same_cells. intros i _.
  eapply load_store_ne; [exact Hs|].
  rewrite <- (ptr_add_0 q). apply not_eq_sym, other_block_ne. exact Hne.
Qed.

(** The first statement of the loop body: the separator, but for the
    first label. *)
Lemma decode_name_dot (first : bool) (out src : pointer) (m : mem)
    (body : list Z) (n : Z) :
  bytes_at m src body -> allocated m out n -> 0 < n -> blk out <> blk src ->
  exists m1,
    runs_to (if first then mret out else store out 46;; mret (out .+ 1))
      m (if first then out else out .+ 1) m1 /\
    bytes_at m1 src body /\ allocated m1 out n /\
    (forall q, q <> out -> load_cell m1 q = load_cell m q) /\
    (first = false -> load_cell m1 out = Some 46).
Proof.
  intros Hsrc Hout Hn Hne. destruct first.
  - exists m. split; [apply runs_to_ret|].
    split; [exact Hsrc|]. split; [exact Hout|].
    split; [reflexivity|discriminate].
  - destruct (store_cell_is_Some m out 46) as [m1 Hm1].
    { rewrite <- (ptr_add_0 out). apply Hout. lia. }
    exists m1. split; [|split; [|split; [|split]]].
    + eapply runs_to_bind; [apply runs_to_store, Hm1|apply runs_to_ret].
    + eapply bytes_at_store_other; [exact Hm1|exact Hne|exact Hsrc].
    + intros i Hi. eapply store_cell_allocated; [exact Hm1|apply Hout, Hi].
    + intros q Hq. eapply load_store_ne; [exact Hm1|exact Hq].
    + intros _. eapply load_store_eq, Hm1.
Qed.

Lemma decode_name_loop_verdict (fuel : nat) :
  forall (body : list Z) (first : bool) (out src : pointer) (m : mem),
    bytes_at m src body -> allocated m out (Z.of_nat (length body)) ->
    blk out <> blk src -> (length body <= fuel)%nat ->
    exists r m',
      runs_to (decode_name_loop fuel first out src (Z.of_nat (length body)))
        m r m' /\
      (r = false <-> malformed_labels body).
Proof.
  assert (Hnil : forall f first out src m,
            exists r m',
              runs_to (decode_name_loop f first out src (Z.of_nat (@length Z [])))
                m r m' /\ (r = false <-> malformed_labels [])).
  { intros f first out src m. exists true, m. split.
    - destruct f; simpl; repeat case_decide; try lia; apply runs_to_ret.
    - split; [discriminate|]. intros H. destruct (malformed_labels_nil H). }
  induction fuel as [|fuel IH]; intros body first out src m Hsrc Hout Hne Hf.
  - destruct body; [apply Hnil|simpl in Hf; lia].
  - destruct body as [|x rest]; [apply Hnil|].
    pose proof (bytes_at_cons _ _ _ _ Hsrc) as [Hx [Hbyte Hrest]].
    unfold is_byte in Hbyte.
    simpl decode_name_loop. simpl length in *.
    destruct (decide (Z.of_nat (S (length rest)) >= 2)) as [Hge|Hge].
    2:{ exists false, m. split.
        - apply runs_to_ret.
        - split; [intros _|reflexivity]. apply malformed_here. lia. }
    destruct (decode_name_dot first out src m (x :: rest)
                (Z.of_nat (S (length rest))) Hsrc Hout ltac:(lia) Hne)
      as [m1 [Hdot [Hsrc1 [Hout1 _]]]].
    pose proof (bytes_at_cons _ _ _ _ Hsrc1) as [Hx1 [_ Hrest1]].
    unfold DNS_DNAME_LABEL_MAXLEN.
    destruct (decide (x < 1)) as [Hlo|Hlo].
    { exists false, m1. split.
      - eapply runs_to_bind; [exact Hdot|].
        eapply runs_to_bind; [apply runs_to_load_uchar, Hx1|].
        case_decide; [apply runs_to_ret|contradiction].
      - split; [intros _|reflexivity]. apply malformed_here. lia. }
    destruct (decide (x > 63)) as [Hhi|Hhi].
    { exists false, m1. split.
      - eapply runs_to_bind; [exact Hdot|].
        eapply runs_to_bind; [apply runs_to_load_uchar, Hx1|].
        case_decide; [contradiction|].
        case_decide; [apply runs_to_ret|contradiction].
      - split; [intros _|reflexivity]. apply malformed_here.
        unfold DNS_DNAME_LABEL_MAXLEN. lia. }
    destruct (decide (x > Z.of_nat (S (length rest)) - 1)) as [Hfit|Hfit].
    { exists false, m1. split.
      - eapply runs_to_bind; [exact Hdot|].
        eapply runs_to_bind; [apply runs_to_load_uchar, Hx1|].
        case_decide; [contradiction|]. case_decide; [contradiction|].
        case_decide; [apply runs_to_ret|contradiction].
      - split; [intros _|reflexivity]. apply malformed_here. lia. }
    destruct (IH (drop (Z.to_nat x) rest) false
                ((if first then out else out .+ 1) .+ x)
                (src .+ 1 .+ x) m1) as [r [m' [Hrun Hiff]]].
    + rewrite <- (Z2Nat.id x) at 1 by lia. apply bytes_at_drop; [lia|].
      exact Hrest1.
    + intros i Hi. rewrite length_drop in Hi.
      destruct first; rewrite ?ptr_add_add; apply Hout1; lia.
    + destruct first; simpl; exact Hne.
    + rewrite length_drop. lia.
    + exists r, m'. split.
      * eapply runs_to_bind; [exact Hdot|].
        eapply runs_to_bind; [apply runs_to_load_uchar, Hx1|].
        case_decide; [contradiction|]. case_decide; [contradiction|].
        case_decide; [contradiction|].
        rewrite length_drop in Hrun.
        replace (Z.of_nat (S (length rest)) - 1 - x)
          with (Z.of_nat (length rest - Z.to_nat x)) by lia.
        exact Hrun.
      * rewrite Hiff. symmetry. apply malformed_labels_step.
        -- unfold DNS_DNAME_LABEL_MAXLEN. lia.
        -- lia.
Qed.

Lemma length_dot_prefixed (ls : list (list Z)) :
  length (dot_prefixed ls) = length (encode_labels ls).
Proof.
  induction ls as [|l ls IH]; simpl; [reflexivity|].
  rewrite !length_app, IH. reflexivity.
Qed.

Lemma decode_name_loop_labels (ls : list (list Z)) :
  forall (fuel : nat) (out src : pointer) (m : mem),
    Forall label_ok ls ->
    bytes_at m src (encode_labels ls) -> cells_at m out (encode_labels ls) ->
    blk out <> blk src -> (length (encode_labels ls) <= fuel)%nat ->
    exists m',
      runs_to (decode_name_loop fuel false out src
                 (Z.of_nat (length (encode_labels ls)))) m true m' /\
      cells_at m' out (dot_prefixed ls).
Proof.
  induction ls as [|l ls IH]; intros fuel out src m Hok Hsrc Hout Hne Hf.
  - exists m. split; [|apply cells_at_nil].
    destruct fuel; simpl; repeat case_decide; try lia; apply runs_to_ret.
  - inversion Hok as [|? ? [Hlen Hbytes] Hok']; subst.
    simpl encode_labels in *. simpl length in *.
    rewrite length_app in *.
    set (n := length l) in *. set (k := length (encode_labels ls)) in *.
    destruct fuel as [|fuel]; [lia|]. simpl decode_name_loop.
    destruct (decide (Z.of_nat (S (n + k)) >= 2)) as [_|Hge]; [|lia].
    destruct (decode_name_dot false out src m _ (Z.of_nat (S (n + k))) Hsrc)
      as [m1 [Hdot [Hsrc1 [_ [Hsame H46]]]]].
    { replace (S (n + k)) with (length (Z.of_nat n :: l ++ encode_labels ls)).
      - apply cells_at_allocated, Hout.
      - simpl. rewrite length_app. reflexivity. }
    { lia. }
    { exact Hne. }
    pose proof (bytes_at_cons _ _ _ _ Hsrc1) as [Hx1 [_ Hrest1]].
    apply bytes_at_app in Hrest1. destruct Hrest1 as [_ Hrest1]. fold n in Hrest1.
    apply cells_at_cons in Hout. destruct Hout as [_ Hout].
    apply cells_at_app in Hout. destruct Hout as [Hl Hout]. fold n in Hout.
    assert (Hkeep : forall i, 0 <= i -> load_cell m1 (out .+ 1 .+ i) =
                                        load_cell m (out .+ 1 .+ i)).
    { intros i Hi. apply Hsame. rewrite ptr_add_add.
      intros E. rewrite <- (ptr_add_0 out) in E at 2.
      apply ptr_add_inj in E. lia. }
    destruct (IH fuel (out .+ 1 .+ Z.of_nat n) (src .+ 1 .+ Z.of_nat n) m1)
      as [m' [Hrun Hcells]].
    + exact Hok'.
    + exact Hrest1.
    + eapply cells_at_same; [|exact Hout]. intros i Hi.
      rewrite !(ptr_add_add (out .+ 1)). apply Hkeep. lia.
    + simpl. exact Hne.
    + fold k. lia.
    + exists m'. split.
      * eapply runs_to_bind; [exact Hdot|].
        eapply runs_to_bind; [apply runs_to_load_uchar, Hx1|].
        unfold DNS_DNAME_LABEL_MAXLEN.
        case_decide; [lia|]. case_decide; [lia|]. case_decide; [lia|].
        fold k in Hrun.
        replace (Z.of_nat (S (n + k)) - 1 - Z.of_nat n) with (Z.of_nat k)
          by lia.
        exact Hrun.
      * assert (Hframe : forall q,
                  ~ in_range (out .+ 1 .+ Z.of_nat n) (Z.of_nat k) q ->
                  load_cell m' q = load_cell m1 q).
        { intros q Hq. eapply runs_to_frame; [exact Hrun| |exact Hq].
          apply decode_name_loop_unchanged. intros i Hi.
          unfold in_range. simpl. split; [reflexivity|]. fold k in Hi. lia. }
        apply cells_at_cons. split.
        -- rewrite Hframe; [apply H46; reflexivity|].
           unfold in_range. simpl. lia.
        -- apply cells_at_app. fold n. split; [|exact Hcells].
           eapply cells_at_same; [|exact Hl]. intros i Hi. fold n in Hi.
           rewrite Hframe; [apply Hkeep; lia|].
           unfold in_range. simpl. lia.
Qed.

Lemma decode_name_root (m : mem) (out src : pointer) (len : Z) :
  len <= DNS_NAME_ENC_MINLEN -> allocated m out 2 ->
  exists m', runs_to (decode_name out src len) m true m' /\
             cells_at m' out [46; 0].
Proof.
  intros Hlen Hout. unfold decode_name. case_decide; [|contradiction].
  destruct (store_cell_is_Some m out 46) as [m1 Hm1].
  { rewrite <- (ptr_add_0 out). apply Hout. lia. }
  destruct (store_cell_is_Some m1 (out .+ 1) 0) as [m2 Hm2].
  { eapply store_cell_allocated; [exact Hm1|]. apply Hout. lia. }
  exists m2. split.
  - eapply runs_to_bind; [apply runs_to_store, Hm1|].
    eapply runs_to_bind; [apply runs_to_store, Hm2|apply runs_to_ret].
  - apply cells_at_cons. split.
    + rewrite (load_store_ne _ _ _ _ _ Hm2).
      * eapply load_store_eq, Hm1.
      * intros E. rewrite <- (ptr_add_0 out) in E at 1.
        apply ptr_add_inj in E. lia.
    + apply cells_at_cons. split; [|apply cells_at_nil].
      eapply load_store_eq, Hm2.
Qed.

(** After the copy, the name buffer holds the input without its first
    byte and the input is as it was. *)
Lemma decode_name_copy (m : mem) (out src : pointer) (x : Z) (tail : list Z) :
  bytes_at m src (x :: tail) -> allocated m out (Z.of_nat (length tail)) ->
  blk out <> blk src -> Z.of_nat (length tail) < 2 ^ 64 ->
  exists m1,
    runs_to (memcpy out (src .+ 1)
               (Z.to_nat (size_wrap (Z.of_nat (length tail))))) m tt m1 /\
    cells_at m1 out tail /\ bytes_at m1 src (x :: tail) /\
    allocated m1 out (Z.of_nat (length tail)).
Proof.
  intros Hsrc Hout Hne Hsmall.
  rewrite size_wrap_small, Nat2Z.id by lia.
  pose proof (bytes_at_cons _ _ _ _ Hsrc) as [_ [_ [Htail _]]].
  destruct (runs_to_memcpy tail m out (src .+ 1) Htail Hout Hne)
    as [m1 [Hrun Hcells]].
  exists m1. split; [exact Hrun|]. split; [exact Hcells|].
  assert (Hframe : forall q, blk q <> blk out -> load_cell m1 q = load_cell m q).
  { intros q Hq. eapply runs_to_frame; [exact Hrun| |].
    - apply (memcpy_unchanged (fun p => blk p = blk out)).
      intros i _. reflexivity.
    - exact Hq. }
  split.
  - eapply bytes_at_same_cells; [|exact Hsrc]. intros i _.
    apply Hframe. simpl. auto.
  - apply cells_at_allocated, Hcells.
Qed.

Lemma decode_name_verdict (m : mem) (out src : pointer) (len : Z)
    (body : list Z) (last : Z) :
  bytes_at m src (body ++ [last]) -> Z.of_nat (length body) = len - 1 ->
  DNS_NAME_ENC_MINLEN < len -> is_ssize len ->
  allocated m out (len - 1) -> blk out <> blk src ->
  exists r m', runs_to (decode_name out src len) m r m' /\
               (r = false <-> malformed_labels body).
Proof.
  unfold DNS_NAME_ENC_MINLEN, is_ssize. intros Hsrc Hbody Hlen Hss Hout Hne.
  destruct (body ++ [last]) as [|x tail] eqn:Ebody.
  { destruct body; discriminate. }
  assert (Htail : Z.of_nat (length tail) = len - 1).
  { apply (f_equal length) in Ebody. rewrite length_app in Ebody.
    simpl in Ebody. lia. }
  destruct (decode_name_copy m out src x tail Hsrc) as [m1 [Hcp [_ [Hsrc1 Hout1]]]].
  { rewrite Htail. exact Hout. }
  { exact Hne. }
  { lia. }
  rewrite <- Ebody in Hsrc1. apply bytes_at_app in Hsrc1.
  destruct Hsrc1 as [Hbody1 _].
  destruct (decode_name_loop_verdict (Z.to_nat (len - 1)) body true out src m1)
    as [r [m' [Hrun Hiff]]].
  - exact Hbody1.
  - rewrite Hbody, <- Htail. exact Hout1.
  - exact Hne.
  - lia.
  - exists r, m'. split; [|exact Hiff].
    unfold decode_name, DNS_NAME_ENC_MINLEN. case_decide; [lia|].
    rewrite <- Htail at 1.
    eapply runs_to_bind; [exact Hcp|].
    rewrite <- Hbody at 2. exact Hrun.
Qed.

Lemma decode_name_labels (m : mem) (out src : pointer) (len : Z)
    (l : list Z) (ls : list (list Z)) :
  Forall label_ok (l :: ls) ->
  bytes_at m src (encode_labels (l :: ls) ++ [0]) ->
  len = Z.of_nat (length (encode_labels (l :: ls))) + 1 -> is_ssize len ->
  allocated m out (len - 1) -> blk out <> blk src ->
  exists m', runs_to (decode_name out src len) m true m' /\
             cells_at m' out (join_dots (l :: ls) ++ [0]).
Proof.
  unfold is_ssize. intros Hok Hsrc -> Hss Hout Hne.
  inversion Hok as [|? ? [Hlen Hbytes] Hok']; subst.
  simpl encode_labels in *. simpl length in *. rewrite length_app in *.
  set (n := length l) in *. set (k := length (encode_labels ls)) in *.
  simpl app in Hsrc.
  assert (Htail : length ((l ++ encode_labels ls) ++ [0]) = (n + k + 1)%nat).
  { rewrite !length_app. simpl. reflexivity. }
  destruct (decode_name_copy m out src _ _ Hsrc) as [m1 [Hcp [Hout1 [Hsrc1 _]]]].
  { rewrite Htail. eapply (fun H => H). intros i Hi. apply Hout. lia. }
  { exact Hne. }
  { lia. }
  pose proof (bytes_at_cons _ _ _ _ Hsrc1) as [Hx1 [_ Hrest1]].
  rewrite <- app_assoc in Hrest1, Hout1.
  apply bytes_at_app in Hrest1. destruct Hrest1 as [_ Hrest1]. fold n in Hrest1.
  apply bytes_at_app in Hrest1. destruct Hrest1 as [Henc1 _].
  apply cells_at_app in Hout1. destruct Hout1 as [Hl1 Hout1]. fold n in Hout1.
  apply cells_at_app in Hout1. destruct Hout1 as [Henc_out Hzero]. fold k in Hzero.
  destruct (decode_name_loop_labels ls (n + k)
              (out .+ Z.of_nat n) (src .+ 1 .+ Z.of_nat n) m1)
    as [m' [Hrun Hcells]]; try assumption.
  { fold k. lia. }
  assert (Hframe : forall q, ~ in_range (out .+ Z.of_nat n) (Z.of_nat k) q ->
                             load_cell m' q = load_cell m1 q).
  { intros q Hq. eapply runs_to_frame; [exact Hrun| |exact Hq].
    apply decode_name_loop_unchanged. intros i Hi.
    unfold in_range. simpl. split; [reflexivity|]. fold k in Hi. lia. }
  exists m'. split.
  - unfold decode_name, DNS_NAME_ENC_MINLEN. case_decide; [lia|].
    replace (Z.of_nat (S (n + k)) + 1 - 1)
      with (Z.of_nat (length ((l ++ encode_labels ls) ++ [0]))) at 1
      by (rewrite Htail; lia).
    eapply runs_to_bind; [exact Hcp|].
    replace (Z.to_nat (Z.of_nat (S (n + k)) + 1 - 1)) with (S (n + k)) by lia.
    simpl decode_name_loop.
    destruct (decide (Z.of_nat (S (n + k)) + 1 - 1 >= 2)) as [_|Hge]; [|lia].
    eapply runs_to_bind; [apply runs_to_ret|].
    eapply runs_to_bind; [apply runs_to_load_uchar, Hx1|].
    unfold DNS_DNAME_LABEL_MAXLEN.
    case_decide; [lia|]. case_decide; [lia|]. case_decide; [lia|].
    fold k in Hrun.
    replace (Z.of_nat (S (n + k)) + 1 - 1 - 1 - Z.of_nat n) with (Z.of_nat k)
      by lia.
    exact Hrun.
  - simpl join_dots. rewrite <- app_assoc.
    apply cells_at_app. fold n. split.
    + eapply cells_at_same; [|exact Hl1]. intros i Hi. fold n in Hi.
      apply Hframe. unfold in_range. simpl. lia.
    + apply cells_at_app. split; [exact Hcells|].
      rewrite length_dot_prefixed. fold k.
      eapply cells_at_same; [|exact Hzero]. intros i Hi. simpl in Hi.
      apply Hframe. unfold in_range. simpl. lia.
Qed.

(** ** [memchr] *)

Lemma runs_to_memchr (l : list Z) :
  forall (m : mem) (s : pointer) (c : Z),
    bytes_at m s l ->
    runs_to (memchr s c (length l)) m
      ((fun x => s .+ Z.of_nat (fst x)) <$> list_find (fun b => b = c) l) m.
Proof.
  induction l as [|x l IH]; intros m s c Hl; simpl.
  - apply runs_to_ret.
  - apply bytes_at_cons in Hl. destruct Hl as [Hx [_ Hl]].
    eapply runs_to_bind; [apply runs_to_load_uchar, Hx|].
    case_decide.
    + simpl. rewrite ptr_add_0. apply runs_to_ret.
    + specialize (IH m (s .+ 1) c Hl).
      destruct (list_find (fun b => b = c) l) as [[i y]|]; simpl in *.
      * rewrite ptr_add_add in IH.
        replace (Z.of_nat (S i)) with (1 + Z.of_nat i) by lia. exact IH.
      * exact IH.
Qed.

(** What a successful search tells about the heap it ran on. *)
Lemma memchr_found (n : nat) :
  forall (s p : pointer) (c : Z) (st st' : state),
    memchr s c n st = (Val (Some p), st') ->
    exists d, p = s .+ d /\ 0 <= d < Z.of_nat n /\
      peek8 (heap st) (s .+ d) = Some c /\
      (forall j, 0 <= j < d -> peek8 (heap st) (s .+ j) <> Some c) /\
      heap st' = heap st.
Proof.
  induction n as [|n IH]; intros s p c st st' H; simpl in H.
  - discriminate.
  - apply bind_Val_inv in H. destruct H as [v [st1 [Hv H]]].
    assert (Hh : heap st1 = heap st).
    { apply (keeps_run same_heap _ _ _ _ (load_uchar_same_heap s) Hv). }
    assert (Hpeek : peek8 (heap st) s = Some v).
    { unfold load_uchar in Hv. apply bind_Val_inv in Hv.
      destruct Hv as [w [st0 [Hw Hv]]]. injection Hv as <- _.
      unfold load in Hw. unfold peek8.
      destruct (load_cell (heap st) s); [|discriminate].
      injection Hw as <- _. reflexivity. }
    case_decide.
    + injection H as <- <-. exists 0. rewrite ptr_add_0.
      split; [reflexivity|]. split; [lia|]. split; [congruence|].
      split; [intros j Hj; lia|exact Hh].
    + apply IH in H. destruct H as [d [-> [Hd [Hc [Hbefore Hh']]]]].
      exists (1 + d). rewrite ptr_add_add in *. rewrite Hh in *.
      split; [reflexivity|]. split; [lia|]. split; [exact Hc|].
      split; [|exact Hh'].
      intros j Hj. destruct (decide (j = 0)) as [->|Hj0].
      * rewrite ptr_add_0, Hpeek. congruence.
      * specialize (Hbefore (j - 1) ltac:(lia)).
        rewrite ptr_add_add in Hbefore.
        replace (1 + (j - 1)) with j in Hbefore by lia. exact Hbefore.
Qed.

(** ** What a finished run of the validator tells *)

Lemma load_uchar_inv (p : pointer) (st st' : state) (v : Z) :
  load_uchar p st = (Val v, st') ->
  peek8 (heap st) p = Some v /\ heap st' = heap st.
Proof.
  intros H. split.
  - unfold load_uchar in H. apply bind_Val_inv in H.
    destruct H as [w [st0 [Hw H]]]. injection H as <- _.
    unfold load in Hw. unfold peek8.
    destruct (load_cell (heap st) p); [|discriminate].
    injection Hw as <- _. reflexivity.
  - apply (keeps_run same_heap _ _ _ _ (load_uchar_same_heap p) H).
Qed.

Lemma ntohs_inv (p : pointer) (st st' : state) (v : Z) :
  ntohs p st = (Val v, st') ->
  peek16 (heap st) p = Some v /\ heap st' = heap st.
Proof.
  intros H. split.
  - unfold ntohs in H. apply bind_Val_inv in H.
    destruct H as [hi [st1 [Hhi H]]]. apply bind_Val_inv in H.
    destruct H as [lo [st2 [Hlo H]]]. injection H as <- _.
    apply load_uchar_inv in Hhi, Hlo. destruct Hhi as [Hhi Hh1].
    destruct Hlo as [Hlo _]. rewrite Hh1 in Hlo.
    unfold peek16. rewrite Hhi, Hlo. reflexivity.
  - apply (keeps_run same_heap _ _ _ _ (ntohs_same_heap p) H).
Qed.

Section DnsValidator.

Variable DNS_PACKET_MINSIZE : Z.
Variable DNS_PACKET_MAXSIZE : Z.
Variable DNS_NAME_ENC_MAXLEN : Z.

Hypothesis minsize_covers_header : sizeof_dns_header_t <= DNS_PACKET_MINSIZE.

(** Either the validator gave up before it had decoded the name, and
    then nothing but the name buffer can have changed; or it has
    delimited and decoded the name, has stored its encoded length
    [namelen], and its verdict is the one of the question record. *)
Lemma check_packet_inv (is_query : bool) (packet_buf : pointer)
    (packet_len : Z) (name_buf p_namelen : option pointer)
    (st st' : state) (r : bool) :
  check_packet DNS_PACKET_MINSIZE DNS_PACKET_MAXSIZE DNS_NAME_ENC_MAXLEN
    is_query packet_buf packet_len name_buf p_namelen st = (Val r, st') ->
  is_ssize packet_len ->
  (r = false /\
   unchanged_outside
     (check_packet_writes DNS_NAME_ENC_MAXLEN name_buf None) st st') \/
  (exists namelen,
     DNS_NAME_ENC_MINLEN <= namelen <= DNS_NAME_ENC_MAXLEN /\
     sizeof_dns_header_t + namelen <= packet_len /\
     DNS_PACKET_MINSIZE <= packet_len <= DNS_PACKET_MAXSIZE /\
     peek8 (heap st) (packet_buf .+ (sizeof_dns_header_t + namelen - 1))
       = Some 0 /\
     (forall j, 0 <= j < namelen - 1 ->
        peek8 (heap st) (packet_buf .+ (sizeof_dns_header_t + j)) <> Some 0) /\
     (forall slot, p_namelen = Some slot ->
        load_cell (heap st') slot = Some namelen) /\
     (r = true <->
      sizeof_dns_query_t <= packet_len - sizeof_dns_header_t - namelen /\
      peek16 (heap st')
        (packet_buf .+ (sizeof_dns_header_t + namelen + off_qclass))
        = Some DNS_CLASS_INTERNET)).
Proof.
  unfold is_ssize. intros H Hss.
  pose proof minsize_covers_header as Hmin.
  unfold check_packet in H.
  assert (Hearly : forall s, same_heap st s ->
            unchanged_outside
              (check_packet_writes DNS_NAME_ENC_MAXLEN name_buf None) st s).
  { intros s Hs. apply same_heap_unchanged, Hs. }
  unfold sizeof_dns_header_t, sizeof_dns_query_t, off_qclass,
    DNS_NAME_ENC_MINLEN, DNS_CLASS_INTERNET in *.
  case_decide.
  { injection H as <- <-. left. split; [reflexivity|]. apply Hearly. reflexivity. }
  case_decide.
  { injection H as <- <-. left. split; [reflexivity|]. apply Hearly. reflexivity. }
  apply bind_Val_inv in H. destruct H as [qr [st1 [Hqr H]]].
  pose proof (keeps_run same_heap _ _ _ _ (header_qr_same_heap _) Hqr) as Hh1.
  case_decide.
  { injection H as <- <-. left. split; [reflexivity|]. apply Hearly, Hh1. }
  apply bind_Val_inv in H. destruct H as [opcode [st2 [Hop H]]].
  pose proof (keeps_run same_heap _ _ _ _ (header_opcode_same_heap _) Hop) as Hh2.
  assert (Hh02 : same_heap st st2) by (etransitivity; eassumption).
  case_decide.
  { injection H as <- <-. left. split; [reflexivity|]. apply Hearly, Hh02. }
  apply bind_Val_inv in H. destruct H as [qc [st3 [Hqc H]]].
  apply ntohs_inv in Hqc. destruct Hqc as [_ Hh3].
  assert (Hh03 : same_heap st st3).
  { unfold same_heap in *. congruence. }
  case_decide.
  { injection H as <- <-. left. split; [reflexivity|]. apply Hearly, Hh03. }
  rewrite (ssize_wrap_small (packet_len - 12)) in H by lia.
  rewrite (size_wrap_small (packet_len - 12)) in H by lia.
  apply bind_Val_inv in H. destruct H as [found [st4 [Hfound H]]].
  destruct found as [p|].
  2:{ injection H as <- <-. left. split; [reflexivity|]. apply Hearly.
      etransitivity; [exact Hh03|].
      apply (keeps_run same_heap _ _ _ _ (memchr_same_heap _ _ _) Hfound). }
  apply memchr_found in Hfound.
  destruct Hfound as [d [-> [Hd [Hzero [Hbefore Hh4]]]]].
  assert (Hh04 : same_heap st st4).
  { unfold same_heap in *. congruence. }
  simpl in H.
  replace (ofs packet_buf + 12 + d + 1 - (ofs packet_buf + 12)) with (d + 1)
    in H by lia.
  rewrite (size_wrap_small (d + 1)) in H by lia.
  case_decide.
  { injection H as <- <-. left. split; [reflexivity|]. apply Hearly, Hh04. }
  case_decide.
  { injection H as <- <-. left. split; [reflexivity|]. apply Hearly, Hh04. }
  apply bind_Val_inv in H. destruct H as [decoded [st5 [Hdec H]]].
  assert (Hw5 : unchanged_outside
                  (check_packet_writes DNS_NAME_ENC_MAXLEN name_buf None)
                  st st5).
  { etransitivity; [apply Hearly, Hh04|].
    destruct name_buf as [out|].
    - pose proof (keeps_run _ _ _ _ _ (decode_name_unchanged _ _ _) Hdec) as Hk.
      revert Hk. apply unchanged_outside_mono.
      intros q [Hb Ho]. left. exists out. split; [reflexivity|].
      split; [exact Hb|]. rewrite ssize_wrap_small in Ho by lia. lia.
    - injection Hdec as _ <-. reflexivity. }
  destruct decoded; simpl in H.
  2:{ injection H as <- <-. left. split; [reflexivity|exact Hw5]. }
  apply bind_Val_inv in H. destruct H as [[] [st6 [Hstore H]]].
  rewrite (ssize_wrap_small (packet_len - 12 - (d + 1))) in H by lia.
  right. exists (d + 1).
  unfold same_heap in Hh03, Hh04. rewrite Hh3 in Hzero, Hbefore.
  rewrite ptr_add_add in Hzero.
  replace (12 + (d + 1) - 1) with (12 + d) by lia.
  split; [lia|]. split; [lia|]. split; [lia|]. split; [congruence|].
  split.
  { intros j Hj. specialize (Hbefore j ltac:(lia)).
    rewrite ptr_add_add in Hbefore. congruence. }
  assert (Hslot : forall slot, p_namelen = Some slot ->
                    load_cell (heap st6) slot = Some (d + 1)).
  { intros slot ->. unfold store in Hstore.
    destruct (store_cell (heap st5) slot (d + 1)) as [m6|] eqn:Em6;
      [|discriminate].
    injection Hstore as <-. simpl. eapply load_store_eq, Em6. }
  case_decide.
  { injection H as <- <-. split; [exact Hslot|].
    split; [discriminate|]. intros [Hfit _]. lia. }
  apply bind_Val_inv in H. destruct H as [qclass [st7 [Hqclass H]]].
  apply ntohs_inv in Hqclass. destruct Hqclass as [Hqclass Hh7].
  rewrite !ptr_add_add in Hqclass.
  replace (12 + (d + 1 + 2)) with (12 + (d + 1) + 2) in Hqclass by lia.
  case_decide; injection H as <- <-; rewrite Hh7;
    (split; [exact Hslot|]).
  - split; [discriminate|]. intros [_ Hc]. congruence.
  - split; [intros _|reflexivity]. split; [lia|].
    rewrite Hqclass. f_equal.
    destruct (decide (qclass = 1)); [assumption|contradiction].
Qed.

End DnsValidator.

(** ** Rejections by the validator *)

Lemma result_bind_eq {A B} (c : M A) (k : A -> M B) (m m' : mem) (a : A)
    (st : state) (r : res B) :
  runs_to c m a m' -> heap st = m ->
  (forall st1, heap st1 = m' -> result (k a) st1 = r) ->
  result (c ≫= k) st = r.
Proof.
  intros Hc Hst Hk.
  destruct (result_bind c k m m' a st Hc Hst) as [st1 [Hh [-> _]]].
  apply Hk, Hh.
Qed.

Lemma runs_to_header_qr (m : mem) (header : pointer) (b : Z) :
  peek8 m (header .+ off_flags) = Some b ->
  runs_to (header_qr header) m (flags_qr b) m.
Proof.
  intros H. unfold header_qr.
  eapply runs_to_bind; [apply runs_to_load_uchar, H|apply runs_to_ret].
Qed.

Lemma runs_to_header_opcode (m : mem) (header : pointer) (b : Z) :
  peek8 m (header .+ off_flags) = Some b ->
  runs_to (header_opcode header) m (flags_opcode b) m.
Proof.
  intros H. unfold header_opcode.
  eapply runs_to_bind; [apply runs_to_load_uchar, H|apply runs_to_ret].
Qed.

(** The query/response bit is the top bit of the first flag byte. *)
Lemma flags_qr_testbit (b : Z) :
  flags_qr b = if Z.testbit b 7 then 1 else 0.
Proof.
  unfold flags_qr. change 1 with (Z.ones 1) at 1.
  rewrite Z.land_ones by lia. change (2 ^ 1) with 2.
  rewrite <- Z.bit0_mod, Z.shiftr_spec by lia. simpl.
  destruct (Z.testbit b 7); reflexivity.
Qed.

Lemma bytes_at_peek16 (m : mem) (p : pointer) (l : list Z) (i : nat)
    (hi lo : Z) :
  bytes_at m p l -> l !! i = Some hi -> l !! S i = Some lo ->
  peek16 m (p .+ Z.of_nat i) = Some (256 * hi + lo).
Proof.
  intros Hl Hhi Hlo. unfold peek16.
  rewrite (bytes_at_peek8 _ _ _ _ _ Hl Hhi).
  rewrite ptr_add_add. replace (Z.of_nat i + 1) with (Z.of_nat (S i)) by lia.
  rewrite (bytes_at_peek8 _ _ _ _ _ Hl Hlo). reflexivity.
Qed.

Lemma bytes_at_take (m : mem) (p : pointer) (l : list Z) (n : nat) :
  bytes_at m p l -> bytes_at m p (take n l).
Proof.
  intros H. rewrite <- (take_drop n l) in H.
  apply bytes_at_app in H. apply H.
Qed.

(** ** The scan of the answers *)

Lemma bind_result_Val {A B} (c : M A) (k : A -> M B) (st : state) (a : A) :
  result c st = Val a -> (c ≫= k) st = k a (final c st).
Proof.
  unfold result, final, mbind, M_MBind, M_bind.
  destruct (c st) as [r st1]. simpl. intros ->. reflexivity.
Qed.

Lemma ntohs_result (p : pointer) (st : state) (v : Z) :
  peek16 (heap st) p = Some v -> result (ntohs p) st = Val v.
Proof. intros H. eapply runs_to_result; [apply runs_to_ntohs, H|reflexivity]. Qed.

Lemma ntohs_final_heap (p : pointer) (st : state) :
  heap (final (ntohs p) st) = heap st.
Proof. apply ntohs_same_heap. Qed.

Lemma skip_name_final_heap (ptr : pointer) (len : Z) (st : state) :
  heap (final (skip_name ptr len) st) = heap st.
Proof. apply skip_name_same_heap. Qed.

Lemma load_untouched (p : pointer) : keeps ipset_untouched (load p).
Proof.
  intros st. exists [EvRead p]. unfold final, load.
  destruct (load_cell (heap st) p); simpl; (split; [reflexivity|]);
    repeat constructor; simpl; auto.
Qed.

Lemma load_uchar_untouched (p : pointer) : keeps ipset_untouched (load_uchar p).
Proof.
  unfold load_uchar. kbind; [apply load_untouched|]. intros v. kret.
Qed.

Lemma ntohs_untouched (p : pointer) : keeps ipset_untouched (ntohs p).
Proof.
  unfold ntohs. kbind; [apply load_uchar_untouched|]. intros hi.
  kbind; [apply load_uchar_untouched|]. intros lo. kret.
Qed.

Lemma skip_name_untouched (ptr : pointer) (len : Z) :
  keeps ipset_untouched (skip_name ptr len).
Proof.
  unfold skip_name. kbind.
  - generalize (Z.to_nat len) as fuel. intros fuel. revert ptr len.
    induction fuel as [|fuel IH]; intros ptr len; simpl.
    + case_decide; [kfuel|kret].
    + case_decide; [|kret].
      kbind; [apply load_uchar_untouched|]. intros label_len.
      repeat (case_decide; [kret|]). apply IH.
  - intros [[ptr' len']|]; [|kret]. case_decide; kret.
Qed.

Lemma skip_name_loop_wire (rname : list Z) :
  wire_name rname ->
  forall (fuel : nat) (m : mem) (ptr : pointer) (len : Z),
    bytes_at m ptr rname -> Z.of_nat (length rname) <= len ->
    (Z.to_nat len <= fuel)%nat ->
    runs_to (skip_name_loop fuel ptr len) m
      (Some (ptr .+ Z.of_nat (length rname), len - Z.of_nat (length rname)))
      m.
Proof.
  unfold DNS_DNAME_COMPRESSION_MINVAL.
  induction 1 as [|c x Hc Hx|l rest [Hl Hbytes] Hrest IH];
    intros fuel m ptr len Hat Hlen Hfuel; simpl length in *.
  - destruct fuel as [|fuel]; [lia|]. simpl.
    case_decide; [|lia].
    apply bytes_at_cons in Hat. destruct Hat as [Hb _].
    eapply runs_to_bind; [apply runs_to_load_uchar, Hb|].
    case_decide; [|lia]. apply runs_to_ret.
  - destruct fuel as [|fuel]; [lia|]. simpl.
    case_decide; [|lia].
    apply bytes_at_cons in Hat. destruct Hat as [Hb _].
    eapply runs_to_bind; [apply runs_to_load_uchar, Hb|].
    unfold DNS_DNAME_COMPRESSION_MINVAL in *.
    case_decide; [lia|]. case_decide; [|lia]. apply runs_to_ret.
  - rewrite length_app in *.
    destruct fuel as [|fuel]; [lia|]. simpl.
    case_decide; [|lia].
    apply bytes_at_cons in Hat. destruct Hat as [Hb [_ Hat]].
    apply bytes_at_app in Hat. destruct Hat as [_ Hat].
    eapply runs_to_bind; [apply runs_to_load_uchar, Hb|].
    unfold DNS_DNAME_COMPRESSION_MINVAL, DNS_DNAME_LABEL_MAXLEN.
    case_decide; [lia|]. case_decide; [lia|]. case_decide; [lia|].
    rewrite ptr_add_add in Hat.
    specialize (IH fuel m (ptr .+ (1 + Z.of_nat (length l)))
                  (len - (1 + Z.of_nat (length l))) Hat ltac:(lia) ltac:(lia)).
    rewrite ptr_add_add in IH.
    replace (Z.of_nat (S (length l + length rest)))
      with (1 + Z.of_nat (length l) + Z.of_nat (length rest)) by lia.
    replace (len - (1 + Z.of_nat (length l) + Z.of_nat (length rest)))
      with (len - (1 + Z.of_nat (length l)) - Z.of_nat (length rest)) by lia.
    exact IH.
Qed.

(** A name in wire form is skipped whole, provided the fixed fields of
    a record fit behind it. *)
Lemma skip_name_wire (rname : list Z) (m : mem) (ptr : pointer) (len : Z) :
  wire_name rname -> bytes_at m ptr rname ->
  Z.of_nat (length rname) + sizeof_dns_record_t <= len ->
  runs_to (skip_name ptr len) m
    (Some (ptr .+ Z.of_nat (length rname), len - Z.of_nat (length rname))) m.
Proof.
  unfold sizeof_dns_record_t. intros Hname Hat Hlen. unfold skip_name.
  eapply runs_to_bind.
  - apply skip_name_loop_wire; [exact Hname|exact Hat|lia|lia].
  - simpl. unfold sizeof_dns_record_t. case_decide; [lia|]. apply runs_to_ret.
Qed.

Section Scan.

Variable ipset_addr_is_exists : list Z -> bool -> bool.

(** A record that fails the class check or does not fit. *)
Lemma chnip_record_bad (ptr : pointer) (len : Z) (st : state)
    (record : pointer) (len' rclass rdatalen : Z) :
  result (skip_name ptr len) st = Val (Some (record, len')) ->
  peek16 (heap st) (record .+ off_rclass) = Some rclass ->
  peek16 (heap st) (record .+ off_rdatalen) = Some rdatalen ->
  rclass <> DNS_CLASS_INTERNET \/ len' < sizeof_dns_record_t + rdatalen ->
  result (chnip_record ipset_addr_is_exists ptr len) st
    = Val (Verdict DNS_IPCHK_BAD_PACKET).
Proof.
  intros Hskip Hclass Hlen Hbad. unfold chnip_record, result.
  rewrite (bind_result_Val _ _ _ _ Hskip).
  rewrite <- (skip_name_final_heap ptr len st) in Hclass, Hlen.
  rewrite (bind_result_Val _ _ _ _ (ntohs_result _ _ _ Hclass)).
  case_decide; [reflexivity|].
  rewrite <- (ntohs_final_heap (record .+ off_rclass)) in Hlen.
  rewrite (bind_result_Val _ _ _ _ (ntohs_result _ _ _ Hlen)).
  case_decide; [reflexivity|]. destruct Hbad; contradiction.
Qed.

(** A record of type A or AAAA that has passed the class and length
    checks. *)
Lemma chnip_record_address (ptr : pointer) (len : Z) (st : state)
    (record : pointer) (len' rdatalen rtype : Z) (is_ipv4 : bool) :
  result (skip_name ptr len) st = Val (Some (record, len')) ->
  peek16 (heap st) (record .+ off_rclass) = Some DNS_CLASS_INTERNET ->
  peek16 (heap st) (record .+ off_rdatalen) = Some rdatalen ->
  sizeof_dns_record_t + rdatalen <= len' ->
  peek16 (heap st) (record .+ off_rtype) = Some rtype ->
  rtype = (if is_ipv4 then DNS_RECORD_TYPE_A else DNS_RECORD_TYPE_AAAA) ->
  exists st1, heap st1 = heap st /\
    chnip_record ipset_addr_is_exists ptr len st =
    (if decide (rdatalen <>
                (if is_ipv4 then IPV4_BINADDR_LEN else IPV6_BINADDR_LEN))
     then mret (Verdict DNS_IPCHK_BAD_PACKET)
     else found ← ipset_query ipset_addr_is_exists
                    (record .+ off_rdata) is_ipv4;
          mret (Verdict (if found : bool then DNS_IPCHK_IS_CHNIP
                         else DNS_IPCHK_NOT_CHNIP))) st1.
Proof.
  intros Hskip Hclass Hlen Hfit Htype Hrtype. unfold chnip_record.
  rewrite (bind_result_Val _ _ _ _ Hskip).
  pose proof (skip_name_final_heap ptr len st) as Hh1.
  set (st1 := final (skip_name ptr len) st) in *.
  rewrite <- Hh1 in Hclass, Hlen, Htype.
  rewrite (bind_result_Val _ _ _ _ (ntohs_result _ _ _ Hclass)).
  pose proof (ntohs_final_heap (record .+ off_rclass) st1) as Hh2.
  set (st2 := final (ntohs (record .+ off_rclass)) st1) in *.
  case_decide; [contradiction|].
  rewrite <- Hh2 in Hlen, Htype.
  rewrite (bind_result_Val _ _ _ _ (ntohs_result _ _ _ Hlen)).
  pose proof (ntohs_final_heap (record .+ off_rdatalen) st2) as Hh3.
  set (st3 := final (ntohs (record .+ off_rdatalen)) st2) in *.
  case_decide; [lia|].
  rewrite <- Hh3 in Htype.
  rewrite (bind_result_Val _ _ _ _ (ntohs_result _ _ _ Htype)).
  pose proof (ntohs_final_heap (record .+ off_rtype) st3) as Hh4.
  eexists. split; [rewrite Hh4, Hh3, Hh2, Hh1; reflexivity|].
  unfold DNS_RECORD_TYPE_A, DNS_RECORD_TYPE_AAAA in *.
  destruct is_ipv4; subst rtype.
  - case_decide; [|contradiction]. reflexivity.
  - case_decide; [discriminate|]. case_decide; [|contradiction]. reflexivity.
Qed.

(** A record of another type that has passed the class and length
    checks is stepped over, and the membership set is not consulted. *)
Lemma chnip_record_other (ptr : pointer) (len : Z) (st : state)
    (record : pointer) (len' rdatalen rtype : Z) :
  result (skip_name ptr len) st = Val (Some (record, len')) ->
  peek16 (heap st) (record .+ off_rclass) = Some DNS_CLASS_INTERNET ->
  peek16 (heap st) (record .+ off_rdatalen) = Some rdatalen ->
  sizeof_dns_record_t + rdatalen <= len' ->
  peek16 (heap st) (record .+ off_rtype) = Some rtype ->
  rtype <> DNS_RECORD_TYPE_A -> rtype <> DNS_RECORD_TYPE_AAAA ->
  result (chnip_record ipset_addr_is_exists ptr len) st =
    Val (Next (record .+ (sizeof_dns_record_t + rdatalen))
           (len' - (sizeof_dns_record_t + rdatalen))) /\
  ipset_untouched st (final (chnip_record ipset_addr_is_exists ptr len) st).
Proof.
  intros Hskip Hclass Hlen Hfit Htype HnA HnAAAA.
  unfold chnip_record, result, final.
  rewrite (bind_result_Val _ _ _ _ Hskip).
  pose proof (skip_name_final_heap ptr len st) as Hh1.
  pose proof (skip_name_untouched ptr len st) as Hu1.
  set (st1 := final (skip_name ptr len) st) in *.
  rewrite <- Hh1 in Hclass, Hlen, Htype.
  rewrite (bind_result_Val _ _ _ _ (ntohs_result _ _ _ Hclass)).
  pose proof (ntohs_final_heap (record .+ off_rclass) st1) as Hh2.
  pose proof (ntohs_untouched (record .+ off_rclass) st1) as Hu2.
  set (st2 := final (ntohs (record .+ off_rclass)) st1) in *.
  case_decide; [contradiction|].
  rewrite <- Hh2 in Hlen, Htype.
  rewrite (bind_result_Val _ _ _ _ (ntohs_result _ _ _ Hlen)).
  pose proof (ntohs_final_heap (record .+ off_rdatalen) st2) as Hh3.
  pose proof (ntohs_untouched (record .+ off_rdatalen) st2) as Hu3.
  set (st3 := final (ntohs (record .+ off_rdatalen)) st2) in *.
  case_decide; [lia|].
  rewrite <- Hh3 in Htype.
  rewrite (bind_result_Val _ _ _ _ (ntohs_result _ _ _ Htype)).
  pose proof (ntohs_untouched (record .+ off_rtype) st3) as Hu4.
  case_decide; [contradiction|]. case_decide; [contradiction|].
  split; [reflexivity|]. simpl.
  etransitivity; [exact Hu1|]. etransitivity; [exact Hu2|].
  etransitivity; [exact Hu3|exact Hu4].
Qed.

Lemma runs_to_ipset_query (m : mem) (rdata : pointer) (addr : list Z)
    (is_ipv4 : bool) :
  bytes_at m rdata addr ->
  Z.of_nat (length addr)
    = (if is_ipv4 then IPV4_BINADDR_LEN else IPV6_BINADDR_LEN) ->
  runs_to (ipset_query ipset_addr_is_exists rdata is_ipv4) m
    (ipset_addr_is_exists addr is_ipv4) m.
Proof.
  intros Hat Hlen. unfold ipset_query. rewrite <- Hlen, Nat2Z.id.
  eapply runs_to_bind; [apply runs_to_load_bytes, Hat|].
  eapply runs_to_bind; [apply runs_to_log|apply runs_to_ret].
Qed.

Lemma chnip_loop_not_found (m : mem) (n : nat) (ptr : pointer) (len : Z) :
  skippable_records m n ptr len ->
  runs_to (chnip_loop ipset_addr_is_exists n ptr len) m
    DNS_IPCHK_NOT_FOUND m.
Proof.
  induction 1 as [ptr len|n ptr len record len' rtype rdatalen
                    Hskip Hclass Hlen Hfit Htype HnA HnAAAA _ IH]; simpl.
  - apply runs_to_ret.
  - apply (runs_to_bind _ _ m m m
             (Next (record .+ (sizeof_dns_record_t + rdatalen))
                (len' - (sizeof_dns_record_t + rdatalen)))); [|exact IH].
    intros st Hst. subst m. split.
    + eapply chnip_record_other; try eassumption.
      eapply runs_to_result; [exact Hskip|reflexivity].
    + apply chnip_record_same_heap.
Qed.

End Scan.

(** ** The fuel of the loops is enough *)

Lemma terminates_ret {A} (a : A) : terminates (mret a).
Proof. intros st. discriminate. Qed.

Lemma terminates_bind {A B} (c : M A) (k : A -> M B) :
  terminates c -> (forall a, terminates (k a)) -> terminates (c ≫= k).
Proof.
  intros Hc Hk st. specialize (Hc st).
  unfold result, mbind, M_MBind, M_bind in *.
  destruct (c st) as [[a| |] st1]; simpl in *;
    [apply Hk|discriminate|contradiction].
Qed.

Lemma terminates_load (p : pointer) : terminates (load p).
Proof.
  intros st. unfold result, load.
  destruct (load_cell (heap st) p); discriminate.
Qed.

Lemma terminates_store (p : pointer) (v : Z) : terminates (store p v).
Proof.
  intros st. unfold result, store.
  destruct (store_cell (heap st) p v); discriminate.
Qed.

Lemma terminates_load_uchar (p : pointer) : terminates (load_uchar p).
Proof.
  unfold load_uchar. apply terminates_bind; [apply terminates_load|].
  intros v. apply terminates_ret.
Qed.

Lemma terminates_ntohs (p : pointer) : terminates (ntohs p).
Proof.
  unfold ntohs. apply terminates_bind; [apply terminates_load_uchar|].
  intros hi. apply terminates_bind; [apply terminates_load_uchar|].
  intros lo. apply terminates_ret.
Qed.

Lemma terminates_load_bytes (n : nat) (p : pointer) :
  terminates (load_bytes p n).
Proof.
  revert p. induction n as [|n IH]; intros p; simpl; [apply terminates_ret|].
  apply terminates_bind; [apply terminates_load_uchar|]. intros v.
  apply terminates_bind; [apply IH|]. intros vs. apply terminates_ret.
Qed.

Lemma terminates_memcpy (n : nat) (dst src : pointer) :
  terminates (memcpy dst src n).
Proof.
  revert dst src. induction n as [|n IH]; intros dst src; simpl;
    [apply terminates_ret|].
  apply terminates_bind; [apply terminates_load|]. intros v.
  apply terminates_bind; [apply terminates_store|]. intros _. apply IH.
Qed.

Lemma terminates_memchr (n : nat) (s : pointer) (c : Z) :
  terminates (memchr s c n).
Proof.
  revert s. induction n as [|n IH]; intros s; simpl; [apply terminates_ret|].
  apply terminates_bind; [apply terminates_load_uchar|]. intros v.
  case_decide; [apply terminates_ret|apply IH].
Qed.

Lemma terminates_decode_name_loop (fuel : nat) :
  forall (first : bool) (out src : pointer) (len : Z),
    (Z.to_nat len <= fuel)%nat ->
    terminates (decode_name_loop fuel first out src len).
Proof.
  induction fuel as [|fuel IH]; intros first out src len Hf; simpl.
  - case_decide; [lia|]. case_decide; apply terminates_ret.
  - case_decide; [|case_decide; apply terminates_ret].
    apply terminates_bind.
    { destruct first; [apply terminates_ret|].
      apply terminates_bind; [apply terminates_store|].
      intros _. apply terminates_ret. }
    intros out'. apply terminates_bind; [apply terminates_load_uchar|].
    intros label_len.
    repeat (case_decide; [apply terminates_ret|]).
    apply IH. lia.
Qed.

Lemma terminates_decode_name (out src : pointer) (len : Z) :
  terminates (decode_name out src len).
Proof.
  unfold decode_name. case_decide.
  - apply terminates_bind; [apply terminates_store|]. intros _.
    apply terminates_bind; [apply terminates_store|]. intros _.
    apply terminates_ret.
  - apply terminates_bind; [apply terminates_memcpy|]. intros _.
    apply terminates_decode_name_loop. lia.
Qed.

Lemma terminates_skip_name (ptr : pointer) (len : Z) :
  terminates (skip_name ptr len).
Proof. intros st. apply skip_name_total. Qed.

Lemma terminates_check_packet (MINSIZE MAXSIZE ENC_MAXLEN : Z)
    (is_query : bool) (packet_buf : pointer) (packet_len : Z)
    (name_buf p_namelen : option pointer) :
  terminates (check_packet MINSIZE MAXSIZE ENC_MAXLEN is_query
                packet_buf packet_len name_buf p_namelen).
Proof.
  unfold check_packet, header_qr, header_opcode.
  repeat first
    [ apply terminates_ret
    | apply terminates_load_uchar
    | apply terminates_ntohs
    | apply terminates_memchr
    | apply terminates_decode_name
    | apply terminates_store
    | apply terminates_bind; [|intros ?]
    | case_decide
    | match goal with
      | |- terminates (match ?x with _ => _ end) => destruct x
      | |- terminates (if ?x then _ else _) => destruct x
      end ].
Qed.

Lemma terminates_dns_chnip_check (f : list Z -> bool -> bool)
    (packet_buf : pointer) (packet_len namelen : Z) :
  terminates (dns_chnip_check f packet_buf packet_len namelen).
Proof.
  assert (Hrecord : forall p l, terminates (chnip_record f p l)).
  { intros p l. unfold chnip_record, ipset_query, log.
    repeat first
      [ apply terminates_ret
      | apply terminates_ntohs
      | apply terminates_skip_name
      | apply terminates_load_bytes
      | apply terminates_bind; [|intros ?]
      | case_decide
      | match goal with
        | |- terminates (match ?x with _ => _ end) => destruct x
        | |- terminates (fun st => _) => intros st; discriminate
        end ]. }
  unfold dns_chnip_check.
  apply terminates_bind; [apply terminates_ntohs|]. intros answer_count.
  generalize (packet_buf .+
              size_wrap (sizeof_dns_header_t + namelen + sizeof_dns_query_t)).
  generalize (ssize_wrap
                (packet_len -
                 size_wrap (sizeof_dns_header_t + namelen + sizeof_dns_query_t))).
  induction (Z.to_nat answer_count) as [|n IH]; intros l p; simpl.
  - apply terminates_ret.
  - apply terminates_bind; [apply Hrecord|].
    intros [verdict|p' l']; [apply terminates_ret|apply IH].
Qed.

(** ** The validator, check after check *)

Lemma ends_with_ret {A} (a : A) (m : mem) (Q : A -> mem -> Prop) :
  Q a m -> ends_with (mret a) m Q.
Proof. intros H. exists a, m. split; [apply runs_to_ret|exact H]. Qed.

Lemma ends_with_bind {A B} (c : M A) (k : A -> M B) (m m1 : mem) (a : A)
    (Q : B -> mem -> Prop) :
  runs_to c m a m1 -> ends_with (k a) m1 Q -> ends_with (c ≫= k) m Q.
Proof.
  intros Hc [b [m2 [Hk HQ]]]. exists b, m2.
  split; [eapply runs_to_bind; eassumption|exact HQ].
Qed.

(** Labels behind their length bytes are not malformed. *)
Lemma encode_labels_well_formed (ls : list (list Z)) :
  Forall label_ok ls -> ~ malformed_labels (encode_labels ls).
Proof.
  induction 1 as [|l ls [Hlen _] _ IH]; simpl.
  - apply malformed_labels_nil.
  - intros Hbad. unfold DNS_DNAME_LABEL_MAXLEN in *.
    inversion Hbad as [x rest Hhere|x rest Hrange Hfit Hlater]; subst.
    + rewrite length_app in Hhere. unfold DNS_DNAME_LABEL_MAXLEN in *. lia.
    + rewrite Nat2Z.id, drop_app_length in Hlater. exact (IH Hlater).
Qed.

Section Outcome.

Variable DNS_PACKET_MINSIZE : Z.
Variable DNS_PACKET_MAXSIZE : Z.
Variable DNS_NAME_ENC_MAXLEN : Z.

Hypothesis minsize_covers_header : sizeof_dns_header_t <= DNS_PACKET_MINSIZE.

(** On a packet that can be read, with a name buffer and a slot, if
    given, that exist apart from the packet and from each other, the
    validator goes one of two ways.  Either the packet passes every check
    up to the decoding of the name: then the encoded length is stored in
    the slot, and the verdict is that of the checks of the question
    record.  Or it does not: then the verdict is [false] and the slot is
    as it was. *)
Lemma check_packet_outcome (is_query : bool) (packet_buf : pointer)
    (name_buf p_namelen : option pointer) (m : mem) (pkt : list Z) :
  is_ssize (Z.of_nat (length pkt)) ->
  bytes_at m packet_buf pkt ->
  (forall out, name_buf = Some out ->
     allocated m out (Z.max 2 (DNS_NAME_ENC_MAXLEN - 1)) /\
     blk out <> blk packet_buf) ->
  (forall slot, p_namelen = Some slot ->
     is_Some (load_cell m slot) /\ blk slot <> blk packet_buf /\
     forall out, name_buf = Some out -> blk slot <> blk out) ->
  ends_with
    (check_packet DNS_PACKET_MINSIZE DNS_PACKET_MAXSIZE DNS_NAME_ENC_MAXLEN
       is_query packet_buf (Z.of_nat (length pkt)) name_buf p_namelen) m
    (fun accepted m' =>
       (exists i,
          name_passes DNS_PACKET_MINSIZE DNS_PACKET_MAXSIZE
            DNS_NAME_ENC_MAXLEN is_query name_buf pkt i /\
          (forall slot, p_namelen = Some slot ->
             load_cell m' slot = Some (Z.of_nat i + 1)) /\
          (accepted = true <-> question_passes pkt i)) \/
       ((forall i,
           ~ name_passes DNS_PACKET_MINSIZE DNS_PACKET_MAXSIZE
               DNS_NAME_ENC_MAXLEN is_query name_buf pkt i) /\
        accepted = false /\
        (forall slot, p_namelen = Some slot ->
           load_cell m' slot = load_cell m slot))).
Proof.
  intros Hss Hpkt Hbuf Hslot.
  pose proof minsize_covers_header as Hmin.
  assert (Hbyte : forall i b, pkt !! i = Some b -> 0 <= b < 256).
  { intros i b Hi. exact (Forall_lookup_1 _ _ _ _ (proj2 Hpkt) Hi). }
  unfold is_ssize in Hss. unfold check_packet.
  match goal with |- ends_with _ _ ?q => set (Q := q) end.
  assert (Hearly : (forall i,
                      ~ name_passes DNS_PACKET_MINSIZE DNS_PACKET_MAXSIZE
                          DNS_NAME_ENC_MAXLEN is_query name_buf pkt i) ->
                   Q false m).
  { intros Hno. right. split; [exact Hno|]. split; reflexivity. }
  unfold sizeof_dns_header_t, sizeof_dns_query_t, off_question_count,
    off_flags, off_qclass, DNS_NAME_ENC_MINLEN in *.
  case_decide as Hlo.
  { apply ends_with_ret, Hearly. intros i [[Hb _] _]. lia. }
  case_decide as Hhi.
  { apply ends_with_ret, Hearly. intros i [[Hb _] _]. lia. }
  destruct (lookup_lt_is_Some_2 pkt 2) as [flags Hflags]; [lia|].
  destruct (lookup_lt_is_Some_2 pkt 4) as [hi Hhi4]; [lia|].
  destruct (lookup_lt_is_Some_2 pkt 5) as [lo Hlo5]; [lia|].
  pose proof (bytes_at_peek8 _ _ _ _ _ Hpkt Hflags) as Hpeek.
  pose proof (bytes_at_peek16 _ _ _ _ _ _ Hpkt Hhi4 Hlo5) as Hqc.
  eapply ends_with_bind; [apply runs_to_header_qr, Hpeek|].
  rewrite flags_qr_testbit. unfold DNS_QR_QUERY, DNS_QR_REPLY.
  case_decide as Hqr.
  { apply ends_with_ret, Hearly. intros i [[_ [[f [Hf [Hbit _]]] _]] _].
    rewrite Hflags in Hf. injection Hf as <-. apply Hqr. rewrite Hbit.
    destruct is_query; simpl; lia. }
  eapply ends_with_bind; [apply runs_to_header_opcode, Hpeek|].
  case_decide as Hop.
  { apply ends_with_ret, Hearly. intros i [[_ [[f [Hf [_ Hopc]]] _]] _].
    rewrite Hflags in Hf. injection Hf as <-. exact (Hop Hopc). }
  eapply ends_with_bind; [apply runs_to_ntohs, Hqc|].
  case_decide as Hcount.
  { apply ends_with_ret, Hearly. intros i [[_ [_ [H4 H5]]] _].
    rewrite Hhi4 in H4. rewrite Hlo5 in H5.
    injection H4 as ->. injection H5 as ->. apply Hcount. reflexivity. }
  assert (Hheader : header_passes DNS_PACKET_MINSIZE DNS_PACKET_MAXSIZE
                      is_query pkt).
  { split; [lia|]. split.
    - exists flags. split; [exact Hflags|]. split.
      + revert Hqr. destruct (Z.testbit flags 7), is_query; simpl;
          intros Hqr; try reflexivity; lia.
      + exact Hop.
    - pose proof (Hbyte _ _ Hhi4). pose proof (Hbyte _ _ Hlo5).
      assert (hi = 0 /\ lo = 1) as [-> ->] by lia.
      split; assumption. }
  rewrite (ssize_wrap_small (Z.of_nat (length pkt) - 12)) by lia.
  rewrite (size_wrap_small (Z.of_nat (length pkt) - 12)) by lia.
  assert (Hafter : bytes_at m (packet_buf .+ 12) (drop 12 pkt)).
  { apply (bytes_at_drop _ _ _ 12); [lia|exact Hpkt]. }
  replace (Z.to_nat (Z.of_nat (length pkt) - 12))
    with (length (drop 12 pkt)) by (rewrite length_drop; lia).
  eapply ends_with_bind; [apply runs_to_memchr, Hafter|].
  destruct (list_find (fun b => b = 0) (drop 12 pkt)) as [[i z]|] eqn:Efind;
    simpl fmap; cbv beta iota.
  2:{ apply ends_with_ret, Hearly. intros i [_ [Hf _]].
      rewrite Efind in Hf. discriminate. }
  pose proof Efind as Hfound. apply list_find_Some in Hfound.
  destruct Hfound as [Hi [-> _]].
  assert (Hqn : question_name pkt = take i (drop 12 pkt)).
  { unfold question_name, sizeof_dns_header_t.
    change (Z.to_nat 12) with 12%nat. rewrite Efind. reflexivity. }
  assert (Hilt : (i < length (drop 12 pkt))%nat)
    by (eapply lookup_lt_Some, Hi).
  rewrite length_drop in Hilt.
  simpl fst.
  change (ofs (packet_buf .+ 12 .+ Z.of_nat i))
    with (ofs packet_buf + 12 + Z.of_nat i).
  change (ofs (packet_buf .+ 12)) with (ofs packet_buf + 12).
  replace (ofs packet_buf + 12 + Z.of_nat i + 1 - (ofs packet_buf + 12))
    with (Z.of_nat i + 1) by lia.
  rewrite (size_wrap_small (Z.of_nat i + 1)) by lia.
  case_decide as Hn1; [lia|].
  case_decide as Hn2.
  { apply ends_with_ret, Hearly. intros j [_ [Hf [Hle _]]].
    rewrite Efind in Hf. injection Hf as <-. lia. }
  rewrite (ssize_wrap_small (Z.of_nat i + 1)) by lia.
  assert (Hbody : bytes_at m (packet_buf .+ 12)
                    (take i (drop 12 pkt) ++ [0])).
  { rewrite <- (take_S_r _ _ _ Hi). apply bytes_at_take, Hafter. }
  assert (Hdec : exists r m1,
            runs_to (match name_buf with
                     | Some out =>
                         decode_name out (packet_buf .+ 12) (Z.of_nat i + 1)
                     | None => mret true
                     end) m r m1 /\
            (forall q, (forall out, name_buf = Some out -> blk q <> blk out) ->
               load_cell m1 q = load_cell m q) /\
            (r = false <->
             name_buf <> None /\ malformed_labels (question_name pkt))).
  { rewrite Hqn. destruct name_buf as [out|].
    - destruct (Hbuf out eq_refl) as [Hout Hne].
      assert (Hframe : forall r m1,
                runs_to (decode_name out (packet_buf .+ 12) (Z.of_nat i + 1))
                  m r m1 ->
                forall q, (forall out', Some out = Some out' ->
                             blk q <> blk out') ->
                          load_cell m1 q = load_cell m q).
      { intros r m1 Hrun q Hq.
        eapply runs_to_frame; [exact Hrun|apply decode_name_unchanged|].
        intros [Hb _]. exact (Hq out eq_refl Hb). }
      destruct (decide (i = 0%nat)) as [->|Hpos].
      + destruct (decode_name_root m out (packet_buf .+ 12)
                    (Z.of_nat 0 + 1)) as [m1 [Hrun _]];
          [unfold DNS_NAME_ENC_MINLEN; lia|intros j Hj; apply Hout; lia|].
        exists true, m1. split; [exact Hrun|].
        split; [exact (Hframe _ _ Hrun)|].
        split; [discriminate|]. intros [_ Hbad]. simpl in Hbad.
        destruct (malformed_labels_nil Hbad).
      + destruct (decode_name_verdict m out (packet_buf .+ 12)
                    (Z.of_nat i + 1) (take i (drop 12 pkt)) 0 Hbody)
          as [r [m1 [Hrun Hiff]]].
        * rewrite length_take, length_drop. lia.
        * unfold DNS_NAME_ENC_MINLEN. lia.
        * unfold is_ssize. lia.
        * intros j Hj. apply Hout. lia.
        * simpl. exact Hne.
        * exists r, m1. split; [exact Hrun|].
          split; [exact (Hframe _ _ Hrun)|]. split.
          -- intros E. split; [discriminate|apply Hiff, E].
          -- intros [_ Hbad]. apply Hiff, Hbad.
    - exists true, m. split; [apply runs_to_ret|].
      split; [reflexivity|]. split; [discriminate|].
      intros [Hn _]. destruct Hn. reflexivity. }
  destruct Hdec as [r [m1 [Hrun [Hframe Hr]]]].
  eapply ends_with_bind; [exact Hrun|].
  destruct r; simpl negb; cbv iota.
  2:{ apply ends_with_ret. right. split; [|split; [reflexivity|]].
      - intros j [_ [_ [_ Hwf]]]. destruct Hr as [Hr _].
        destruct (Hr eq_refl) as [Hsome Hbad]. exact (Hwf Hsome Hbad).
      - intros slot E. destruct (Hslot slot E) as [_ [_ Hso]].
        apply Hframe. intros out Eo. apply Hso, Eo. }
  assert (Hname : name_passes DNS_PACKET_MINSIZE DNS_PACKET_MAXSIZE
                    DNS_NAME_ENC_MAXLEN is_query name_buf pkt i).
  { split; [exact Hheader|]. split; [exact Efind|]. split; [lia|].
    intros Hsome Hbad. destruct Hr as [_ Hr].
    discriminate (Hr (conj Hsome Hbad)). }
  assert (Hst : exists m2,
            runs_to (match p_namelen with
                     | Some slot => store slot (Z.of_nat i + 1)
                     | None => mret tt
                     end) m1 tt m2 /\
            (forall slot, p_namelen = Some slot ->
               load_cell m2 slot = Some (Z.of_nat i + 1)) /\
            (forall q, blk q = blk packet_buf ->
               load_cell m2 q = load_cell m q)).
  { assert (Hframe1 : forall q, blk q = blk packet_buf ->
                        load_cell m1 q = load_cell m q).
    { intros q Hq. apply Hframe. intros out Eo.
      destruct (Hbuf out Eo) as [_ Hne]. congruence. }
    destruct p_namelen as [slot|].
    - destruct (Hslot slot eq_refl) as [Hal [Hsp Hso]].
      destruct (store_cell_is_Some m1 slot (Z.of_nat i + 1)) as [m2 Hm2].
      { rewrite Hframe; [exact Hal|]. intros out Eo. apply Hso, Eo. }
      exists m2. split; [apply runs_to_store, Hm2|]. split.
      + intros s [= <-]. eapply load_store_eq, Hm2.
      + intros q Hq. rewrite (load_store_ne _ _ _ _ _ Hm2).
        * apply Hframe1, Hq.
        * intros ->. exact (Hsp Hq).
    - exists m1. split; [apply runs_to_ret|]. split; [discriminate|].
      exact Hframe1. }
  destruct Hst as [m2 [Hstore [Hstored Hframe2]]].
  eapply ends_with_bind; [exact Hstore|].
  rewrite (ssize_wrap_small (Z.of_nat (length pkt) - 12 - (Z.of_nat i + 1)))
    by lia.
  case_decide as Hq4.
  { apply ends_with_ret. left. exists i. split; [exact Hname|].
    split; [exact Hstored|]. split; [discriminate|]. intros [Hfit _]. lia. }
  destruct (lookup_lt_is_Some_2 pkt (12 + i + 1 + 2)) as [chi Hchi]; [lia|].
  destruct (lookup_lt_is_Some_2 pkt (12 + i + 1 + 3)) as [clo Hclo]; [lia|].
  assert (Hpkt2 : bytes_at m2 packet_buf pkt).
  { eapply bytes_at_same_cells; [|exact Hpkt]. intros j _.
    apply Hframe2. reflexivity. }
  assert (Hclo' : pkt !! S (12 + i + 1 + 2) = Some clo).
  { replace (S (12 + i + 1 + 2)) with (12 + i + 1 + 3)%nat by lia.
    exact Hclo. }
  eapply ends_with_bind.
  { apply runs_to_ntohs. rewrite !ptr_add_add.
    replace (12 + (Z.of_nat i + 1 + 2))
      with (Z.of_nat (12 + i + 1 + 2)) by lia.
    apply (bytes_at_peek16 _ _ _ _ _ _ Hpkt2 Hchi Hclo'). }
  pose proof (Hbyte _ _ Hchi) as Hbchi. pose proof (Hbyte _ _ Hclo) as Hbclo.
  unfold DNS_CLASS_INTERNET.
  case_decide as Hcl; apply ends_with_ret; left; exists i;
    (split; [exact Hname|]); (split; [exact Hstored|]).
  - split; [discriminate|]. intros [_ [H1 H2]].
    rewrite Hchi in H1. rewrite Hclo in H2.
    injection H1 as ->. injection H2 as ->. exfalso. apply Hcl. reflexivity.
  - split; [intros _|reflexivity].
    assert (chi = 0 /\ clo = 1) as [-> ->] by lia.
    split; [lia|]. split; assumption.
Qed.

End Outcome.

(** * The claims *)

(** C3.  [decode_name] on an input of declared length [len], with an
    output buffer that does not overlap the input: at or below the
    minimum length it writes [.] and a NUL and succeeds; on labels of 1 to
    63 bytes behind their length bytes and a final zero byte, [len] being
    the length of the whole, it succeeds and writes the labels joined by
    dots, in order, and a NUL; above the minimum length it returns
    [false] exactly when the bytes before the last one do not split into
    labels (a length byte that is 0 or above 63, a label that overruns
    what remains, which is also how a left-over byte shows); and in every
    case it reads inside the [len] bytes of the input only. *)
Theorem decode_name_correct (m : mem) (out src : pointer) (len : Z) :
  is_ssize len -> blk out <> blk src ->
  (len <= DNS_NAME_ENC_MINLEN -> allocated m out 2 ->
   exists m', runs_to (decode_name out src len) m true m' /\
              cells_at m' out [46; 0]) /\
  (forall l ls,
     Forall label_ok (l :: ls) ->
     bytes_at m src (encode_labels (l :: ls) ++ [0]) ->
     len = Z.of_nat (length (encode_labels (l :: ls))) + 1 ->
     allocated m out (len - 1) ->
     exists m', runs_to (decode_name out src len) m true m' /\
                cells_at m' out (join_dots (l :: ls) ++ [0])) /\
  (forall body last,
     DNS_NAME_ENC_MINLEN < len ->
     bytes_at m src (body ++ [last]) -> Z.of_nat (length body) = len - 1 ->
     allocated m out (len - 1) ->
     exists r m', runs_to (decode_name out src len) m r m' /\
                  (r = false <-> malformed_labels body)) /\
  (forall st,
     reads_only (in_range src len) st (final (decode_name out src len) st)).
Proof.
  intros Hss Hne. split; [|split; [|split]].
  - intros Hlen Hout. apply decode_name_root; assumption.
  - intros l ls Hok Hsrc Hlen Hout. apply decode_name_labels; assumption.
  - intros body last Hlen Hsrc Hbody Hout.
    eapply decode_name_verdict; eassumption.
  - intros st. apply decode_name_reads.
Qed.

(** C4.  [skip_name] reads the length byte [b] under the cursor while
    bytes remain: a zero byte ends the name after one byte, a byte with
    both top bits set ends it after two bytes (the pointer is not
    followed), a byte [b] between 1 and 63 is skipped together with its
    [b] label bytes and the loop goes on from there, and a byte between
    64 and 191 makes the function return [false].  Once the loop has
    stopped the function returns [false] exactly when fewer than
    [sizeof (dns_record_t)] bytes remain, and otherwise returns the moved
    cursor and the reduced length. *)
Theorem skip_name_cases (st : state) (ptr : pointer) (len : Z) :
  (len <= 0 -> result (skip_name ptr len) st = Val None) /\
  (forall b, peek8 (heap st) ptr = Some b -> 0 < len ->
     (b = 0 ->
      result (skip_name ptr len) st =
      Val (if decide (len - 1 < sizeof_dns_record_t) then None
           else Some (ptr .+ 1, len - 1))) /\
     (Z.land b 192 = 192 ->
      result (skip_name ptr len) st =
      Val (if decide (len - 2 < sizeof_dns_record_t) then None
           else Some (ptr .+ 2, len - 2))) /\
     (1 <= b <= 63 ->
      result (skip_name ptr len) st =
      result (skip_name (ptr .+ (1 + b)) (len - (1 + b))) st) /\
     (64 <= b <= 191 -> result (skip_name ptr len) st = Val None)).
Proof.
  split.
  - intros Hlen. eapply runs_to_result; [apply skip_name_stops, Hlen|].
    reflexivity.
  - intros b Hb Hlen. pose proof (peek8_byte _ _ _ Hb) as Hbyte.
    repeat split.
    + intros ->. eapply runs_to_result; [|reflexivity].
      eapply skip_name_ends; [exact Hb|exact Hlen|left; split; reflexivity].
    + intros Htop. apply top_bits_set in Htop; [|exact Hbyte].
      eapply runs_to_result; [|reflexivity].
      eapply skip_name_ends; [exact Hb|exact Hlen|right; split; trivial].
    + intros Hcase. apply skip_name_label; assumption.
    + intros Hcase. eapply runs_to_result; [|reflexivity].
      eapply skip_name_rejects; [exact Hb|exact Hlen|].
      unfold DNS_DNAME_LABEL_MAXLEN, DNS_DNAME_COMPRESSION_MINVAL. lia.
Qed.

Section DnsTheorems.

Variable DNS_PACKET_MINSIZE : Z.
Variable DNS_PACKET_MAXSIZE : Z.
Variable DNS_NAME_ENC_MAXLEN : Z.
Variable ipset_addr_is_exists : list Z -> bool -> bool.

(** The smallest packet the validator lets through holds a header. *)
Hypothesis minsize_covers_header : sizeof_dns_header_t <= DNS_PACKET_MINSIZE.

(** The reply validator has accepted the packet and reported [namelen]. *)
Lemma accepted_reply_layout (packet_buf : pointer) (packet_len : Z)
    (name_buf : option pointer) (slot : pointer) (namelen : Z)
    (st st' : state) :
  is_ssize packet_len ->
  dns_reply_check DNS_PACKET_MINSIZE DNS_PACKET_MAXSIZE DNS_NAME_ENC_MAXLEN
    packet_buf packet_len name_buf (Some slot) st = (Val true, st') ->
  load_cell (heap st') slot = Some namelen ->
  DNS_NAME_ENC_MINLEN <= namelen /\
  sizeof_dns_header_t + namelen + sizeof_dns_query_t <= packet_len.
Proof.
  intros Hss Hrun Hslot.
  destruct (check_packet_inv _ _ _ minsize_covers_header _ _ _ _ _ _ _ _
              Hrun Hss) as [[Hfalse _]|[n [Hn [_ [_ [_ [_ [Hstored Hiff]]]]]]]].
  - discriminate.
  - rewrite (Hstored slot eq_refl) in Hslot. injection Hslot as <-.
    destruct Hiff as [Hiff _]. destruct (Hiff eq_refl) as [Hfit _].
    split; lia.
Qed.

(** C1.  No operation reads out of bounds.  The validator reads inside
    the first [packet_len] bytes of the packet only, [decode_name] inside
    the [len] bytes of the name only, [skip_name] inside the remaining
    length it is given only; and once the reply validator has accepted a
    packet and reported the encoded length [namelen] of its name,
    [dns_chnip_check] run with that length, [skip_name] included, reads
    inside the first [packet_len] bytes of the packet only, whatever the
    memory holds by then. *)
Theorem reads_stay_in_bounds :
  (forall is_query packet_buf packet_len name_buf p_namelen st,
     is_ssize packet_len ->
     reads_only (in_range packet_buf packet_len) st
       (final (check_packet DNS_PACKET_MINSIZE DNS_PACKET_MAXSIZE
                 DNS_NAME_ENC_MAXLEN is_query packet_buf packet_len
                 name_buf p_namelen) st)) /\
  (forall out src len st,
     reads_only (in_range src len) st (final (decode_name out src len) st)) /\
  (forall ptr len st,
     reads_only (in_range ptr len) st (final (skip_name ptr len) st)) /\
  (forall packet_buf packet_len name_buf slot namelen st st' st'',
     is_ssize packet_len ->
     dns_reply_check DNS_PACKET_MINSIZE DNS_PACKET_MAXSIZE DNS_NAME_ENC_MAXLEN
       packet_buf packet_len name_buf (Some slot) st = (Val true, st') ->
     load_cell (heap st') slot = Some namelen ->
     reads_only (in_range packet_buf packet_len) st''
       (final (dns_chnip_check ipset_addr_is_exists
                 packet_buf packet_len namelen) st'')).
Proof.
  split; [|split; [|split]].
  - intros is_query packet_buf packet_len name_buf p_namelen st Hss.
    apply check_packet_reads; assumption.
  - intros out src len st. apply decode_name_reads.
  - intros ptr len st. apply skip_name_reads.
    intros i Hi. unfold in_range. simpl. split; [reflexivity|lia].
  - intros packet_buf packet_len name_buf slot namelen st st' st''
      Hss Hrun Hslot.
    destruct (accepted_reply_layout _ _ _ _ _ _ _ Hss Hrun Hslot) as [Hn Hfit].
    unfold DNS_NAME_ENC_MINLEN in Hn.
    apply dns_chnip_check_reads; [exact Hss|lia|exact Hfit].
Qed.

(** C10.  The packet is only read.  All that [check_packet] may change is
    the name buffer, of at most [DNS_NAME_ENC_MAXLEN - 1] bytes (two for
    the root name), and the slot of the encoded length, so a packet that
    overlaps neither is the same after the call; all that [decode_name]
    may change is the output buffer; [skip_name] and [dns_chnip_check]
    change nothing. *)
Theorem packet_is_read_only :
  (forall is_query packet_buf packet_len name_buf p_namelen st,
     unchanged_outside
       (check_packet_writes DNS_NAME_ENC_MAXLEN name_buf p_namelen) st
       (final (check_packet DNS_PACKET_MINSIZE DNS_PACKET_MAXSIZE
                 DNS_NAME_ENC_MAXLEN is_query packet_buf packet_len
                 name_buf p_namelen) st)) /\
  (forall is_query packet_buf packet_len name_buf p_namelen st pkt,
     (forall q, in_range packet_buf packet_len q ->
        ~ check_packet_writes DNS_NAME_ENC_MAXLEN name_buf p_namelen q) ->
     Z.of_nat (length pkt) = packet_len ->
     cells_at (heap st) packet_buf pkt ->
     cells_at
       (heap (final (check_packet DNS_PACKET_MINSIZE DNS_PACKET_MAXSIZE
                       DNS_NAME_ENC_MAXLEN is_query packet_buf packet_len
                       name_buf p_namelen) st))
       packet_buf pkt) /\
  (forall out src len st,
     unchanged_outside (in_range out (Z.max 2 (len - 1))) st
       (final (decode_name out src len) st)) /\
  (forall ptr len st, heap (final (skip_name ptr len) st) = heap st) /\
  (forall packet_buf packet_len namelen st,
     heap (final (dns_chnip_check ipset_addr_is_exists
                    packet_buf packet_len namelen) st) = heap st).
Proof.
  split; [|split; [|split; [|split]]].
  - intros. apply check_packet_unchanged.
  - intros is_query packet_buf packet_len name_buf p_namelen st pkt
      Hdisjoint Hlen Hpkt.
    eapply cells_at_same; [|exact Hpkt]. intros i Hi.
    apply (check_packet_unchanged DNS_PACKET_MINSIZE DNS_PACKET_MAXSIZE
             DNS_NAME_ENC_MAXLEN is_query packet_buf packet_len
             name_buf p_namelen st).
    apply Hdisjoint. unfold in_range. simpl. split; [reflexivity|lia].
  - intros. apply decode_name_unchanged.
  - intros. apply skip_name_same_heap.
  - intros. apply dns_chnip_check_same_heap.
Qed.

(** C8.  The validator returns [false] when the length is below the
    minimum or above the maximum, whatever the memory holds; and, the
    first flag byte being [flags], when the response bit is set in a
    query or clear in a reply, when the opcode is not the one of a
    standard query, or when the question count is not 1, whatever the
    rest of the packet holds. *)
Theorem check_packet_rejects_header
    (is_query : bool) (packet_buf : pointer) (packet_len : Z)
    (name_buf p_namelen : option pointer) (st : state) :
  (packet_len < DNS_PACKET_MINSIZE \/ packet_len > DNS_PACKET_MAXSIZE ->
   result (check_packet DNS_PACKET_MINSIZE DNS_PACKET_MAXSIZE
             DNS_NAME_ENC_MAXLEN is_query packet_buf packet_len
             name_buf p_namelen) st = Val false) /\
  (forall flags,
     peek8 (heap st) (packet_buf .+ off_flags) = Some flags ->
     (Z.testbit flags 7 = is_query ->
      result (check_packet DNS_PACKET_MINSIZE DNS_PACKET_MAXSIZE
                DNS_NAME_ENC_MAXLEN is_query packet_buf packet_len
                name_buf p_namelen) st = Val false) /\
     (flags_opcode flags <> DNS_OPCODE_QUERY ->
      result (check_packet DNS_PACKET_MINSIZE DNS_PACKET_MAXSIZE
                DNS_NAME_ENC_MAXLEN is_query packet_buf packet_len
                name_buf p_namelen) st = Val false) /\
     (forall question_count,
        peek16 (heap st) (packet_buf .+ off_question_count)
          = Some question_count ->
        question_count <> 1 ->
        result (check_packet DNS_PACKET_MINSIZE DNS_PACKET_MAXSIZE
                  DNS_NAME_ENC_MAXLEN is_query packet_buf packet_len
                  name_buf p_namelen) st = Val false)).
Proof.
  split.
  - intros Hlen. unfold check_packet.
    case_decide; [reflexivity|]. case_decide; [reflexivity|]. lia.
  - intros flags Hflags. split; [|split].
    + intros Hqr. unfold check_packet.
      case_decide; [reflexivity|]. case_decide; [reflexivity|].
      eapply result_bind_eq;
        [apply runs_to_header_qr, Hflags|reflexivity|]. intros st1 Hst1.
      rewrite flags_qr_testbit, Hqr. unfold DNS_QR_QUERY, DNS_QR_REPLY.
      destruct is_query; (case_decide; [reflexivity|lia]).
    + intros Hop. unfold check_packet.
      case_decide; [reflexivity|]. case_decide; [reflexivity|].
      eapply result_bind_eq;
        [apply runs_to_header_qr, Hflags|reflexivity|]. intros st1 Hst1.
      case_decide; [reflexivity|].
      eapply result_bind_eq;
        [apply runs_to_header_opcode, Hflags|exact Hst1|]. intros st2 Hst2.
      case_decide; [reflexivity|contradiction].
    + intros question_count Hqc Hne. unfold check_packet.
      case_decide; [reflexivity|]. case_decide; [reflexivity|].
      eapply result_bind_eq;
        [apply runs_to_header_qr, Hflags|reflexivity|]. intros st1 Hst1.
      case_decide; [reflexivity|].
      eapply result_bind_eq;
        [apply runs_to_header_opcode, Hflags|exact Hst1|]. intros st2 Hst2.
      case_decide; [reflexivity|].
      eapply result_bind_eq; [apply runs_to_ntohs, Hqc|exact Hst2|].
      intros st3 Hst3.
      case_decide; [reflexivity|contradiction].
Qed.

(** C2, as amended.  When the caller supplies a name buffer (large enough
    for a name of [DNS_NAME_ENC_MAXLEN] bytes and apart from the packet),
    the validator returns [false] on every packet whose question name has
    a length byte that is 0 before the terminating zero, is above 63, or
    is larger than the number of bytes that remain before the
    terminating zero.  When the caller supplies no name buffer the labels
    are not examined: on every packet that can be read (the slot of the
    encoded length, if one is given, existing apart from the packet) the
    validator returns [true] exactly when the length and the header pass
    their checks, a zero byte is found behind the header, the encoded
    length it gives is not above the ceiling, and the question record
    behind it fits and is of class Internet, whatever the bytes before
    the zero byte are; otherwise it returns [false]. *)
Theorem check_packet_rejects_malformed_name
    (is_query : bool) (packet_buf : pointer) (packet_len : Z)
    (p_namelen : option pointer) (st : state) (pkt : list Z) :
  is_ssize packet_len ->
  bytes_at (heap st) packet_buf pkt -> Z.of_nat (length pkt) = packet_len ->
  (forall out,
     allocated (heap st) out (DNS_NAME_ENC_MAXLEN - 1) ->
     blk out <> blk packet_buf ->
     malformed_labels (question_name pkt) ->
     result (check_packet DNS_PACKET_MINSIZE DNS_PACKET_MAXSIZE
               DNS_NAME_ENC_MAXLEN is_query packet_buf packet_len
               (Some out) p_namelen) st = Val false) /\
  ((forall slot, p_namelen = Some slot ->
      is_Some (load_cell (heap st) slot) /\ blk slot <> blk packet_buf) ->
   exists accepted,
     result (check_packet DNS_PACKET_MINSIZE DNS_PACKET_MAXSIZE
               DNS_NAME_ENC_MAXLEN is_query packet_buf packet_len
               None p_namelen) st = Val accepted /\
     (accepted = true <->
      header_passes DNS_PACKET_MINSIZE DNS_PACKET_MAXSIZE is_query pkt /\
      exists i,
        list_find (fun b => b = 0) (drop 12 pkt) = Some (i, 0) /\
        Z.of_nat i + 1 <= DNS_NAME_ENC_MAXLEN /\
        question_passes pkt i)).
Proof.
  intros Hss Hpkt Hlen. split.
  { intros out Hout Hne Hbad. unfold is_ssize in Hss.
    pose proof minsize_covers_header as Hmin.
    unfold check_packet. unfold question_name in Hbad.
    unfold sizeof_dns_header_t, sizeof_dns_query_t, off_question_count,
      off_flags, DNS_NAME_ENC_MINLEN in *.
    change (Z.to_nat 12) with 12%nat in Hbad.
    case_decide; [reflexivity|]. case_decide; [reflexivity|].
    destruct (lookup_lt_is_Some_2 pkt 2) as [flags Hflags]; [lia|].
    destruct (lookup_lt_is_Some_2 pkt 4) as [hi Hhi]; [lia|].
    destruct (lookup_lt_is_Some_2 pkt 5) as [lo Hlo]; [lia|].
    pose proof (bytes_at_peek8 _ _ _ _ _ Hpkt Hflags) as Hpeek.
    pose proof (bytes_at_peek16 _ _ _ _ _ _ Hpkt Hhi Hlo) as Hqc.
    eapply result_bind_eq; [apply runs_to_header_qr, Hpeek|reflexivity|].
    intros st1 Hst1. case_decide; [reflexivity|].
    eapply result_bind_eq; [apply runs_to_header_opcode, Hpeek|exact Hst1|].
    intros st2 Hst2. case_decide; [reflexivity|].
    eapply result_bind_eq; [apply runs_to_ntohs, Hqc|exact Hst2|].
    intros st3 Hst3. case_decide; [reflexivity|].
    rewrite (ssize_wrap_small (packet_len - 12)) by lia.
    rewrite (size_wrap_small (packet_len - 12)) by lia.
    set (after := drop 12 pkt).
    assert (Hafter : bytes_at (heap st) (packet_buf .+ 12) after).
    { apply (bytes_at_drop _ _ _ 12); [lia|exact Hpkt]. }
    replace (Z.to_nat (packet_len - 12)) with (length after)
      by (unfold after; rewrite length_drop; lia).
    eapply result_bind_eq; [apply runs_to_memchr, Hafter|exact Hst3|].
    intros st4 Hst4.
    fold after in Hbad.
    destruct (list_find (fun b => b = 0) after) as [[i z]|] eqn:Efind;
      [|reflexivity].
    apply list_find_Some in Efind. destruct Efind as [Hi [-> _]].
    assert (Hilt : (i < length after)%nat) by (eapply lookup_lt_Some, Hi).
    assert (Hafter_len : Z.of_nat (length after) = packet_len - 12).
    { unfold after. rewrite length_drop. lia. }
    simpl fmap. cbv beta iota. simpl fst. simpl ofs.
    replace (ofs packet_buf + 12 + Z.of_nat i + 1 - (ofs packet_buf + 12))
      with (Z.of_nat i + 1) by lia.
    rewrite (size_wrap_small (Z.of_nat i + 1)) by lia.
    case_decide; [reflexivity|]. case_decide; [reflexivity|].
    rewrite (ssize_wrap_small (Z.of_nat i + 1)) by lia.
    assert (Hipos : (0 < i)%nat).
    { destruct i; [|lia]. simpl in Hbad. destruct (malformed_labels_nil Hbad). }
    destruct (decode_name_verdict (heap st) out (packet_buf .+ 12)
                (Z.of_nat i + 1) (take i after) 0)
      as [r [m' [Hrun Hiff]]].
    - rewrite <- (take_S_r _ _ _ Hi). apply bytes_at_take, Hafter.
    - rewrite length_take. lia.
    - unfold DNS_NAME_ENC_MINLEN. lia.
    - unfold is_ssize. lia.
    - intros j Hj. apply Hout. lia.
    - simpl. exact Hne.
    - assert (r = false) as -> by (apply Hiff, Hbad).
      eapply result_bind_eq; [exact Hrun|exact Hst4|].
      intros st5 _. reflexivity.
  }
  intros Hslot. subst packet_len.
  destruct (check_packet_outcome DNS_PACKET_MINSIZE DNS_PACKET_MAXSIZE
              DNS_NAME_ENC_MAXLEN minsize_covers_header is_query packet_buf
              None p_namelen (heap st) pkt Hss Hpkt)
    as [accepted [m' [Hrun HQ]]].
  { intros out Hout. discriminate. }
  { intros slot E. destruct (Hslot slot E) as [Hal Hsp].
    split; [exact Hal|]. split; [exact Hsp|]. intros out Hout. discriminate. }
  exists accepted. split; [exact (runs_to_result _ _ _ _ _ Hrun eq_refl)|].
  destruct HQ as [[i [Hname [_ Hiff]]]|[Hno [-> _]]].
  - rewrite Hiff. destruct Hname as [Hheader [Hfind [Hle _]]]. split.
    + intros Hq. split; [exact Hheader|]. exists i. auto.
    + intros [_ [j [Hfind' [_ Hq]]]]. rewrite Hfind in Hfind'.
      injection Hfind' as <-. exact Hq.
  - split; [discriminate|]. intros [Hheader [j [Hfind [Hle Hq]]]].
    exfalso. apply (Hno j). split; [exact Hheader|]. split; [exact Hfind|].
    split; [exact Hle|]. intros Hn. destruct Hn. reflexivity.
Qed.

(** C5, as amended.  The packet can be read, the name buffer, if one is
    given, exists apart from the packet, and the slot of the encoded
    length exists apart from the packet and from the name buffer.  When
    the packet fails a check up to and including the decoding of the
    name (the packet length, the header, a missing terminator, an
    encoded length above the ceiling, a name that does not split into
    labels while a name buffer is given), the validator returns [false]
    and the slot is as it was.  When the packet passes these checks and
    fails those of the question record (fewer than
    [sizeof (dns_query_t)] bytes behind the name, or a class other than
    Internet), the validator returns [false] and the slot holds the
    encoded length of the name.  Every run that returns [false] is one
    of the two. *)
Theorem namelen_slot_on_failure
    (is_query : bool) (packet_buf : pointer) (name_buf : option pointer)
    (slot : pointer) (st : state) (pkt : list Z) :
  is_ssize (Z.of_nat (length pkt)) ->
  bytes_at (heap st) packet_buf pkt ->
  (forall out, name_buf = Some out ->
     allocated (heap st) out (Z.max 2 (DNS_NAME_ENC_MAXLEN - 1)) /\
     blk out <> blk packet_buf /\ blk slot <> blk out) ->
  is_Some (load_cell (heap st) slot) -> blk slot <> blk packet_buf ->
  let run := check_packet DNS_PACKET_MINSIZE DNS_PACKET_MAXSIZE
               DNS_NAME_ENC_MAXLEN is_query packet_buf
               (Z.of_nat (length pkt)) name_buf (Some slot) in
  ((forall i, ~ name_passes DNS_PACKET_MINSIZE DNS_PACKET_MAXSIZE
                  DNS_NAME_ENC_MAXLEN is_query name_buf pkt i) ->
   result run st = Val false /\
   load_cell (heap (final run st)) slot = load_cell (heap st) slot) /\
  (forall i,
     name_passes DNS_PACKET_MINSIZE DNS_PACKET_MAXSIZE DNS_NAME_ENC_MAXLEN
       is_query name_buf pkt i ->
     ~ question_passes pkt i ->
     result run st = Val false /\
     load_cell (heap (final run st)) slot = Some (Z.of_nat i + 1)) /\
  (result run st = Val false ->
   (forall i, ~ name_passes DNS_PACKET_MINSIZE DNS_PACKET_MAXSIZE
                  DNS_NAME_ENC_MAXLEN is_query name_buf pkt i) \/
   exists i,
     name_passes DNS_PACKET_MINSIZE DNS_PACKET_MAXSIZE DNS_NAME_ENC_MAXLEN
       is_query name_buf pkt i /\
     ~ question_passes pkt i).
Proof.
  intros Hss Hpkt Hbuf Hal Hsp run.
  destruct (check_packet_outcome DNS_PACKET_MINSIZE DNS_PACKET_MAXSIZE
              DNS_NAME_ENC_MAXLEN minsize_covers_header is_query packet_buf
              name_buf (Some slot) (heap st) pkt Hss Hpkt)
    as [accepted [m' [Hrun HQ]]].
  { intros out Hout. destruct (Hbuf out Hout) as [H1 [H2 _]]. auto. }
  { intros s [= <-]. split; [exact Hal|]. split; [exact Hsp|].
    intros out Hout. apply (Hbuf out Hout). }
  destruct (Hrun st eq_refl) as [Hres Hfin]. fold run in Hres, Hfin.
  split; [|split].
  - intros Hno. destruct HQ as [[i [Hname _]]|[_ [-> Hsl]]];
      [destruct (Hno i Hname)|].
    split; [exact Hres|]. rewrite Hfin. apply Hsl. reflexivity.
  - intros i Hname Hq.
    destruct HQ as [[j [Hnj [Hsl Hiff]]]|[Hno _]]; [|destruct (Hno i Hname)].
    assert (j = i) as ->.
    { destruct Hname as [_ [Hf _]]. destruct Hnj as [_ [Hf' _]].
      rewrite Hf in Hf'. injection Hf' as <-. reflexivity. }
    destruct accepted; [exfalso; apply Hq, Hiff; reflexivity|].
    split; [exact Hres|]. rewrite Hfin. apply Hsl. reflexivity.
  - intros Hfalse. rewrite Hres in Hfalse. injection Hfalse as ->.
    destruct HQ as [[i [Hname [_ Hiff]]]|[Hno _]]; [right|left; exact Hno].
    exists i. split; [exact Hname|]. intros Hq. apply Hiff in Hq.
    discriminate.
Qed.

(** C6, as amended.  The scan has [S n] answers left and its cursor is at
    a record whose name can be skipped.  A record that fails the class
    check or the length check, its class not being Internet or its fixed
    fields and declared rdata length not fitting in the remaining length,
    yields "bad packet" whatever its type and rdata length.  For a
    record whose class is Internet and which fits in the remaining
    length: if its type is A (is AAAA), the scan returns "bad packet"
    exactly when the declared rdata length is not 4 (not 16); if its type
    is another one, the scan goes on with the [n] answers left, its
    cursor moved past the fixed fields and the declared rdata length,
    and the membership set has not been consulted. *)
Theorem chnip_check_rdata_length
    (n : nat) (ptr : pointer) (len : Z) (st : state)
    (record : pointer) (len' rclass rdatalen : Z) :
  result (skip_name ptr len) st = Val (Some (record, len')) ->
  peek16 (heap st) (record .+ off_rclass) = Some rclass ->
  peek16 (heap st) (record .+ off_rdatalen) = Some rdatalen ->
  (rclass <> DNS_CLASS_INTERNET \/ len' < sizeof_dns_record_t + rdatalen ->
   result (chnip_loop ipset_addr_is_exists (S n) ptr len) st
     = Val DNS_IPCHK_BAD_PACKET) /\
  (rclass = DNS_CLASS_INTERNET -> sizeof_dns_record_t + rdatalen <= len' ->
   forall rtype,
     peek16 (heap st) (record .+ off_rtype) = Some rtype ->
     (rtype = DNS_RECORD_TYPE_A ->
      (result (chnip_loop ipset_addr_is_exists (S n) ptr len) st
         = Val DNS_IPCHK_BAD_PACKET <-> rdatalen <> IPV4_BINADDR_LEN)) /\
     (rtype = DNS_RECORD_TYPE_AAAA ->
      (result (chnip_loop ipset_addr_is_exists (S n) ptr len) st
         = Val DNS_IPCHK_BAD_PACKET <-> rdatalen <> IPV6_BINADDR_LEN)) /\
     (rtype <> DNS_RECORD_TYPE_A -> rtype <> DNS_RECORD_TYPE_AAAA ->
      exists st1,
        chnip_loop ipset_addr_is_exists (S n) ptr len st =
        chnip_loop ipset_addr_is_exists n
          (record .+ (sizeof_dns_record_t + rdatalen))
          (len' - (sizeof_dns_record_t + rdatalen)) st1 /\
        heap st1 = heap st /\ ipset_untouched st st1)).
Proof.
  intros Hskip Hrclass Hlen. split.
  { intros Hbad.
    pose proof (chnip_record_bad ipset_addr_is_exists ptr len st record
                  len' rclass rdatalen Hskip Hrclass Hlen Hbad) as Hrec.
    simpl chnip_loop. unfold result.
    rewrite (bind_result_Val _ _ _ _ Hrec). reflexivity. }
  intros -> Hfit rtype Htype. pose proof Hrclass as Hclass.
  assert (Haddr : forall is_ipv4 : bool,
            rtype = (if is_ipv4 then DNS_RECORD_TYPE_A
                     else DNS_RECORD_TYPE_AAAA) ->
            (result (chnip_loop ipset_addr_is_exists (S n) ptr len) st
               = Val DNS_IPCHK_BAD_PACKET <->
             rdatalen <> (if is_ipv4 then IPV4_BINADDR_LEN
                          else IPV6_BINADDR_LEN))).
  { intros is_ipv4 Hrtype.
    destruct (chnip_record_address ipset_addr_is_exists ptr len st record
                len' rdatalen rtype is_ipv4 Hskip Hclass Hlen Hfit Htype
                Hrtype) as [st1 [_ Hrec]].
    simpl chnip_loop. unfold result, mbind at 1, M_MBind, M_bind.
    rewrite Hrec. case_decide.
    - simpl. split; [intros _; assumption|reflexivity].
    - split; [|contradiction]. intros Hbad. exfalso.
      unfold mbind, M_MBind, M_bind in Hbad.
      destruct (ipset_query ipset_addr_is_exists (record .+ off_rdata)
                  is_ipv4 st1) as [[[|]| |] st2]; simpl in Hbad;
        discriminate. }
  split; [|split].
  - intros ->. apply (Haddr true). reflexivity.
  - intros ->. apply (Haddr false). reflexivity.
  - intros HnA HnAAAA.
    destruct (chnip_record_other ipset_addr_is_exists ptr len st record
                len' rdatalen rtype Hskip Hclass Hlen Hfit Htype HnA HnAAAA)
      as [Hres Hun].
    exists (final (chnip_record ipset_addr_is_exists ptr len) st).
    split; [|split].
    + simpl chnip_loop. rewrite (bind_result_Val _ _ _ _ Hres). reflexivity.
    + apply chnip_record_same_heap.
    + exact Hun.
Qed.

(** C7.  The reply validator has accepted the packet and reported
    [namelen].  If the [answer_count] records of the answer section pass
    the structural checks of the scan and none is of type A or AAAA, the
    scan returns "not found"; so it does when [answer_count] is 0. *)
Theorem chnip_check_not_found
    (packet_buf : pointer) (packet_len : Z) (name_buf : option pointer)
    (slot : pointer) (namelen answer_count : Z) (st st' : state) :
  is_ssize packet_len ->
  dns_reply_check DNS_PACKET_MINSIZE DNS_PACKET_MAXSIZE DNS_NAME_ENC_MAXLEN
    packet_buf packet_len name_buf (Some slot) st = (Val true, st') ->
  load_cell (heap st') slot = Some namelen ->
  peek16 (heap st') (packet_buf .+ off_answer_count) = Some answer_count ->
  (skippable_records (heap st') (Z.to_nat answer_count)
     (packet_buf .+ (sizeof_dns_header_t + namelen + sizeof_dns_query_t))
     (packet_len - (sizeof_dns_header_t + namelen + sizeof_dns_query_t)) ->
   result (dns_chnip_check ipset_addr_is_exists
             packet_buf packet_len namelen) st'
     = Val DNS_IPCHK_NOT_FOUND) /\
  (answer_count = 0 ->
   result (dns_chnip_check ipset_addr_is_exists
             packet_buf packet_len namelen) st'
     = Val DNS_IPCHK_NOT_FOUND).
Proof.
  intros Hss Hrun Hslot Hcount.
  destruct (accepted_reply_layout _ _ _ _ _ _ _ Hss Hrun Hslot) as [Hn Hfit].
  unfold is_ssize, DNS_NAME_ENC_MINLEN, sizeof_dns_header_t,
    sizeof_dns_query_t in *.
  assert (Hgen : skippable_records (heap st') (Z.to_nat answer_count)
                   (packet_buf .+ (12 + namelen + 4))
                   (packet_len - (12 + namelen + 4)) ->
                 result (dns_chnip_check ipset_addr_is_exists
                           packet_buf packet_len namelen) st'
                   = Val DNS_IPCHK_NOT_FOUND).
  { intros Hrecs. eapply runs_to_result; [|reflexivity].
    unfold dns_chnip_check.
    eapply runs_to_bind; [apply runs_to_ntohs, Hcount|].
    unfold sizeof_dns_header_t, sizeof_dns_query_t.
    rewrite (size_wrap_small (12 + namelen + 4)) by lia.
    rewrite ssize_wrap_small by lia.
    apply chnip_loop_not_found, Hrecs. }
  split; [exact Hgen|].
  intros ->. apply Hgen. apply skippable_done.
Qed.

(** C9.  The reply validator has accepted the packet and reported
    [namelen]; the header counts at least one answer; the first record
    of the answer section, which lies inside the packet, is a name in
    wire form, the type A, the class Internet, a time to live, the rdata
    length 4 and four bytes of address; and the address is a member of
    the IPv4 set.  Then the scan returns "in range". *)
Theorem chnip_check_in_range
    (packet_buf : pointer) (packet_len : Z) (name_buf : option pointer)
    (slot : pointer) (namelen answer_count : Z) (st st' : state)
    (rname ttl addr : list Z) :
  is_ssize packet_len ->
  dns_reply_check DNS_PACKET_MINSIZE DNS_PACKET_MAXSIZE DNS_NAME_ENC_MAXLEN
    packet_buf packet_len name_buf (Some slot) st = (Val true, st') ->
  load_cell (heap st') slot = Some namelen ->
  peek16 (heap st') (packet_buf .+ off_answer_count) = Some answer_count ->
  0 < answer_count ->
  wire_name rname -> length ttl = 4%nat -> length addr = 4%nat ->
  bytes_at (heap st')
    (packet_buf .+ (sizeof_dns_header_t + namelen + sizeof_dns_query_t))
    (rname ++ [0; DNS_RECORD_TYPE_A] ++ [0; DNS_CLASS_INTERNET] ++ ttl ++
     [0; IPV4_BINADDR_LEN] ++ addr) ->
  sizeof_dns_header_t + namelen + sizeof_dns_query_t +
    Z.of_nat (length rname) + sizeof_dns_record_t + IPV4_BINADDR_LEN
    <= packet_len ->
  ipset_addr_is_exists addr true = true ->
  result (dns_chnip_check ipset_addr_is_exists packet_buf packet_len namelen)
    st' = Val DNS_IPCHK_IS_CHNIP.
Proof.
  intros Hss Hrun Hslot Hcount Hpos Hname Httl Haddr Hat Hinside Hmember.
  destruct (accepted_reply_layout _ _ _ _ _ _ _ Hss Hrun Hslot) as [Hn Hfit].
  unfold is_ssize, DNS_NAME_ENC_MINLEN, sizeof_dns_header_t,
    sizeof_dns_query_t, sizeof_dns_record_t, IPV4_BINADDR_LEN,
    DNS_RECORD_TYPE_A, DNS_CLASS_INTERNET in *.
  set (cursor := packet_buf .+ (12 + namelen + 4)) in *.
  set (k := Z.of_nat (length rname)) in *.
  apply bytes_at_app in Hat. destruct Hat as [Hrname Hfields]. fold k in Hfields.
  destruct ttl as [|t0 [|t1 [|t2 [|t3 [|]]]]]; try discriminate.
  simpl app in Hfields.
  set (record := cursor .+ k) in *.
  assert (Hfield : forall (i : nat) hi lo,
            [0; 1; 0; 1; t0; t1; t2; t3; 0; 4] !! i = Some hi ->
            [0; 1; 0; 1; t0; t1; t2; t3; 0; 4] !! S i = Some lo ->
            peek16 (heap st') (record .+ Z.of_nat i) = Some (256 * hi + lo)).
  { intros i hi lo Hhi Hlo.
    apply (bytes_at_peek16 _ _ _ _ _ _ Hfields).
    - rewrite <- Hhi. change (0 :: 1 :: 0 :: 1 :: t0 :: t1 :: t2 :: t3 :: 0 :: 4 :: addr)
        with ([0; 1; 0; 1; t0; t1; t2; t3; 0; 4] ++ addr).
      apply lookup_app_l. eapply lookup_lt_Some, Hhi.
    - rewrite <- Hlo. change (0 :: 1 :: 0 :: 1 :: t0 :: t1 :: t2 :: t3 :: 0 :: 4 :: addr)
        with ([0; 1; 0; 1; t0; t1; t2; t3; 0; 4] ++ addr).
      apply lookup_app_l. eapply lookup_lt_Some, Hlo. }
  assert (Hrdata : bytes_at (heap st') (record .+ 10) addr).
  { apply (bytes_at_drop _ _ _ 10) in Hfields; [exact Hfields|].
    simpl. lia. }
  apply (runs_to_result _ (heap st') (heap st')); [|reflexivity].
  unfold dns_chnip_check.
  eapply runs_to_bind; [apply runs_to_ntohs, Hcount|].
  unfold sizeof_dns_header_t, sizeof_dns_query_t.
  rewrite (size_wrap_small (12 + namelen + 4)) by lia.
  rewrite ssize_wrap_small by lia. fold cursor.
  destruct (Z.to_nat answer_count) as [|remaining] eqn:Ec; [lia|].
  simpl chnip_loop.
  assert (Hskip : runs_to (skip_name cursor (packet_len - (12 + namelen + 4)))
                    (heap st')
                    (Some (record, packet_len - (12 + namelen + 4) - k))
                    (heap st')).
  { apply skip_name_wire; [exact Hname|exact Hrname|].
    unfold sizeof_dns_record_t. fold k. lia. }
  intros s Hs.
  destruct (chnip_record_address ipset_addr_is_exists cursor
              (packet_len - (12 + namelen + 4)) s record
              (packet_len - (12 + namelen + 4) - k) 4 1 true)
    as [s1 [Hs1 Hrec]].
  - eapply runs_to_result; [exact Hskip|exact Hs].
  - rewrite Hs. apply (Hfield 2%nat 0 1); reflexivity.
  - rewrite Hs. apply (Hfield 8%nat 0 4); reflexivity.
  - unfold sizeof_dns_record_t. lia.
  - rewrite Hs. unfold off_rtype. apply (Hfield 0%nat 0 1); reflexivity.
  - reflexivity.
  - assert (Hwidth : Z.of_nat (length addr) = IPV4_BINADDR_LEN)
      by (rewrite Haddr; reflexivity).
    assert (Hheap : heap s1 = heap st') by (rewrite Hs1; exact Hs).
    destruct (runs_to_ipset_query ipset_addr_is_exists (heap st')
                (record .+ off_rdata) addr true Hrdata Hwidth s1 Hheap)
      as [Hr _].
    assert (Hverdict : result (chnip_record ipset_addr_is_exists cursor
                                 (packet_len - (12 + namelen + 4))) s
                       = Val (Verdict DNS_IPCHK_IS_CHNIP)).
    { unfold result. rewrite Hrec. clear Hrec. unfold IPV4_BINADDR_LEN.
      destruct (decide (4 <> 4)) as [Hne|_]; [contradiction|].
      rewrite (bind_result_Val _ _ _ _ Hr), Hmember. reflexivity. }
    unfold result, final. rewrite (bind_result_Val _ _ _ _ Hverdict).
    split; [reflexivity|]. simpl.
    rewrite <- Hs. apply chnip_record_same_heap.
Qed.

End DnsTheorems.

(** * The claims on concrete packets *)

(** ** The concrete memories *)

Lemma load_cell_packet (pkt : list Z) (i : nat) :
  load_cell (heap_of pkt) (at_packet (Z.of_nat i)) = pkt !! i.
Proof.
  unfold load_cell, heap_of, at_packet. simpl.
  destruct (decide (0 <= Z.of_nat i)); [|lia].
  rewrite lookup_insert_eq, Nat2Z.id. reflexivity.
Qed.

Lemma bytes_at_packet (pkt : list Z) :
  Forall is_byte pkt -> bytes_at (heap_of pkt) (at_packet 0) pkt.
Proof.
  intros Hb. split; [|exact Hb]. intros i v Hi.
  unfold ptr_add. simpl. rewrite <- Hi. apply load_cell_packet.
Qed.

Lemma allocated_name_buf (pkt : list Z) (n : Z) :
  n <= 254 -> allocated (heap_of pkt) name_buf_0 n.
Proof.
  intros Hn i Hi. unfold load_cell.
  change (blk (name_buf_0 .+ i)) with name_block.
  change (ofs (name_buf_0 .+ i)) with (0 + i).
  destruct (decide (0 <= 0 + i)); [|lia].
  unfold heap_of. rewrite lookup_insert_ne by discriminate.
  rewrite lookup_insert_eq. apply lookup_lt_is_Some.
  rewrite length_replicate. lia.
Qed.

Lemma bytes_decide (l : list Z) :
  bool_decide (Forall is_byte l) = true -> Forall is_byte l.
Proof. apply bool_decide_eq_true_1. Qed.

Lemma decode_name_correct_witness :
  (exists m', runs_to (decode_name name_buf_0 (at_packet 0) 1)
                (heap_of [0]) true m' /\
              cells_at m' name_buf_0 [46; 0]) /\
  (exists m', runs_to (decode_name name_buf_0 (at_packet 0) 10)
                (heap_of a_bb_ccc) true m' /\
              cells_at m' name_buf_0
                (join_dots [[97]; [98; 98]; [99; 99; 99]] ++ [0])) /\
  (exists r m', runs_to (decode_name name_buf_0 (at_packet 0) 4)
                  (heap_of [2; 97; 0; 0]) r m' /\
                (r = false <-> malformed_labels [2; 97; 0])) /\
  reads_only (in_range (at_packet 0) 4) (state_of [2; 97; 0; 0])
    (final (decode_name name_buf_0 (at_packet 0) 4) (state_of [2; 97; 0; 0])).
Proof.
  assert (Hss : forall n, 0 <= n <= 10 -> is_ssize n).
  { intros n Hn. unfold is_ssize. lia. }
  assert (Hne : blk name_buf_0 <> blk (at_packet 0)) by discriminate.
  destruct (decode_name_correct (heap_of [0]) name_buf_0 (at_packet 0) 1
              (Hss 1 ltac:(lia)) Hne) as [Hroot _].
  destruct (decode_name_correct (heap_of a_bb_ccc) name_buf_0 (at_packet 0) 10
              (Hss 10 ltac:(lia)) Hne) as [_ [Hlabels _]].
  destruct (decode_name_correct (heap_of [2; 97; 0; 0]) name_buf_0
              (at_packet 0) 4 (Hss 4 ltac:(lia)) Hne)
    as [_ [_ [Hverdict Hreads]]].
  split; [|split; [|split]].
  - apply Hroot.
    + unfold DNS_NAME_ENC_MINLEN. lia.
    + apply allocated_name_buf. lia.
  - apply (Hlabels [97] [[98; 98]; [99; 99; 99]]).
    + repeat constructor; simpl; unfold is_byte; lia.
    + apply bytes_at_packet, bytes_decide. reflexivity.
    + reflexivity.
    + apply allocated_name_buf. lia.
  - apply (Hverdict [2; 97; 0] 0).
    + unfold DNS_NAME_ENC_MINLEN. lia.
    + apply bytes_at_packet, bytes_decide. reflexivity.
    + reflexivity.
    + apply allocated_name_buf. lia.
  - apply Hreads.
Defined.

(** The round trip of the name [a.bb.ccc], by evaluation. *)
Example decode_name_a_bb_ccc :
  let (r, st) := decode_name name_buf_0 (at_packet 0) 10 (state_of a_bb_ccc) in
  r = Val true /\
  take 9 <$> heap st !! name_block = Some [97; 46; 98; 98; 46; 99; 99; 99; 0].
Proof. vm_compute. split; reflexivity. Qed.

Lemma skip_name_cases_witness :
  result (skip_name (at_packet 0) 0) (state_of []) = Val None /\
  result (skip_name (at_packet 0) 11) (state_of (0 :: replicate 10 7)) =
    Val (Some (at_packet 1, 10)) /\
  result (skip_name (at_packet 0) 11) (state_of [192; 12; 0; 1; 0; 1]) =
    Val None /\
  result (skip_name (at_packet 0) 13) (state_of (1 :: 97 :: 0 :: replicate 10 7)) =
    result (skip_name (at_packet 2) 11) (state_of (1 :: 97 :: 0 :: replicate 10 7)) /\
  result (skip_name (at_packet 0) 13) (state_of (64 :: replicate 12 7)) =
    Val None.
Proof.
  split; [|split; [|split; [|split]]].
  - apply (skip_name_cases (state_of []) (at_packet 0) 0). lia.
  - destruct (skip_name_cases (state_of (0 :: replicate 10 7)) (at_packet 0) 11)
      as [_ H].
    destruct (H 0 eq_refl ltac:(lia)) as [H0 _]. exact (H0 eq_refl).
  - destruct (skip_name_cases (state_of [192; 12; 0; 1; 0; 1]) (at_packet 0) 11)
      as [_ H].
    destruct (H 192 eq_refl ltac:(lia)) as [_ [H0 _]]. exact (H0 eq_refl).
  - destruct (skip_name_cases (state_of (1 :: 97 :: 0 :: replicate 10 7))
                (at_packet 0) 13) as [_ H].
    destruct (H 1 eq_refl ltac:(lia)) as [_ [_ [H0 _]]].
    exact (H0 ltac:(lia)).
  - destruct (skip_name_cases (state_of (64 :: replicate 12 7))
                (at_packet 0) 13) as [_ H].
    destruct (H 64 eq_refl ltac:(lia)) as [_ [_ [_ H0]]].
    exact (H0 ltac:(lia)).
Defined.

Lemma sample_minsize_covers_header : sizeof_dns_header_t <= sample_minsize.
Proof. vm_compute. discriminate. Qed.

Lemma small_is_ssize (n : nat) : (n <= 1472)%nat -> is_ssize (Z.of_nat n).
Proof. intros H. unfold is_ssize. lia. Qed.

Lemma bytes_at_block (m : mem) (pkt : list Z) (i n : nat) :
  m !! packet_block = Some pkt -> Forall is_byte pkt ->
  bytes_at m (at_packet (Z.of_nat i)) (take n (drop i pkt)).
Proof.
  intros Hm Hb. split.
  - intros j v Hj. rewrite lookup_take_Some in Hj. destruct Hj as [Hj _].
    rewrite lookup_drop in Hj.
    unfold load_cell, at_packet, ptr_add. simpl.
    destruct (decide (0 <= Z.of_nat i + Z.of_nat j)); [|lia].
    rewrite Hm, <- Hj. f_equal. lia.
  - apply Forall_take, Forall_drop, Hb.
Qed.

Lemma reply_a_accepted :
  sample_reply_check reply_a = (Val true, validated reply_a).
Proof. vm_compute. reflexivity. Qed.

Lemma reply_cname_accepted :
  sample_reply_check reply_cname = (Val true, validated reply_cname).
Proof. vm_compute. reflexivity. Qed.

Lemma reads_stay_in_bounds_witness :
  reads_only (in_range (at_packet 0) 48) (state_of reply_a)
    (validated reply_a) /\
  reads_only (in_range (at_packet 0) 48) (validated reply_a)
    (final (dns_chnip_check sample_ipset (at_packet 0) 48 16)
       (validated reply_a)).
Proof.
  destruct (reads_stay_in_bounds sample_minsize sample_maxsize
              sample_enc_maxlen sample_ipset sample_minsize_covers_header)
    as [Hcheck [_ [_ Hscan]]].
  split.
  - apply (Hcheck false (at_packet 0) 48 (Some name_buf_0) (Some slot_0)
             (state_of reply_a)).
    apply (small_is_ssize 48). lia.
  - apply (Hscan (at_packet 0) 48 (Some name_buf_0) slot_0 16
             (state_of reply_a) (validated reply_a) (validated reply_a)).
    + apply (small_is_ssize 48). lia.
    + exact reply_a_accepted.
    + vm_compute. reflexivity.
Defined.

Lemma packet_is_read_only_witness :
  cells_at (heap (validated reply_a)) (at_packet 0) reply_a /\
  heap (final (dns_chnip_check sample_ipset (at_packet 0) 48 16)
          (validated reply_a)) = heap (validated reply_a).
Proof.
  destruct (packet_is_read_only sample_minsize sample_maxsize
              sample_enc_maxlen sample_ipset) as [_ [Hpkt [_ [_ Hscan]]]].
  split.
  - apply (Hpkt false (at_packet 0) 48 (Some name_buf_0) (Some slot_0)
             (state_of reply_a) reply_a).
    + intros q [Hblk _] [[out [[= <-] [Hblk' _]]]|[= <-]].
      * rewrite Hblk in Hblk'. discriminate.
      * discriminate.
    + reflexivity.
    + apply bytes_at_packet, bytes_decide. reflexivity.
  - apply Hscan.
Defined.

Lemma check_packet_rejects_header_witness :
  result (dns_query_check sample_minsize sample_maxsize sample_enc_maxlen
            (at_packet 0) 5 None None) (state_of (take 5 reply_a))
    = Val false /\
  result (dns_query_check sample_minsize sample_maxsize sample_enc_maxlen
            (at_packet 0) 48 None None) (state_of reply_a) = Val false /\
  result (dns_query_check sample_minsize sample_maxsize sample_enc_maxlen
            (at_packet 0) 17 None None)
    (state_of (sample_header 8 1 0 ++ [0; 0; 1; 0; 1])) = Val false /\
  result (dns_query_check sample_minsize sample_maxsize sample_enc_maxlen
            (at_packet 0) 17 None None)
    (state_of (sample_header 1 2 0 ++ [0; 0; 1; 0; 1])) = Val false.
Proof.
  split; [|split; [|split]].
  - apply (check_packet_rejects_header sample_minsize sample_maxsize
             sample_enc_maxlen true (at_packet 0) 5 None None).
    left. vm_compute. reflexivity.
  - destruct (check_packet_rejects_header sample_minsize sample_maxsize
                sample_enc_maxlen true (at_packet 0) 48 None None
                (state_of reply_a)) as [_ H].
    destruct (H 129 eq_refl) as [Hqr _]. apply Hqr. reflexivity.
  - destruct (check_packet_rejects_header sample_minsize sample_maxsize
                sample_enc_maxlen true (at_packet 0) 17 None None
                (state_of (sample_header 8 1 0 ++ [0; 0; 1; 0; 1])))
      as [_ H].
    destruct (H 8 eq_refl) as [_ [Hop _]]. apply Hop. discriminate.
  - destruct (check_packet_rejects_header sample_minsize sample_maxsize
                sample_enc_maxlen true (at_packet 0) 17 None None
                (state_of (sample_header 1 2 0 ++ [0; 0; 1; 0; 1])))
      as [_ H].
    destruct (H 1 eq_refl) as [_ [_ Hqc]]. apply (Hqc 2); [reflexivity|lia].
Defined.

Lemma query_bad_label_malformed :
  malformed_labels (question_name query_bad_label).
Proof.
  change (question_name query_bad_label) with [64; 97].
  apply malformed_here. right. left. unfold DNS_DNAME_LABEL_MAXLEN. lia.
Qed.

(** C2 fails as it stands: without a name buffer the labels of the name
    are not looked at, and a query whose name starts with the length
    byte 64 is accepted. *)
Lemma bad_label_accepted_without_name_buf :
  malformed_labels (question_name query_bad_label) /\
  result (dns_query_check sample_minsize sample_maxsize sample_enc_maxlen
            (at_packet 0) 19 None None) (state_of query_bad_label)
    = Val true.
Proof. split; [exact query_bad_label_malformed|vm_compute; reflexivity]. Qed.

Lemma check_packet_rejects_malformed_name_witness :
  result (dns_query_check sample_minsize sample_maxsize sample_enc_maxlen
            (at_packet 0) 19 (Some name_buf_0) None)
    (state_of query_bad_label) = Val false /\
  (exists accepted,
     result (dns_query_check sample_minsize sample_maxsize sample_enc_maxlen
               (at_packet 0) 19 None None)
       (state_of query_bad_label) = Val accepted /\
     (accepted = true <->
      header_passes sample_minsize sample_maxsize true query_bad_label /\
      exists i,
        list_find (fun b => b = 0) (drop 12 query_bad_label) = Some (i, 0) /\
        Z.of_nat i + 1 <= sample_enc_maxlen /\
        question_passes query_bad_label i)).
Proof.
  destruct (check_packet_rejects_malformed_name sample_minsize sample_maxsize
              sample_enc_maxlen sample_minsize_covers_header true
              (at_packet 0) 19 None (state_of query_bad_label)
              query_bad_label) as [Hbuf Hnone].
  - apply (small_is_ssize 19). lia.
  - apply bytes_at_packet, bytes_decide. reflexivity.
  - reflexivity.
  - split.
    + apply (Hbuf name_buf_0).
      * apply allocated_name_buf. unfold sample_enc_maxlen. lia.
      * discriminate.
      * exact query_bad_label_malformed.
    + apply Hnone. intros slot Hslot. discriminate.
Defined.

(** C5 fails as it stands: on a reply whose question is of class CHAOS
    the validator returns [false] after it has stored the encoded
    length, 16, in the slot that held 0. *)
Lemma namelen_slot_written_on_failure :
  fst (sample_reply_check reply_chaos) = Val false /\
  load_cell (heap (state_of reply_chaos)) slot_0 = Some 0 /\
  load_cell (heap (validated reply_chaos)) slot_0 = Some 16.
Proof. vm_compute. repeat split; reflexivity. Qed.

Lemma reply_chaos_name_passes :
  name_passes sample_minsize sample_maxsize sample_enc_maxlen false
    (Some name_buf_0) reply_chaos 15.
Proof.
  split; [|split; [|split]].
  - split; [vm_compute; split; discriminate|].
    split; [exists 129; split; [reflexivity|split; reflexivity]|].
    split; reflexivity.
  - vm_compute. reflexivity.
  - vm_compute. discriminate.
  - intros _.
    change (question_name reply_chaos)
      with (encode_labels www_google_com_labels).
    apply encode_labels_well_formed.
    apply (bool_decide_eq_true_1 (Forall label_ok www_google_com_labels)).
    vm_compute. reflexivity.
Qed.

Lemma namelen_slot_on_failure_witness :
  (result (check_packet sample_minsize sample_maxsize sample_enc_maxlen
             true (at_packet 0) 48 (Some name_buf_0) (Some slot_0))
     (state_of reply_chaos) = Val false /\
   load_cell
     (heap (final (check_packet sample_minsize sample_maxsize
                     sample_enc_maxlen true (at_packet 0) 48
                     (Some name_buf_0) (Some slot_0)) (state_of reply_chaos)))
     slot_0 = load_cell (heap (state_of reply_chaos)) slot_0) /\
  (result (check_packet sample_minsize sample_maxsize sample_enc_maxlen
             false (at_packet 0) 48 (Some name_buf_0) (Some slot_0))
     (state_of reply_chaos) = Val false /\
   load_cell
     (heap (final (check_packet sample_minsize sample_maxsize
                     sample_enc_maxlen false (at_packet 0) 48
                     (Some name_buf_0) (Some slot_0)) (state_of reply_chaos)))
     slot_0 = Some 16).
Proof.
  assert (Hss : is_ssize (Z.of_nat (length reply_chaos))).
  { apply (small_is_ssize 48). lia. }
  assert (Hpkt : bytes_at (heap (state_of reply_chaos)) (at_packet 0)
                   reply_chaos).
  { apply bytes_at_packet, bytes_decide. reflexivity. }
  assert (Hbuf : forall out, Some name_buf_0 = Some out ->
            allocated (heap (state_of reply_chaos)) out
              (Z.max 2 (sample_enc_maxlen - 1)) /\
            blk out <> blk (at_packet 0) /\ blk slot_0 <> blk out).
  { intros out [= <-]. split; [|split; discriminate].
    apply allocated_name_buf. vm_compute. discriminate. }
  assert (Hal : is_Some (load_cell (heap (state_of reply_chaos)) slot_0)).
  { vm_compute. eauto. }
  assert (Hsp : blk slot_0 <> blk (at_packet 0)) by discriminate.
  split.
  - destruct (namelen_slot_on_failure sample_minsize sample_maxsize
                sample_enc_maxlen sample_minsize_covers_header true
                (at_packet 0) (Some name_buf_0) slot_0 (state_of reply_chaos)
                reply_chaos Hss Hpkt Hbuf Hal Hsp) as [Hearly _].
    apply Hearly. intros i [[_ [[f [Hf [Hbit _]]] _]] _].
    vm_compute in Hf. injection Hf as <-. vm_compute in Hbit. discriminate.
  - destruct (namelen_slot_on_failure sample_minsize sample_maxsize
                sample_enc_maxlen sample_minsize_covers_header false
                (at_packet 0) (Some name_buf_0) slot_0 (state_of reply_chaos)
                reply_chaos Hss Hpkt Hbuf Hal Hsp) as [_ [Hlate _]].
    apply (Hlate 15%nat); [exact reply_chaos_name_passes|].
    intros [_ [_ Hclass]]. vm_compute in Hclass. discriminate.
Defined.

Lemma reply_a_bytes : Forall is_byte reply_a.
Proof. apply bytes_decide. reflexivity. Qed.

Lemma reply_cname_bytes : Forall is_byte reply_cname.
Proof. apply bytes_decide. reflexivity. Qed.

(** C6 fails as it stands: the first answer of the truncated reply is of
    type A and declares an rdata length of 4, the size of an IPv4
    address, and the scan still returns "bad packet", because the record
    does not fit in what remains of the packet. *)
Lemma matching_rdata_length_bad_packet :
  fst (sample_reply_check reply_truncated) = Val true /\
  load_cell (heap (validated reply_truncated)) slot_0 = Some 16 /\
  result (skip_name (at_packet 32) 14) (validated reply_truncated)
    = Val (Some (at_packet 34, 12)) /\
  peek16 (heap (validated reply_truncated)) (at_packet 34 .+ off_rtype)
    = Some DNS_RECORD_TYPE_A /\
  peek16 (heap (validated reply_truncated)) (at_packet 34 .+ off_rdatalen)
    = Some IPV4_BINADDR_LEN /\
  result (dns_chnip_check sample_ipset (at_packet 0) 46 16)
    (validated reply_truncated) = Val DNS_IPCHK_BAD_PACKET.
Proof. vm_compute. repeat split; reflexivity. Qed.

Lemma chnip_check_rdata_length_witness :
  result (chnip_loop sample_ipset 1 (at_packet 32) 14)
    (validated reply_truncated) = Val DNS_IPCHK_BAD_PACKET /\
  (result (chnip_loop sample_ipset 1 (at_packet 32) 16) (validated reply_a)
     = Val DNS_IPCHK_BAD_PACKET <-> 4 <> IPV4_BINADDR_LEN) /\
  (exists st1,
     chnip_loop sample_ipset 1 (at_packet 32) 14 (validated reply_cname) =
     chnip_loop sample_ipset 0
       (at_packet 34 .+ (sizeof_dns_record_t + 2))
       (12 - (sizeof_dns_record_t + 2)) st1 /\
     heap st1 = heap (validated reply_cname) /\
     ipset_untouched (validated reply_cname) st1).
Proof.
  split; [|split].
  - destruct (chnip_check_rdata_length sample_ipset 0 (at_packet 32) 14
                (validated reply_truncated) (at_packet 34) 12 1 4)
      as [Hbad _].
    + vm_compute. reflexivity.
    + vm_compute. reflexivity.
    + vm_compute. reflexivity.
    + apply Hbad. right. vm_compute. reflexivity.
  - destruct (chnip_check_rdata_length sample_ipset 0 (at_packet 32) 16
                (validated reply_a) (at_packet 34) 14 1 4) as [_ Hfits].
    + vm_compute. reflexivity.
    + vm_compute. reflexivity.
    + vm_compute. reflexivity.
    + destruct (Hfits eq_refl ltac:(vm_compute; discriminate) 1) as [HA _].
      * vm_compute. reflexivity.
      * apply HA. reflexivity.
  - destruct (chnip_check_rdata_length sample_ipset 0 (at_packet 32) 14
                (validated reply_cname) (at_packet 34) 12 1 2) as [_ Hfits].
    + vm_compute. reflexivity.
    + vm_compute. reflexivity.
    + vm_compute. reflexivity.
    + destruct (Hfits eq_refl ltac:(vm_compute; discriminate) 5)
        as [_ [_ Hother]].
      * vm_compute. reflexivity.
      * apply Hother; discriminate.
Defined.

Lemma chnip_check_not_found_witness :
  result (dns_chnip_check sample_ipset (at_packet 0) 46 16)
    (validated reply_cname) = Val DNS_IPCHK_NOT_FOUND.
Proof.
  destruct (chnip_check_not_found sample_minsize sample_maxsize
              sample_enc_maxlen sample_ipset sample_minsize_covers_header
              (at_packet 0) 46 (Some name_buf_0) slot_0 16 1
              (state_of reply_cname) (validated reply_cname)) as [H _].
  - apply (small_is_ssize 46). lia.
  - exact reply_cname_accepted.
  - vm_compute. reflexivity.
  - vm_compute. reflexivity.
  - apply H.
    apply (skippable_next _ 0 _ _ (at_packet 34) 12 5 2).
    + apply (skip_name_wire [192; 12] _ (at_packet 32) 14).
      * apply wire_pointer; unfold DNS_DNAME_COMPRESSION_MINVAL, is_byte; lia.
      * apply (bytes_at_block _ reply_cname 32 2); [|exact reply_cname_bytes].
        vm_compute. reflexivity.
      * vm_compute. discriminate.
    + vm_compute. reflexivity.
    + vm_compute. reflexivity.
    + vm_compute. discriminate.
    + vm_compute. reflexivity.
    + discriminate.
    + discriminate.
    + apply skippable_done.
Defined.

(** With no answer at all the scan returns "not found". *)
Example chnip_check_no_answer :
  let pkt := sample_header 129 1 0 ++ www_google_com ++ [0; 1; 0; 1] in
  fst (sample_reply_check pkt) = Val true /\
  result (dns_chnip_check sample_ipset (at_packet 0) 32 16) (validated pkt)
    = Val DNS_IPCHK_NOT_FOUND.
Proof. vm_compute. split; reflexivity. Qed.

Lemma chnip_check_in_range_witness :
  result (dns_chnip_check sample_ipset (at_packet 0) 48 16)
    (validated reply_a) = Val DNS_IPCHK_IS_CHNIP.
Proof.
  apply (chnip_check_in_range sample_minsize sample_maxsize
           sample_enc_maxlen sample_ipset sample_minsize_covers_header
           (at_packet 0) 48 (Some name_buf_0) slot_0 16 1
           (state_of reply_a) (validated reply_a)
           [192; 12] [0; 0; 0; 60] [1; 2; 3; 4]).
  - apply (small_is_ssize 48). lia.
  - exact reply_a_accepted.
  - vm_compute. reflexivity.
  - vm_compute. reflexivity.
  - lia.
  - apply wire_pointer; unfold DNS_DNAME_COMPRESSION_MINVAL, is_byte; lia.
  - reflexivity.
  - reflexivity.
  - apply (bytes_at_block _ reply_a 32 16); [|exact reply_a_bytes].
    vm_compute. reflexivity.
  - vm_compute. discriminate.
  - reflexivity.
Defined.

(** The same scenario with an rdata length of 6: "bad packet". *)
Example chnip_check_rdata_length_6 :
  let pkt := sample_header 129 1 1 ++ www_google_com ++ [0; 1; 0; 1] ++
             [192; 12; 0; 1; 0; 1; 0; 0; 0; 60; 0; 6; 1; 2; 3; 4; 5; 6] in
  fst (sample_reply_check pkt) = Val true /\
  result (dns_chnip_check sample_ipset (at_packet 0) 50 16) (validated pkt)
    = Val DNS_IPCHK_BAD_PACKET.
Proof. vm_compute. split; reflexivity. Qed.

(** Inside [skip_name] the remaining length may become negative: a
    pointer with a single byte left makes it -1, and the function
    returns [false] without another read. *)
Example skip_name_negative_length :
  skip_name_loop 1 (at_packet 0) 1 (state_of [192])
    = (Val (Some (at_packet 2, -1)),
       State (heap_of [192]) [EvRead (at_packet 0)]) /\
  skip_name (at_packet 0) 1 (state_of [192])
    = (Val None, State (heap_of [192]) [EvRead (at_packet 0)]).
Proof. vm_compute. split; reflexivity. Qed.

(** * Further properties of the validator *)

Section Accepted.

Variable DNS_PACKET_MINSIZE : Z.
Variable DNS_PACKET_MAXSIZE : Z.
Variable DNS_NAME_ENC_MAXLEN : Z.

Hypothesis minsize_covers_header : sizeof_dns_header_t <= DNS_PACKET_MINSIZE.

Lemma header_qr_inv (header : pointer) (st st' : state) (v : Z) :
  header_qr header st = (Val v, st') ->
  exists flags, peek8 (heap st) (header .+ off_flags) = Some flags /\
                v = flags_qr flags /\ heap st' = heap st.
Proof.
  unfold header_qr. intros H. apply bind_Val_inv in H.
  destruct H as [b [st1 [Hb H]]]. injection H as <- <-.
  apply load_uchar_inv in Hb. destruct Hb as [Hb Hh]. exists b. auto.
Qed.

Lemma header_opcode_inv (header : pointer) (st st' : state) (v : Z) :
  header_opcode header st = (Val v, st') ->
  exists flags, peek8 (heap st) (header .+ off_flags) = Some flags /\
                v = flags_opcode flags /\ heap st' = heap st.
Proof.
  unfold header_opcode. intros H. apply bind_Val_inv in H.
  destruct H as [b [st1 [Hb H]]]. injection H as <- <-.
  apply load_uchar_inv in Hb. destruct Hb as [Hb Hh]. exists b. auto.
Qed.

(** What an accepted packet has in its header. *)
Lemma check_packet_accepts_header (is_query : bool) (packet_buf : pointer)
    (packet_len : Z) (name_buf p_namelen : option pointer) (st st' : state) :
  check_packet DNS_PACKET_MINSIZE DNS_PACKET_MAXSIZE DNS_NAME_ENC_MAXLEN
    is_query packet_buf packet_len name_buf p_namelen st = (Val true, st') ->
  exists flags,
    peek8 (heap st) (packet_buf .+ off_flags) = Some flags /\
    flags_qr flags = (if is_query then DNS_QR_QUERY else DNS_QR_REPLY) /\
    flags_opcode flags = DNS_OPCODE_QUERY /\
    peek16 (heap st) (packet_buf .+ off_question_count) = Some 1.
Proof.
  intros H. unfold check_packet in H.
  case_decide; [discriminate|]. case_decide; [discriminate|].
  apply bind_Val_inv in H. destruct H as [qr [st1 [Hqr H]]].
  apply header_qr_inv in Hqr. destruct Hqr as [flags [Hflags [-> Hh1]]].
  case_decide; [discriminate|].
  apply bind_Val_inv in H. destruct H as [opcode [st2 [Hop H]]].
  apply header_opcode_inv in Hop. destruct Hop as [flags' [Hflags' [-> Hh2]]].
  rewrite Hh1, Hflags in Hflags'. injection Hflags' as <-.
  case_decide; [discriminate|].
  apply bind_Val_inv in H. destruct H as [qc [st3 [Hqc H]]].
  apply ntohs_inv in Hqc. destruct Hqc as [Hqc _].
  rewrite Hh2, Hh1 in Hqc.
  case_decide; [discriminate|].
  exists flags. split; [exact Hflags|].
  split; [|split].
  - destruct (decide (flags_qr flags =
                      (if is_query then DNS_QR_QUERY else DNS_QR_REPLY)));
      [assumption|contradiction].
  - destruct (decide (flags_opcode flags = DNS_OPCODE_QUERY));
      [assumption|contradiction].
  - rewrite Hqc. f_equal.
    destruct (decide (qc = 1)); [assumption|contradiction].
Qed.

(** Acceptance is sound: a packet the validator accepts has a length
    within the bounds, the query/response bit of the direction asked
    for, the opcode of a standard query and a question count of 1; its
    question name ends at the first zero byte behind the header, the
    encoded length [namelen] of the name is within the bounds and has been
    stored in the slot; the question record fits in the packet behind the
    name and is of class Internet. *)
Theorem check_packet_accepts_sound (is_query : bool) (packet_buf : pointer)
    (packet_len : Z) (name_buf p_namelen : option pointer) (st st' : state) :
  is_ssize packet_len ->
  check_packet DNS_PACKET_MINSIZE DNS_PACKET_MAXSIZE DNS_NAME_ENC_MAXLEN
    is_query packet_buf packet_len name_buf p_namelen st = (Val true, st') ->
  exists flags namelen,
    DNS_PACKET_MINSIZE <= packet_len <= DNS_PACKET_MAXSIZE /\
    peek8 (heap st) (packet_buf .+ off_flags) = Some flags /\
    Z.testbit flags 7 = negb is_query /\
    flags_opcode flags = DNS_OPCODE_QUERY /\
    peek16 (heap st) (packet_buf .+ off_question_count) = Some 1 /\
    DNS_NAME_ENC_MINLEN <= namelen <= DNS_NAME_ENC_MAXLEN /\
    peek8 (heap st) (packet_buf .+ (sizeof_dns_header_t + namelen - 1))
      = Some 0 /\
    (forall j, 0 <= j < namelen - 1 ->
       peek8 (heap st) (packet_buf .+ (sizeof_dns_header_t + j)) <> Some 0) /\
    (forall slot, p_namelen = Some slot ->
       load_cell (heap st') slot = Some namelen) /\
    sizeof_dns_header_t + namelen + sizeof_dns_query_t <= packet_len /\
    peek16 (heap st')
      (packet_buf .+ (sizeof_dns_header_t + namelen + off_qclass))
      = Some DNS_CLASS_INTERNET.
Proof.
  intros Hss Hrun.
  destruct (check_packet_accepts_header _ _ _ _ _ _ _ Hrun)
    as [flags [Hflags [Hqr [Hop Hqc]]]].
  destruct (check_packet_inv _ _ _ minsize_covers_header _ _ _ _ _ _ _ _
              Hrun Hss)
    as [[Hfalse _]|[n [Hn [_ [Hlen [Hzero [Hbefore [Hstored Hiff]]]]]]]];
    [discriminate|].
  destruct Hiff as [Hiff _]. destruct (Hiff eq_refl) as [Hfit Hclass].
  exists flags, n.
  split; [exact Hlen|]. split; [exact Hflags|]. split.
  { rewrite flags_qr_testbit in Hqr. unfold DNS_QR_QUERY, DNS_QR_REPLY in Hqr.
    destruct (Z.testbit flags 7), is_query; simpl; try reflexivity;
      discriminate. }
  split; [exact Hop|]. split; [exact Hqc|]. split; [exact Hn|].
  split; [exact Hzero|]. split; [exact Hbefore|]. split; [exact Hstored|].
  split; [lia|exact Hclass].
Qed.

(** No packet is both a query and a reply: on a memory on which the
    query validator accepts, the reply validator does not, whatever the
    lengths and the output buffers the two are given; and the other way
    round. *)
Theorem query_and_reply_exclusive (packet_buf : pointer)
    (len_q len_r : Z) (name_q name_r slot_q slot_r : option pointer)
    (st st' : state) :
  (dns_query_check DNS_PACKET_MINSIZE DNS_PACKET_MAXSIZE DNS_NAME_ENC_MAXLEN
     packet_buf len_q name_q slot_q st = (Val true, st') ->
   result (dns_reply_check DNS_PACKET_MINSIZE DNS_PACKET_MAXSIZE
             DNS_NAME_ENC_MAXLEN packet_buf len_r name_r slot_r) st
     <> Val true) /\
  (dns_reply_check DNS_PACKET_MINSIZE DNS_PACKET_MAXSIZE DNS_NAME_ENC_MAXLEN
     packet_buf len_r name_r slot_r st = (Val true, st') ->
   result (dns_query_check DNS_PACKET_MINSIZE DNS_PACKET_MAXSIZE
             DNS_NAME_ENC_MAXLEN packet_buf len_q name_q slot_q) st
     <> Val true).
Proof.
  assert (Hboth : forall s_q s_r,
            check_packet DNS_PACKET_MINSIZE DNS_PACKET_MAXSIZE
              DNS_NAME_ENC_MAXLEN true packet_buf len_q name_q slot_q st
              = (Val true, s_q) ->
            check_packet DNS_PACKET_MINSIZE DNS_PACKET_MAXSIZE
              DNS_NAME_ENC_MAXLEN false packet_buf len_r name_r slot_r st
              = (Val true, s_r) -> False).
  { intros s_q s_r Hq Hr.
    destruct (check_packet_accepts_header _ _ _ _ _ _ _ Hq)
      as [fq [Hfq [Hqr_q _]]].
    destruct (check_packet_accepts_header _ _ _ _ _ _ _ Hr)
      as [fr [Hfr [Hqr_r _]]].
    rewrite Hfq in Hfr. injection Hfr as <-.
    rewrite Hqr_q in Hqr_r. discriminate. }
  unfold dns_query_check, dns_reply_check, result. split.
  - intros Hq Hr.
    destruct (check_packet _ _ _ false packet_buf len_r name_r slot_r st)
      as [r s_r] eqn:E. simpl in Hr. subst r. exact (Hboth _ _ Hq eq_refl).
  - intros Hr Hq.
    destruct (check_packet _ _ _ true packet_buf len_q name_q slot_q st)
      as [r s_q] eqn:E. simpl in Hq. subst r. exact (Hboth _ _ eq_refl Hr).
Qed.

End Accepted.

(** ** Acceptance of well-formed packets *)

Lemma list_find_first_zero (l r : list Z) :
  Forall (fun b => b <> 0) l ->
  list_find (fun b => b = 0) (l ++ 0 :: r) = Some (length l, 0).
Proof.
  induction 1 as [|x l Hx _ IH]; simpl.
  - reflexivity.
  - case_decide; [contradiction|]. rewrite IH. reflexivity.
Qed.

Lemma encode_labels_nonzero (ls : list (list Z)) :
  Forall label_ok ls -> Forall (Forall (fun b => b <> 0)) ls ->
  Forall (fun b => b <> 0) (encode_labels ls).
Proof.
  induction 1 as [|l ls [Hlen _] _ IH]; intros Hnz; simpl.
  - constructor.
  - inversion Hnz; subst. constructor; [lia|].
    apply Forall_app. split; [assumption|apply IH; assumption].
Qed.

Lemma encode_labels_bytes (ls : list (list Z)) :
  Forall label_ok ls -> Forall is_byte (encode_labels ls).
Proof.
  induction 1 as [|l ls [Hlen Hb] _ IH]; simpl.
  - constructor.
  - constructor; [unfold is_byte; lia|].
    apply Forall_app. split; assumption.
Qed.

Lemma bytes_at_frame (m m' : mem) (p : pointer) (l : list Z) :
  (forall q, blk q = blk p -> load_cell m' q = load_cell m q) ->
  bytes_at m p l -> bytes_at m' p l.
Proof.
  intros Hsame. apply bytes_at_same_cells. intros i _. apply Hsame.
  reflexivity.
Qed.

Lemma cells_at_frame (m m' : mem) (p : pointer) (l : list Z) :
  (forall q, blk q = blk p -> load_cell m' q = load_cell m q) ->
  cells_at m p l -> cells_at m' p l.
Proof.
  intros Hsame. apply cells_at_same. intros i _. apply Hsame. reflexivity.
Qed.

(** [decode_name] on the labels [ls] and their terminating zero. *)
Lemma decode_name_text (m : mem) (out src : pointer) (ls : list (list Z)) :
  Forall label_ok ls ->
  bytes_at m src (encode_labels ls ++ [0]) ->
  Z.of_nat (length (encode_labels ls)) + 1 < 2 ^ 63 ->
  allocated m out (Z.max 2 (Z.of_nat (length (encode_labels ls)))) ->
  blk out <> blk src ->
  exists m',
    runs_to (decode_name out src (Z.of_nat (length (encode_labels ls)) + 1))
      m true m' /\
    cells_at m' out (dotted_name ls ++ [0]) /\
    (forall q, blk q <> blk out -> load_cell m' q = load_cell m q).
Proof.
  intros Hok Hsrc Hsmall Hout Hne.
  assert (Hframe : forall m', 
            runs_to (decode_name out src
                       (Z.of_nat (length (encode_labels ls)) + 1)) m true m' ->
            forall q, blk q <> blk out -> load_cell m' q = load_cell m q).
  { intros m' Hrun q Hq. eapply runs_to_frame; [exact Hrun| |].
    - apply decode_name_unchanged.
    - intros [Hb _]. contradiction. }
  destruct ls as [|l ls].
  - destruct (decode_name_root m out src (Z.of_nat (length (encode_labels [])) + 1))
      as [m' [Hrun Hcells]].
    + simpl. unfold DNS_NAME_ENC_MINLEN. lia.
    + intros i Hi. apply Hout. lia.
    + exists m'. split; [exact Hrun|]. split; [exact Hcells|].
      apply Hframe, Hrun.
  - destruct (decode_name_labels m out src
                (Z.of_nat (length (encode_labels (l :: ls))) + 1) l ls)
      as [m' [Hrun Hcells]]; try assumption.
    + reflexivity.
    + unfold is_ssize. lia.
    + intros i Hi. apply Hout. lia.
    + exists m'. split; [exact Hrun|]. split; [exact Hcells|].
      apply Hframe, Hrun.
Qed.

Section WellFormed.

Variable DNS_PACKET_MINSIZE : Z.
Variable DNS_PACKET_MAXSIZE : Z.
Variable DNS_NAME_ENC_MAXLEN : Z.

Hypothesis minsize_covers_header : sizeof_dns_header_t <= DNS_PACKET_MINSIZE.

(** Acceptance is complete: a packet of a length within the bounds whose
    header has the query/response bit of the direction asked for, the
    opcode of a standard query and a question count of 1, and whose
    question is a name of labels of 1 to 63 non-zero bytes, not longer
    than the ceiling once encoded, followed by a type and the class
    Internet, is accepted.  The name buffer then holds the text of the
    name and a NUL, the slot holds the encoded length of the name, and
    the packet is as it was. *)
Theorem check_packet_accepts_well_formed
    (is_query : bool) (packet_buf out slot : pointer) (m : mem)
    (hdr : list Z) (ls : list (list Z)) (qtype rest : list Z) (flags : Z) :
  let pkt := question_packet hdr ls qtype rest in
  let namelen := Z.of_nat (length (encode_labels ls)) + 1 in
  length hdr = 12%nat -> length qtype = 2%nat ->
  hdr !! 2%nat = Some flags -> Z.testbit flags 7 = negb is_query ->
  flags_opcode flags = DNS_OPCODE_QUERY ->
  hdr !! 4%nat = Some 0 -> hdr !! 5%nat = Some 1 ->
  Forall label_ok ls -> Forall (Forall (fun b => b <> 0)) ls ->
  namelen <= DNS_NAME_ENC_MAXLEN ->
  DNS_PACKET_MINSIZE <= Z.of_nat (length pkt) <= DNS_PACKET_MAXSIZE ->
  Z.of_nat (length pkt) < 2 ^ 63 ->
  bytes_at m packet_buf pkt ->
  allocated m out (Z.max 2 (namelen - 1)) -> is_Some (load_cell m slot) ->
  blk out <> blk packet_buf -> blk slot <> blk packet_buf ->
  blk slot <> blk out ->
  exists m',
    runs_to (check_packet DNS_PACKET_MINSIZE DNS_PACKET_MAXSIZE
               DNS_NAME_ENC_MAXLEN is_query packet_buf
               (Z.of_nat (length pkt)) (Some out) (Some slot)) m true m' /\
    cells_at m' out (dotted_name ls ++ [0]) /\
    load_cell m' slot = Some namelen /\
    bytes_at m' packet_buf pkt.
Proof.
  intros pkt namelen Hhdr Hqtype Hflags Hqr Hop Hq1 Hq0 Hok Hnz Hceil
    Hbounds Hsmall Hpkt Hout Hslot Hne_out Hne_slot Hne_so.
  pose proof minsize_covers_header as Hmin.
  set (enc := encode_labels ls) in *.
  set (e := length enc) in *.
  assert (Hlen : length pkt = (12 + e + 1 + 4 + length rest)%nat).
  { unfold pkt, question_packet. rewrite !length_app. fold enc. fold e.
    simpl. lia. }
  assert (Hafter : drop 12 pkt = enc ++ 0 :: qtype ++ [0; 1] ++ rest).
  { unfold pkt, question_packet. rewrite <- Hhdr, drop_app_length.
    reflexivity. }
  assert (Hfind : list_find (fun b => b = 0) (drop 12 pkt) = Some (e, 0)).
  { rewrite Hafter. apply list_find_first_zero.
    apply encode_labels_nonzero; assumption. }
  assert (Hname : bytes_at m (packet_buf .+ 12) (enc ++ [0])).
  { apply (bytes_at_drop _ _ _ 12) in Hpkt; [|lia].
    rewrite Hafter in Hpkt.
    change (enc ++ 0 :: qtype ++ [0; 1] ++ rest)
      with (enc ++ [0] ++ (qtype ++ [0; 1] ++ rest)) in Hpkt.
    rewrite app_assoc in Hpkt. apply bytes_at_app in Hpkt. apply Hpkt. }
  assert (Hlookup : forall i x, hdr !! i = Some x -> pkt !! i = Some x).
  { intros i x Hi. unfold pkt, question_packet.
    rewrite lookup_app_l; [exact Hi|]. eapply lookup_lt_Some, Hi. }
  pose proof (bytes_at_peek8 _ _ _ _ _ Hpkt (Hlookup _ _ Hflags)) as Hpeek.
  pose proof (bytes_at_peek16 _ _ _ _ _ _ Hpkt (Hlookup _ _ Hq1)
                (Hlookup _ _ Hq0)) as Hqc.
  assert (Hclass0 : pkt !! (12 + e + 1 + 2)%nat = Some 0 /\
                    pkt !! S (12 + e + 1 + 2)%nat = Some 1).
  { destruct qtype as [|t1 [|t0 [|]]]; try discriminate.
    unfold pkt, question_packet. fold enc.
    rewrite <- Hhdr. split.
    - rewrite lookup_app_r by lia. rewrite lookup_app_r by (fold e; lia).
      fold e. replace (length hdr + e + 1 + 2 - length hdr - e)%nat
        with 3%nat by lia. reflexivity.
    - rewrite lookup_app_r by lia. rewrite lookup_app_r by (fold e; lia).
      fold e. replace (S (length hdr + e + 1 + 2) - length hdr - e)%nat
        with 4%nat by lia. reflexivity. }
  destruct Hclass0 as [Hc1 Hc0].
  (* the decoder *)
  destruct (decode_name_text m out (packet_buf .+ 12) ls Hok Hname)
    as [m1 [Hdec [Htext Hframe1]]].
  { fold enc. fold e. lia. }
  { fold enc. fold e. intros i Hi. apply Hout. unfold namelen. lia. }
  { simpl. exact Hne_out. }
  fold enc in Hdec. fold e in Hdec.
  (* the store of the encoded length *)
  destruct (store_cell_is_Some m1 slot namelen) as [m2 Hm2].
  { rewrite Hframe1 by exact Hne_so. exact Hslot. }
  assert (Hframe2 : forall q, blk q <> blk slot ->
                              load_cell m2 q = load_cell m1 q).
  { intros q Hq. eapply load_store_ne; [exact Hm2|]. congruence. }
  assert (Hpkt2 : bytes_at m2 packet_buf pkt).
  { eapply bytes_at_frame; [|exact Hpkt]. intros q Hq.
    rewrite Hframe2, Hframe1; congruence. }
  exists m2. split; [|split; [|split]].
  - unfold check_packet.
    unfold sizeof_dns_header_t, sizeof_dns_query_t, off_question_count,
      off_flags, off_qclass, DNS_NAME_ENC_MINLEN, DNS_CLASS_INTERNET,
      DNS_OPCODE_QUERY in *.
    case_decide; [lia|]. case_decide; [lia|].
    eapply runs_to_bind; [apply runs_to_header_qr, Hpeek|].
    rewrite flags_qr_testbit, Hqr. unfold DNS_QR_QUERY, DNS_QR_REPLY.
    destruct (decide ((if negb is_query then 1 else 0)
                      <> (if is_query then 0 else 1))) as [Hbad|_].
    { destruct is_query; simpl in Hbad; contradiction. }
    eapply runs_to_bind; [apply runs_to_header_opcode, Hpeek|].
    case_decide; [contradiction|].
    eapply runs_to_bind; [apply runs_to_ntohs, Hqc|].
    case_decide; [lia|].
    rewrite (ssize_wrap_small (Z.of_nat (length pkt) - 12)) by lia.
    rewrite (size_wrap_small (Z.of_nat (length pkt) - 12)) by lia.
    replace (Z.to_nat (Z.of_nat (length pkt) - 12))
      with (length (drop 12 pkt)) by (rewrite length_drop; lia).
    eapply runs_to_bind.
    { apply runs_to_memchr. apply (bytes_at_drop _ _ _ 12); [lia|exact Hpkt]. }
    rewrite Hfind. simpl fmap. cbv beta iota.
    change (ofs (packet_buf .+ 12 .+ Z.of_nat e))
      with (ofs packet_buf + 12 + Z.of_nat e).
    change (ofs (packet_buf .+ 12)) with (ofs packet_buf + 12).
    replace (ofs packet_buf + 12 + Z.of_nat e + 1 - (ofs packet_buf + 12))
      with (Z.of_nat e + 1) by lia.
    rewrite (size_wrap_small (Z.of_nat e + 1)) by lia.
    case_decide; [lia|]. unfold namelen in Hceil. case_decide; [lia|].
    rewrite (ssize_wrap_small (Z.of_nat e + 1)) by lia.
    eapply runs_to_bind; [exact Hdec|]. simpl negb. cbv iota.
    eapply runs_to_bind; [apply runs_to_store, Hm2|].
    rewrite (ssize_wrap_small (Z.of_nat (length pkt) - 12 - (Z.of_nat e + 1)))
      by lia.
    case_decide; [lia|].
    eapply runs_to_bind.
    { apply runs_to_ntohs. rewrite !ptr_add_add.
      replace (12 + (Z.of_nat e + 1 + 2))
        with (Z.of_nat (12 + e + 1 + 2)) by lia.
      apply (bytes_at_peek16 _ _ _ _ _ _ Hpkt2 Hc1 Hc0). }
    destruct (decide (256 * 0 + 1 <> 1)) as [Hbad|_]; [lia|].
    apply runs_to_ret.
  - eapply cells_at_frame; [|exact Htext]. intros q Hq.
    apply Hframe2. congruence.
  - eapply load_store_eq, Hm2.
  - exact Hpkt2.
Qed.

End WellFormed.

(** ** The further properties on concrete packets *)

Lemma check_packet_accepts_sound_witness :
  exists flags namelen,
    sample_minsize <= 48 <= sample_maxsize /\
    peek8 (heap (state_of reply_a)) (at_packet 0 .+ off_flags) = Some flags /\
    Z.testbit flags 7 = negb false /\
    flags_opcode flags = DNS_OPCODE_QUERY /\
    peek16 (heap (state_of reply_a)) (at_packet 0 .+ off_question_count)
      = Some 1 /\
    DNS_NAME_ENC_MINLEN <= namelen <= sample_enc_maxlen /\
    peek8 (heap (state_of reply_a))
      (at_packet 0 .+ (sizeof_dns_header_t + namelen - 1)) = Some 0 /\
    (forall j, 0 <= j < namelen - 1 ->
       peek8 (heap (state_of reply_a))
         (at_packet 0 .+ (sizeof_dns_header_t + j)) <> Some 0) /\
    (forall slot, Some slot_0 = Some slot ->
       load_cell (heap (validated reply_a)) slot = Some namelen) /\
    sizeof_dns_header_t + namelen + sizeof_dns_query_t <= 48 /\
    peek16 (heap (validated reply_a))
      (at_packet 0 .+ (sizeof_dns_header_t + namelen + off_qclass))
      = Some DNS_CLASS_INTERNET.
Proof.
  apply (check_packet_accepts_sound sample_minsize sample_maxsize
           sample_enc_maxlen sample_minsize_covers_header false (at_packet 0)
           48 (Some name_buf_0) (Some slot_0) (state_of reply_a)
           (validated reply_a)).
  - apply (small_is_ssize 48). lia.
  - exact reply_a_accepted.
Defined.

Lemma query_a_accepted :
  sample_query_check query_a = (Val true, snd (sample_query_check query_a)).
Proof. vm_compute. reflexivity. Qed.

Lemma query_and_reply_exclusive_witness :
  result (dns_reply_check sample_minsize sample_maxsize sample_enc_maxlen
            (at_packet 0) 32 None None) (state_of query_a) <> Val true /\
  result (dns_query_check sample_minsize sample_maxsize sample_enc_maxlen
            (at_packet 0) 48 None None) (state_of reply_a) <> Val true.
Proof.
  split.
  - apply (query_and_reply_exclusive sample_minsize sample_maxsize
             sample_enc_maxlen (at_packet 0) 32 32
             (Some name_buf_0) None (Some slot_0) None (state_of query_a)
             (snd (sample_query_check query_a))).
    exact query_a_accepted.
  - apply (query_and_reply_exclusive sample_minsize sample_maxsize
             sample_enc_maxlen (at_packet 0) 48 48
             None (Some name_buf_0) None (Some slot_0) (state_of reply_a)
             (validated reply_a)).
    exact reply_a_accepted.
Defined.

Lemma labels_decide (ls : list (list Z)) :
  bool_decide (Forall label_ok ls) = true -> Forall label_ok ls.
Proof. apply bool_decide_eq_true_1. Qed.

Lemma nonzero_decide (ls : list (list Z)) :
  bool_decide (Forall (Forall (fun b => b <> 0)) ls) = true ->
  Forall (Forall (fun b => b <> 0)) ls.
Proof. apply bool_decide_eq_true_1. Qed.

Lemma check_packet_accepts_well_formed_witness :
  exists m',
    runs_to (check_packet sample_minsize sample_maxsize sample_enc_maxlen
               false (at_packet 0) 48 (Some name_buf_0) (Some slot_0))
      (heap_of reply_a) true m' /\
    cells_at m' name_buf_0 (www_google_com_text ++ [0]) /\
    load_cell m' slot_0 = Some 16 /\
    bytes_at m' (at_packet 0) reply_a.
Proof.
  apply (check_packet_accepts_well_formed sample_minsize sample_maxsize
           sample_enc_maxlen sample_minsize_covers_header false (at_packet 0)
           name_buf_0 slot_0 (heap_of reply_a) (sample_header 129 1 1)
           www_google_com_labels [0; 1]
           [192; 12; 0; 1; 0; 1; 0; 0; 0; 60; 0; 4; 1; 2; 3; 4] 129).
  - reflexivity.
  - reflexivity.
  - reflexivity.
  - reflexivity.
  - reflexivity.
  - reflexivity.
  - reflexivity.
  - apply labels_decide. vm_compute. reflexivity.
  - apply nonzero_decide. vm_compute. reflexivity.
  - vm_compute. discriminate.
  - vm_compute. split; discriminate.
  - vm_compute. reflexivity.
  - apply bytes_at_packet, bytes_decide. reflexivity.
  - apply allocated_name_buf. vm_compute. discriminate.
  - vm_compute. eauto.
  - discriminate.
  - discriminate.
  - discriminate.
Defined.

(** * Further properties of the scan *)

Lemma skip_name_loop_short (rname : list Z) :
  wire_name rname ->
  forall (fuel : nat) (m : mem) (ptr : pointer) (len : Z),
    bytes_at m ptr rname ->
    len < Z.of_nat (length rname) + sizeof_dns_record_t ->
    (Z.to_nat len <= fuel)%nat ->
    exists p l, runs_to (skip_name_loop fuel ptr len) m (Some (p, l)) m /\
                l < sizeof_dns_record_t.
Proof.
  unfold sizeof_dns_record_t.
  assert (Hstop : forall fuel m ptr len, len <= 0 ->
            exists p l,
              runs_to (skip_name_loop fuel ptr len) m (Some (p, l)) m /\
              l < 10).
  { intros fuel m ptr len Hlen. exists ptr, len. split; [|lia].
    destruct fuel; simpl; (case_decide; [lia|]); apply runs_to_ret. }
  induction 1 as [|c x Hc Hx|l rest [Hl Hbytes] Hrest IH];
    intros fuel m ptr len Hat Hlen Hfuel; simpl length in *;
    (destruct (decide (len <= 0)) as [Hle|Hpos]; [apply Hstop, Hle|]);
    (destruct fuel as [|fuel]; [lia|]); simpl;
    (destruct (decide (len > 0)) as [_|Hn]; [|lia]);
    apply bytes_at_cons in Hat; destruct Hat as [Hb [_ Hat]].
  - exists (ptr .+ 1), (len - 1). split; [|lia].
    eapply runs_to_bind; [apply runs_to_load_uchar, Hb|].
    case_decide; [|lia]. apply runs_to_ret.
  - exists (ptr .+ 2), (len - 2). split; [|lia].
    eapply runs_to_bind; [apply runs_to_load_uchar, Hb|].
    unfold DNS_DNAME_COMPRESSION_MINVAL in *.
    case_decide; [lia|]. case_decide; [|lia]. apply runs_to_ret.
  - rewrite length_app in Hlen.
    apply bytes_at_app in Hat. destruct Hat as [_ Hat].
    rewrite ptr_add_add in Hat.
    destruct (IH fuel m (ptr .+ (1 + Z.of_nat (length l)))
                (len - (1 + Z.of_nat (length l))) Hat ltac:(lia) ltac:(lia))
      as [p [l' [Hrun Hl']]].
    exists p, l'. split; [|exact Hl'].
    eapply runs_to_bind; [apply runs_to_load_uchar, Hb|].
    unfold DNS_DNAME_COMPRESSION_MINVAL, DNS_DNAME_LABEL_MAXLEN.
    case_decide; [lia|]. case_decide; [lia|]. case_decide; [lia|].
    exact Hrun.
Qed.

(** A name in wire form behind which the fixed fields of a record do
    not fit is refused. *)
Lemma skip_name_wire_short (rname : list Z) (m : mem) (ptr : pointer)
    (len : Z) :
  wire_name rname -> bytes_at m ptr rname ->
  len < Z.of_nat (length rname) + sizeof_dns_record_t ->
  runs_to (skip_name ptr len) m None m.
Proof.
  intros Hname Hat Hfit.
  destruct (skip_name_loop_short rname Hname (Z.to_nat len) m ptr len Hat
              Hfit (le_n _)) as [p [l [Hrun Hl]]].
  unfold skip_name. eapply runs_to_bind; [exact Hrun|].
  simpl. case_decide; [|lia]. apply runs_to_ret.
Qed.

(** On a name in wire form, labels and then a zero byte or a two-byte
    compression pointer, [skip_name] succeeds exactly when the name and
    the ten bytes of fixed fields of a record fit in the remaining
    length: the cursor is then moved past the name, a compression pointer
    counting for its two bytes, and the length is reduced by as much.
    When they do not fit it returns [false].  The memory is not
    changed. *)
Theorem skip_name_on_wire_name (rname : list Z) (m : mem) (ptr : pointer)
    (len : Z) :
  wire_name rname -> bytes_at m ptr rname ->
  runs_to (skip_name ptr len) m
    (if decide (len < Z.of_nat (length rname) + sizeof_dns_record_t)
     then None
     else Some (ptr .+ Z.of_nat (length rname),
                len - Z.of_nat (length rname))) m.
Proof.
  intros Hname Hat. case_decide as Hfit.
  - apply (skip_name_wire_short rname); assumption.
  - apply skip_name_wire; [exact Hname|exact Hat|lia].
Qed.

(** ** Records on the wire *)

Lemma be16_value (v : Z) : 256 * (v / 256) + v mod 256 = v.
Proof. symmetry. apply Z.div_mod. lia. Qed.

Lemma rr_fixed_fields (m : mem) (record : pointer)
    (rtype rclass : Z) (ttl : list Z) (rdatalen : Z) (rest : list Z) :
  length ttl = 4%nat ->
  bytes_at m record (rr_fixed rtype rclass ttl rdatalen ++ rest) ->
  peek16 m (record .+ off_rtype) = Some rtype /\
  peek16 m (record .+ off_rclass) = Some rclass /\
  peek16 m (record .+ off_rdatalen) = Some rdatalen /\
  bytes_at m (record .+ off_rdata) rest.
Proof.
  intros Httl Hat.
  destruct ttl as [|t0 [|t1 [|t2 [|t3 [|]]]]]; try discriminate.
  unfold rr_fixed, be16 in Hat. simpl app in Hat.
  unfold off_rtype, off_rclass, off_rdatalen, off_rdata.
  split; [|split; [|split]].
  - pose proof (bytes_at_peek16 _ _ _ 0 _ _ Hat eq_refl eq_refl) as H.
    rewrite be16_value in H. exact H.
  - pose proof (bytes_at_peek16 _ _ _ 2 _ _ Hat eq_refl eq_refl) as H.
    rewrite be16_value in H. exact H.
  - pose proof (bytes_at_peek16 _ _ _ 8 _ _ Hat eq_refl eq_refl) as H.
    rewrite be16_value in H. exact H.
  - apply (bytes_at_drop _ _ _ 10) in Hat; [exact Hat|simpl; lia].
Qed.

Lemma length_rr_fixed (rtype rclass : Z) (ttl : list Z) (rdatalen : Z) :
  length ttl = 4%nat ->
  length (rr_fixed rtype rclass ttl rdatalen) = 10%nat.
Proof.
  intros H. unfold rr_fixed, be16. rewrite !length_app, H. reflexivity.
Qed.

Lemma length_encode_rr (r : rr) :
  rr_ok r ->
  Z.of_nat (length (encode_rr r)) =
  Z.of_nat (length (rr_name r)) + sizeof_dns_record_t +
  Z.of_nat (length (rr_rdata r)).
Proof.
  intros [_ Httl]. unfold encode_rr, sizeof_dns_record_t.
  rewrite !length_app, (length_rr_fixed _ _ _ _ Httl). lia.
Qed.

(** What the scan finds at a record whose name is in wire form and
    whose fixed fields fit in the remaining length. *)
Lemma record_at_cursor (m : mem) (ptr : pointer) (len : Z)
    (rname : list Z) (rtype rclass : Z) (ttl : list Z) (rdatalen : Z)
    (rest : list Z) :
  wire_name rname -> length ttl = 4%nat ->
  bytes_at m ptr (rname ++ rr_fixed rtype rclass ttl rdatalen ++ rest) ->
  Z.of_nat (length rname) + sizeof_dns_record_t <= len ->
  let record := ptr .+ Z.of_nat (length rname) in
  runs_to (skip_name ptr len) m
    (Some (record, len - Z.of_nat (length rname))) m /\
  peek16 m (record .+ off_rtype) = Some rtype /\
  peek16 m (record .+ off_rclass) = Some rclass /\
  peek16 m (record .+ off_rdatalen) = Some rdatalen /\
  bytes_at m (record .+ off_rdata) rest.
Proof.
  intros Hname Httl Hat Hfit record.
  apply bytes_at_app in Hat. destruct Hat as [Hrname Hfields].
  split; [apply skip_name_wire; assumption|].
  apply (rr_fixed_fields m record rtype rclass ttl rdatalen rest Httl Hfields).
Qed.

Section ScanRecords.

Variable ipset_addr_is_exists : list Z -> bool -> bool.

Lemma runs_to_chnip_record (m : mem) (ptr : pointer) (len : Z)
    (r : scan_step) :
  (forall st, heap st = m ->
     result (chnip_record ipset_addr_is_exists ptr len) st = Val r) ->
  runs_to (chnip_record ipset_addr_is_exists ptr len) m r m.
Proof.
  intros H st Hst. split; [apply H, Hst|].
  rewrite <- Hst. apply chnip_record_same_heap.
Qed.

(** A record of another type is stepped over. *)
Lemma chnip_record_steps_over (m : mem) (ptr : pointer) (len : Z)
    (r : rr) (rest : list Z) :
  rr_other r -> bytes_at m ptr (encode_rr r ++ rest) ->
  Z.of_nat (length (encode_rr r)) <= len ->
  runs_to (chnip_record ipset_addr_is_exists ptr len) m
    (Next (ptr .+ Z.of_nat (length (encode_rr r)))
       (len - Z.of_nat (length (encode_rr r)))) m.
Proof.
  intros [Hok [Hclass [HnA HnAAAA]]] Hat Hfit.
  pose proof (length_encode_rr r Hok) as Hlen. destruct Hok as [Hname Httl].
  unfold encode_rr in Hat. rewrite <- !app_assoc in Hat.
  assert (Hhead : Z.of_nat (length (rr_name r)) + sizeof_dns_record_t <= len)
    by lia.
  destruct (record_at_cursor m ptr len _ _ _ _ _ _ Hname Httl Hat Hhead)
    as [Hskip [Htype [Hcl [Hrdl _]]]].
  apply runs_to_chnip_record. intros st Hst. subst m.
  assert (Hfit' : sizeof_dns_record_t + Z.of_nat (length (rr_rdata r))
                  <= len - Z.of_nat (length (rr_name r))) by lia.
  rewrite Hclass in Hcl.
  destruct (chnip_record_other ipset_addr_is_exists ptr len st _ _ _ _
              (runs_to_result _ _ _ _ _ Hskip eq_refl)
              Hcl Hrdl Hfit' Htype HnA HnAAAA) as [Hres _].
  rewrite Hres, ptr_add_add. f_equal. f_equal; [f_equal|]; lia.
Qed.

(** The records of other types in front of the cursor are stepped over
    one after the other. *)
Lemma chnip_loop_steps_over (others : list rr) :
  forall (m : mem) (k : nat) (ptr : pointer) (len : Z) (rest : list Z)
         (v : dns_ipchk),
    Forall rr_other others ->
    bytes_at m ptr (encode_rrs others ++ rest) ->
    Z.of_nat (length (encode_rrs others)) <= len ->
    runs_to (chnip_loop ipset_addr_is_exists k
               (ptr .+ Z.of_nat (length (encode_rrs others)))
               (len - Z.of_nat (length (encode_rrs others)))) m v m ->
    runs_to (chnip_loop ipset_addr_is_exists (length others + k) ptr len)
      m v m.
Proof.
  induction others as [|r others IH]; intros m k ptr len rest v Hall Hat Hfit
    Hrun.
  - simpl in *. rewrite ptr_add_0, Z.sub_0_r in Hrun. exact Hrun.
  - apply Forall_cons in Hall. destruct Hall as [Hr Hall].
    change (encode_rrs (r :: others))
      with (encode_rr r ++ encode_rrs others) in *.
    rewrite length_app in Hfit, Hrun. rewrite <- app_assoc in Hat.
    simpl chnip_loop.
    eapply runs_to_bind.
    { eapply chnip_record_steps_over; [exact Hr|exact Hat|lia]. }
    simpl. apply bytes_at_app in Hat. destruct Hat as [_ Hat].
    eapply IH; [exact Hall|exact Hat|lia|].
    rewrite ptr_add_add.
    replace (Z.of_nat (length (encode_rr r)) +
             Z.of_nat (length (encode_rrs others)))
      with (Z.of_nat (length (encode_rr r) + length (encode_rrs others)))
      by lia.
    replace (len - Z.of_nat (length (encode_rr r)) -
             Z.of_nat (length (encode_rrs others)))
      with (len - Z.of_nat (length (encode_rr r) + length (encode_rrs others)))
      by lia.
    exact Hrun.
Qed.

(** The scan of a packet whose answer section starts with records of
    other types, fewer than the header counts, comes to the record
    behind them with answers left. *)
Lemma dns_chnip_check_steps_over (packet_buf : pointer)
    (packet_len namelen answer_count : Z) (m : mem)
    (others : list rr) (rest : list Z) (v : dns_ipchk) :
  0 <= namelen -> packet_len < 2 ^ 63 ->
  peek16 m (packet_buf .+ off_answer_count) = Some answer_count ->
  Forall rr_other others ->
  Z.of_nat (length others) < answer_count ->
  bytes_at m
    (packet_buf .+ (sizeof_dns_header_t + namelen + sizeof_dns_query_t))
    (encode_rrs others ++ rest) ->
  sizeof_dns_header_t + namelen + sizeof_dns_query_t +
    Z.of_nat (length (encode_rrs others)) <= packet_len ->
  (forall k,
     runs_to (chnip_loop ipset_addr_is_exists (S k)
                (packet_buf .+ (sizeof_dns_header_t + namelen +
                                sizeof_dns_query_t +
                                Z.of_nat (length (encode_rrs others))))
                (packet_len - (sizeof_dns_header_t + namelen +
                               sizeof_dns_query_t +
                               Z.of_nat (length (encode_rrs others)))))
       m v m) ->
  runs_to (dns_chnip_check ipset_addr_is_exists packet_buf packet_len namelen)
    m v m.
Proof.
  unfold sizeof_dns_header_t, sizeof_dns_query_t.
  intros Hn Hss Hcount Hall Hless Hat Hfit Hrun.
  unfold dns_chnip_check.
  eapply runs_to_bind; [apply runs_to_ntohs, Hcount|].
  unfold sizeof_dns_header_t, sizeof_dns_query_t.
  rewrite (size_wrap_small (12 + namelen + 4)) by lia.
  rewrite ssize_wrap_small by lia.
  replace (Z.to_nat answer_count)
    with (length others + S (Z.to_nat answer_count - length others - 1))%nat
    by lia.
  eapply chnip_loop_steps_over; [exact Hall|exact Hat|lia|].
  rewrite ptr_add_add.
  replace (packet_len - (12 + namelen + 4) -
           Z.of_nat (length (encode_rrs others)))
    with (packet_len - (12 + namelen + 4 +
                        Z.of_nat (length (encode_rrs others)))) by lia.
  apply Hrun.
Qed.

End ScanRecords.

Section ScanVerdicts.

Variable ipset_addr_is_exists : list Z -> bool -> bool.

(** An address record under the cursor decides the scan. *)
Lemma chnip_record_decides (m : mem) (ptr : pointer) (len : Z)
    (a : rr) (is_ipv4 : bool) (rest : list Z) :
  rr_address is_ipv4 a -> bytes_at m ptr (encode_rr a ++ rest) ->
  Z.of_nat (length (encode_rr a)) <= len ->
  runs_to (chnip_record ipset_addr_is_exists ptr len) m
    (Verdict (if ipset_addr_is_exists (rr_rdata a) is_ipv4
              then DNS_IPCHK_IS_CHNIP else DNS_IPCHK_NOT_CHNIP)) m.
Proof.
  intros [Hok [Hclass [Hty Hwidth]]] Hat Hfit.
  pose proof (length_encode_rr a Hok) as Hlen. destruct Hok as [Hname Httl].
  unfold encode_rr in Hat. rewrite <- !app_assoc in Hat.
  assert (Hhead : Z.of_nat (length (rr_name a)) + sizeof_dns_record_t <= len)
    by lia.
  destruct (record_at_cursor m ptr len _ _ _ _ _ _ Hname Httl Hat Hhead)
    as [Hskip [Htype [Hcl [Hrdl Hrdata]]]].
  apply bytes_at_app in Hrdata. destruct Hrdata as [Hrdata _].
  apply runs_to_chnip_record. intros st Hst. subst m.
  assert (Hfit' : sizeof_dns_record_t + Z.of_nat (length (rr_rdata a))
                  <= len - Z.of_nat (length (rr_name a))) by lia.
  rewrite Hclass in Hcl.
  destruct (chnip_record_address ipset_addr_is_exists ptr len st _ _ _ _
              is_ipv4 (runs_to_result _ _ _ _ _ Hskip eq_refl)
              Hcl Hrdl Hfit' Htype Hty) as [s1 [Hs1 Hrec]].
  unfold result. rewrite Hrec. clear Hrec.
  destruct (decide (Z.of_nat (length (rr_rdata a)) <>
                    (if is_ipv4 then IPV4_BINADDR_LEN
                     else IPV6_BINADDR_LEN))) as [Hne|_]; [contradiction|].
  destruct (runs_to_ipset_query ipset_addr_is_exists (heap st)
              (ptr .+ Z.of_nat (length (rr_name a)) .+ off_rdata)
              (rr_rdata a) is_ipv4 Hrdata Hwidth s1 Hs1) as [Hr _].
  rewrite (bind_result_Val _ _ _ _ Hr). reflexivity.
Qed.

(** A record under the cursor that breaks the structure ends the scan. *)
Lemma chnip_record_broken (m : mem) (ptr : pointer) (len : Z)
    (rname : list Z) (rtype rclass : Z) (ttl : list Z) (rdatalen : Z) :
  wire_name rname -> length ttl = 4%nat ->
  bytes_at m ptr (rname ++ rr_fixed rtype rclass ttl rdatalen) ->
  len < Z.of_nat (length rname) + sizeof_dns_record_t \/
  rclass <> DNS_CLASS_INTERNET \/
  len < Z.of_nat (length rname) + sizeof_dns_record_t + rdatalen \/
  (rtype = DNS_RECORD_TYPE_A /\ rdatalen <> IPV4_BINADDR_LEN) \/
  (rtype = DNS_RECORD_TYPE_AAAA /\ rdatalen <> IPV6_BINADDR_LEN) ->
  runs_to (chnip_record ipset_addr_is_exists ptr len) m
    (Verdict DNS_IPCHK_BAD_PACKET) m.
Proof.
  intros Hname Httl Hat Hbad.
  apply runs_to_chnip_record. intros st Hst. subst m.
  destruct (decide (len < Z.of_nat (length rname) + sizeof_dns_record_t))
    as [Hshort|Hhead].
  { pose proof (skip_name_wire_short rname (heap st) ptr len Hname
                  (proj1 (proj1 (bytes_at_app _ _ _ _) Hat)) Hshort)
      as Hskip.
    unfold chnip_record, result.
    rewrite (bind_result_Val _ _ _ _ (runs_to_result _ _ _ _ _ Hskip eq_refl)).
    reflexivity. }
  rewrite <- (app_nil_r (rr_fixed rtype rclass ttl rdatalen)) in Hat.
  destruct (record_at_cursor (heap st) ptr len _ _ _ _ _ _ Hname Httl Hat
              ltac:(lia)) as [Hskip [Htype [Hcl [Hrdl _]]]].
  pose proof (runs_to_result _ _ _ _ _ Hskip eq_refl) as Hskipped.
  destruct (decide (rclass <> DNS_CLASS_INTERNET \/
                    len - Z.of_nat (length rname)
                      < sizeof_dns_record_t + rdatalen)) as [Hrec|Hpass].
  { eapply chnip_record_bad; eassumption. }
  assert (Hclass : rclass = DNS_CLASS_INTERNET).
  { destruct (decide (rclass = DNS_CLASS_INTERNET)); [assumption|].
    exfalso. apply Hpass. left. assumption. }
  assert (Hfit : sizeof_dns_record_t + rdatalen
                 <= len - Z.of_nat (length rname)).
  { destruct (decide (sizeof_dns_record_t + rdatalen
                      <= len - Z.of_nat (length rname))); [assumption|].
    exfalso. apply Hpass. right. lia. }
  subst rclass.
  assert (Haddr : exists is_ipv4 : bool,
            rtype = (if is_ipv4 then DNS_RECORD_TYPE_A
                     else DNS_RECORD_TYPE_AAAA) /\
            rdatalen <> (if is_ipv4 then IPV4_BINADDR_LEN
                         else IPV6_BINADDR_LEN)).
  { destruct Hbad as [H|[H|[H|[[H1 H2]|[H1 H2]]]]];
      [lia|contradiction|lia|exists true; auto|exists false; auto]. }
  destruct Haddr as [is_ipv4 [Hty Hwidth]].
  destruct (chnip_record_address ipset_addr_is_exists ptr len st _ _ _ _
              is_ipv4 Hskipped Hcl Hrdl Hfit Htype Hty) as [s1 [_ Hrec]].
  unfold result. rewrite Hrec.
  destruct (decide (rdatalen <> (if is_ipv4 then IPV4_BINADDR_LEN
                                 else IPV6_BINADDR_LEN)));
    [reflexivity|contradiction].
Qed.

(** The first address record decides.  The answer section starts with
    records of class Internet and of types other than A and AAAA, fewer
    than the header counts, and an address record of class Internet
    follows them inside the packet: a record of type A with four bytes of
    data or one of type AAAA with sixteen.  Then the scan returns "in
    range" if the membership set of the family holds the address and "not
    in range" if it does not, whatever follows the record, and the memory
    is as it was. *)
Theorem chnip_check_first_address
    (packet_buf : pointer) (packet_len namelen answer_count : Z) (m : mem)
    (others : list rr) (a : rr) (is_ipv4 : bool) (rest : list Z) :
  0 <= namelen -> packet_len < 2 ^ 63 ->
  peek16 m (packet_buf .+ off_answer_count) = Some answer_count ->
  Forall rr_other others ->
  Z.of_nat (length others) < answer_count ->
  rr_address is_ipv4 a ->
  bytes_at m
    (packet_buf .+ (sizeof_dns_header_t + namelen + sizeof_dns_query_t))
    (encode_rrs others ++ encode_rr a ++ rest) ->
  sizeof_dns_header_t + namelen + sizeof_dns_query_t +
    Z.of_nat (length (encode_rrs others ++ encode_rr a)) <= packet_len ->
  runs_to (dns_chnip_check ipset_addr_is_exists packet_buf packet_len namelen)
    m
    (if ipset_addr_is_exists (rr_rdata a) is_ipv4
     then DNS_IPCHK_IS_CHNIP else DNS_IPCHK_NOT_CHNIP) m.
Proof.
  intros Hn Hss Hcount Hall Hless Haddr Hat Hfit.
  rewrite length_app in Hfit.
  eapply dns_chnip_check_steps_over; try eassumption; [lia|].
  intros k. simpl chnip_loop.
  apply bytes_at_app in Hat. destruct Hat as [_ Hat].
  rewrite ptr_add_add in Hat.
  eapply runs_to_bind.
  - eapply chnip_record_decides; [exact Haddr|exact Hat|lia].
  - apply runs_to_ret.
Qed.

(** A broken record ends the scan.  The answer section starts with
    records of class Internet and of types other than A and AAAA, fewer
    than the header counts, which fit in the packet; behind them stand a
    name in wire form and the fixed fields of a record.  If the packet
    ends before the end of the fixed fields, if the class is not
    Internet, if the declared length of the data runs past the end of
    the packet, or if the type is A (is AAAA) and the declared length is
    not 4 (not 16), the scan returns "bad packet", and the memory is as
    it was. *)
Theorem chnip_check_bad_packet
    (packet_buf : pointer) (packet_len namelen answer_count : Z) (m : mem)
    (others : list rr) (rname : list Z) (rtype rclass : Z) (ttl : list Z)
    (rdatalen : Z) :
  0 <= namelen -> packet_len < 2 ^ 63 ->
  peek16 m (packet_buf .+ off_answer_count) = Some answer_count ->
  Forall rr_other others ->
  Z.of_nat (length others) < answer_count ->
  wire_name rname -> length ttl = 4%nat ->
  bytes_at m
    (packet_buf .+ (sizeof_dns_header_t + namelen + sizeof_dns_query_t))
    (encode_rrs others ++ rname ++ rr_fixed rtype rclass ttl rdatalen) ->
  let cursor := sizeof_dns_header_t + namelen + sizeof_dns_query_t +
                Z.of_nat (length (encode_rrs others)) in
  cursor <= packet_len ->
  packet_len < cursor + Z.of_nat (length rname) + sizeof_dns_record_t \/
  rclass <> DNS_CLASS_INTERNET \/
  packet_len
    < cursor + Z.of_nat (length rname) + sizeof_dns_record_t + rdatalen \/
  (rtype = DNS_RECORD_TYPE_A /\ rdatalen <> IPV4_BINADDR_LEN) \/
  (rtype = DNS_RECORD_TYPE_AAAA /\ rdatalen <> IPV6_BINADDR_LEN) ->
  runs_to (dns_chnip_check ipset_addr_is_exists packet_buf packet_len namelen)
    m DNS_IPCHK_BAD_PACKET m.
Proof.
  intros Hn Hss Hcount Hall Hless Hname Httl Hat cursor Hfit Hbad.
  eapply dns_chnip_check_steps_over; try eassumption.
  intros k. simpl chnip_loop.
  apply bytes_at_app in Hat. destruct Hat as [_ Hat].
  rewrite ptr_add_add in Hat. fold cursor. fold cursor in Hat.
  eapply runs_to_bind.
  - eapply chnip_record_broken; [exact Hname|exact Httl|exact Hat|].
    destruct Hbad as [H|[H|[H|[H|H]]]];
      [left; lia|right; left; exact H|right; right; left; lia|
       right; right; right; left; exact H|
       right; right; right; right; exact H].
  - apply runs_to_ret.
Qed.

End ScanVerdicts.

Lemma wire_name_pointer_12 : wire_name [192; 12].
Proof.
  apply wire_pointer; unfold DNS_DNAME_COMPRESSION_MINVAL, is_byte; lia.
Qed.

Lemma skip_name_on_wire_name_witness :
  runs_to (skip_name (at_packet 32) 16) (heap_of reply_a)
    (Some (at_packet 34, 14)) (heap_of reply_a) /\
  runs_to (skip_name (at_packet 32) 11) (heap_of reply_a)
    None (heap_of reply_a).
Proof.
  split.
  - apply (skip_name_on_wire_name [192; 12] (heap_of reply_a)
             (at_packet 32) 16).
    + exact wire_name_pointer_12.
    + apply (bytes_at_block _ reply_a 32 2); [|exact reply_a_bytes].
      vm_compute. reflexivity.
  - apply (skip_name_on_wire_name [192; 12] (heap_of reply_a)
             (at_packet 32) 11).
    + exact wire_name_pointer_12.
    + apply (bytes_at_block _ reply_a 32 2); [|exact reply_a_bytes].
      vm_compute. reflexivity.
Defined.

Lemma reply_cname_a_bytes : Forall is_byte reply_cname_a.
Proof. apply bytes_decide. reflexivity. Qed.

Lemma answer_cname_other : rr_other answer_cname.
Proof.
  split; [split; [exact wire_name_pointer_12|reflexivity]|].
  split; [reflexivity|]. split; discriminate.
Qed.

Lemma chnip_check_first_address_witness :
  runs_to (dns_chnip_check sample_ipset (at_packet 0) 62 16)
    (heap_of reply_cname_a) DNS_IPCHK_IS_CHNIP (heap_of reply_cname_a).
Proof.
  apply (chnip_check_first_address sample_ipset (at_packet 0) 62 16 2
           (heap_of reply_cname_a) [answer_cname] answer_a true []).
  - lia.
  - lia.
  - vm_compute. reflexivity.
  - apply Forall_cons_2; [exact answer_cname_other|apply Forall_nil_2].
  - simpl. lia.
  - split; [split; [exact wire_name_pointer_12|reflexivity]|].
    split; [reflexivity|]. split; reflexivity.
  - apply (bytes_at_block _ reply_cname_a 32 30);
      [|exact reply_cname_a_bytes].
    vm_compute. reflexivity.
  - vm_compute. discriminate.
Defined.

Lemma chnip_check_bad_packet_witness :
  runs_to (dns_chnip_check sample_ipset (at_packet 0) 46 16)
    (heap_of reply_a) DNS_IPCHK_BAD_PACKET (heap_of reply_a).
Proof.
  apply (chnip_check_bad_packet sample_ipset (at_packet 0) 46 16 1
           (heap_of reply_a) [] [192; 12] 1 1 [0; 0; 0; 60] 4).
  - lia.
  - lia.
  - vm_compute. reflexivity.
  - apply Forall_nil_2.
  - simpl. lia.
  - exact wire_name_pointer_12.
  - reflexivity.
  - apply (bytes_at_block _ reply_a 32 12); [|exact reply_a_bytes].
    vm_compute. reflexivity.
  - vm_compute. discriminate.
  - right. right. left. vm_compute. reflexivity.
Defined.

(** * Further properties of [decode_name] *)

(** [decode_name] does not look at the last byte of its input: on
    labels of 1 to 63 bytes behind their length bytes followed by any
    byte [t], [len] being the length of the whole, it succeeds and
    leaves the labels joined by dots followed by [t] in the output.  The
    output ends with a NUL only when the input ends with a zero byte. *)
Theorem decode_name_keeps_last_byte (m : mem) (out src : pointer) (len : Z)
    (l : list Z) (ls : list (list Z)) (t : Z) :
  Forall label_ok (l :: ls) ->
  bytes_at m src (encode_labels (l :: ls) ++ [t]) ->
  len = Z.of_nat (length (encode_labels (l :: ls))) + 1 -> is_ssize len ->
  allocated m out (len - 1) -> blk out <> blk src ->
  exists m', runs_to (decode_name out src len) m true m' /\
             cells_at m' out (join_dots (l :: ls) ++ [t]).
Proof.
  unfold is_ssize. intros Hok Hsrc -> Hss Hout Hne.
  inversion Hok as [|? ? [Hlen Hbytes] Hok']; subst.
  simpl encode_labels in *. simpl length in *. rewrite length_app in *.
  set (n := length l) in *. set (k := length (encode_labels ls)) in *.
  simpl app in Hsrc.
  assert (Htail : length ((l ++ encode_labels ls) ++ [t]) = (n + k + 1)%nat).
  { rewrite !length_app. simpl. reflexivity. }
  destruct (decode_name_copy m out src _ _ Hsrc) as [m1 [Hcp [Hout1 [Hsrc1 _]]]].
  { rewrite Htail. eapply (fun H => H). intros i Hi. apply Hout. lia. }
  { exact Hne. }
  { lia. }
  pose proof (bytes_at_cons _ _ _ _ Hsrc1) as [Hx1 [_ Hrest1]].
  rewrite <- app_assoc in Hrest1, Hout1.
  apply bytes_at_app in Hrest1. destruct Hrest1 as [_ Hrest1]. fold n in Hrest1.
  apply bytes_at_app in Hrest1. destruct Hrest1 as [Henc1 _].
  apply cells_at_app in Hout1. destruct Hout1 as [Hl1 Hout1]. fold n in Hout1.
  apply cells_at_app in Hout1. destruct Hout1 as [Henc_out Hzero]. fold k in Hzero.
  destruct (decode_name_loop_labels ls (n + k)
              (out .+ Z.of_nat n) (src .+ 1 .+ Z.of_nat n) m1)
    as [m' [Hrun Hcells]]; try assumption.
  { fold k. lia. }
  assert (Hframe : forall q, ~ in_range (out .+ Z.of_nat n) (Z.of_nat k) q ->
                             load_cell m' q = load_cell m1 q).
  { intros q Hq. eapply runs_to_frame; [exact Hrun| |exact Hq].
    apply decode_name_loop_unchanged. intros i Hi.
    unfold in_range. simpl. split; [reflexivity|]. fold k in Hi. lia. }
  exists m'. split.
  - unfold decode_name, DNS_NAME_ENC_MINLEN. case_decide; [lia|].
    replace (Z.of_nat (S (n + k)) + 1 - 1)
      with (Z.of_nat (length ((l ++ encode_labels ls) ++ [t]))) at 1
      by (rewrite Htail; lia).
    eapply runs_to_bind; [exact Hcp|].
    replace (Z.to_nat (Z.of_nat (S (n + k)) + 1 - 1)) with (S (n + k)) by lia.
    simpl decode_name_loop.
    destruct (decide (Z.of_nat (S (n + k)) + 1 - 1 >= 2)) as [_|Hge]; [|lia].
    eapply runs_to_bind; [apply runs_to_ret|].
    eapply runs_to_bind; [apply runs_to_load_uchar, Hx1|].
    unfold DNS_DNAME_LABEL_MAXLEN.
    case_decide; [lia|]. case_decide; [lia|]. case_decide; [lia|].
    fold k in Hrun.
    replace (Z.of_nat (S (n + k)) + 1 - 1 - 1 - Z.of_nat n) with (Z.of_nat k)
      by lia.
    exact Hrun.
  - simpl join_dots. rewrite <- app_assoc.
    apply cells_at_app. fold n. split.
    + eapply cells_at_same; [|exact Hl1]. intros i Hi. fold n in Hi.
      apply Hframe. unfold in_range. simpl. lia.
    + apply cells_at_app. split; [exact Hcells|].
      rewrite length_dot_prefixed. fold k.
      eapply cells_at_same; [|exact Hzero]. intros i Hi. simpl in Hi.
      apply Hframe. unfold in_range. simpl. lia.
Qed.

Lemma decode_name_keeps_last_byte_witness :
  exists m',
    runs_to (decode_name name_buf_0 (at_packet 0) 10)
      (heap_of [1; 97; 2; 98; 98; 3; 99; 99; 99; 7]) true m' /\
    cells_at m' name_buf_0 [97; 46; 98; 98; 46; 99; 99; 99; 7].
Proof.
  apply (decode_name_keeps_last_byte
           (heap_of [1; 97; 2; 98; 98; 3; 99; 99; 99; 7]) name_buf_0
           (at_packet 0) 10 [97] [[98; 98]; [99; 99; 99]] 7).
  - apply labels_decide. vm_compute. reflexivity.
  - apply bytes_at_packet, bytes_decide. reflexivity.
  - reflexivity.
  - unfold is_ssize. lia.
  - apply allocated_name_buf. lia.
  - discriminate.
Defined.

(** * Memory safety *)

(** ** Where a fault can come from *)

Lemma grows_refl (st : state) : grows st st.
Proof.
  split; [exists []; rewrite app_nil_r; reflexivity|trivial].
Qed.

Lemma grows_trans (st1 st2 st3 : state) :
  grows st1 st2 -> grows st2 st3 -> grows st1 st3.
Proof.
  intros [[t1 H1] A1] [[t2 H2] A2]. split.
  - exists (t1 ++ t2). rewrite H2, H1, app_assoc. reflexivity.
  - intros p Hp. apply A2, A1, Hp.
Qed.

Lemma fault_cause_later (W : pointer -> Prop) (st1 st2 st3 : state) :
  grows st1 st2 -> fault_cause W st2 st3 -> fault_cause W st1 st3.
Proof.
  intros [[t1 H1] A1] Hcause.
  assert (Hnone : forall p, load_cell (heap st2) p = None ->
                            load_cell (heap st1) p = None).
  { intros p Hp. destruct (load_cell (heap st1) p) as [v|] eqn:E;
      [|reflexivity].
    destruct (A1 p) as [v' Hv']; [rewrite E; eauto|]. congruence. }
  destruct Hcause as [[t [p [Ht Hp]]]|[q [Hq Hp]]].
  - left. exists (t1 ++ t), p. split; [|apply Hnone, Hp].
    rewrite Ht, H1, <- !app_assoc. reflexivity.
  - right. exists q. split; [exact Hq|apply Hnone, Hp].
Qed.

Lemma faults_at_ret {A} (W : pointer -> Prop) (a : A) : faults_at W (mret a).
Proof. intros st. split; [apply grows_refl|discriminate]. Qed.

Lemma faults_at_out_of_fuel {A} (W : pointer -> Prop) :
  faults_at W (@out_of_fuel A).
Proof. intros st. split; [apply grows_refl|discriminate]. Qed.

Lemma faults_at_bind_value {A B} (W : pointer -> Prop) (Q : A -> Prop)
    (c : M A) (k : A -> M B) :
  (forall st a, result c st = Val a -> Q a) ->
  faults_at W c -> (forall a, Q a -> faults_at W (k a)) ->
  faults_at W (c ≫= k).
Proof.
  intros HQ Hc Hk st. specialize (HQ st).
  destruct (Hc st) as [Hg Hf].
  unfold result, final, mbind, M_MBind, M_bind in *.
  destruct (c st) as [[a| |] st1]; simpl in *.
  - destruct (Hk a (HQ a eq_refl) st1) as [Hg1 Hf1]. split.
    + eapply grows_trans; [exact Hg|exact Hg1].
    + intros E. eapply fault_cause_later; [exact Hg|apply Hf1, E].
  - split; [exact Hg|]. intros _. apply Hf. reflexivity.
  - split; [exact Hg|discriminate].
Qed.

Lemma faults_at_bind {A B} (W : pointer -> Prop) (c : M A) (k : A -> M B) :
  faults_at W c -> (forall a, faults_at W (k a)) -> faults_at W (c ≫= k).
Proof.
  intros Hc Hk. apply (faults_at_bind_value W (fun _ => True)); auto.
Qed.

Lemma faults_at_load (W : pointer -> Prop) (p : pointer) :
  faults_at W (load p).
Proof.
  intros st. unfold result, final, load.
  destruct (load_cell (heap st) p) as [v|] eqn:E; simpl.
  - split; [|discriminate]. split; [eauto|trivial].
  - split; [split; [eauto|trivial]|]. intros _. left.
    exists [], p. split; [reflexivity|exact E].
Qed.

Lemma faults_at_log (W : pointer -> Prop) (e : event) : faults_at W (log e).
Proof. intros st. split; [|discriminate]. split; [simpl; eauto|trivial]. Qed.

Lemma store_cell_fails (m : mem) (p : pointer) (v : Z) :
  store_cell m p v = None -> load_cell m p = None.
Proof.
  intros E. destruct (load_cell m p) as [x|] eqn:El; [|reflexivity].
  destruct (store_cell_is_Some m p v) as [m' Hm']; [rewrite El; eauto|].
  congruence.
Qed.

Lemma faults_at_store (W : pointer -> Prop) (p : pointer) (v : Z) :
  W p -> faults_at W (store p v).
Proof.
  intros HW st. unfold result, final, store.
  destruct (store_cell (heap st) p v) as [m'|] eqn:E; simpl.
  - split; [|discriminate]. split.
    + exists []. simpl. rewrite app_nil_r. reflexivity.
    + intros q Hq. simpl. eapply store_cell_allocated; eassumption.
  - split; [apply grows_refl|]. intros _. right.
    exists p. split; [exact HW|apply (store_cell_fails _ _ v), E].
Qed.

Lemma faults_at_mono {A} (W W' : pointer -> Prop) (c : M A) :
  (forall q, W q -> W' q) -> faults_at W c -> faults_at W' c.
Proof.
  intros HW Hc st. destruct (Hc st) as [Hg Hf]. split; [exact Hg|].
  intros E. destruct (Hf E) as [Hload|[q [Hq Hnone]]]; [left; exact Hload|].
  right. exists q. split; [apply HW, Hq|exact Hnone].
Qed.

(** A computation whose loads all fall on cells that exist and which
    stores into cells that exist only does not fault. *)
Lemma faults_at_safe {A} (S W : pointer -> Prop) (c : M A) (st : state) :
  faults_at W c -> reads_only S st (final c st) ->
  (forall p, S p -> is_Some (load_cell (heap st) p)) ->
  (forall q, W q -> is_Some (load_cell (heap st) q)) ->
  result c st <> Fault.
Proof.
  intros Hc [t' [Ht' Hall]] HS HW Hfault.
  destruct (Hc st) as [_ Hf].
  destruct (Hf Hfault) as [[t [p [Ht Hp]]]|[q [Hq Hnone]]].
  - rewrite Ht' in Ht. apply app_inv_head in Ht. subst t'.
    apply Forall_app in Hall. destruct Hall as [_ Hall].
    rewrite Forall_singleton in Hall. simpl in Hall.
    destruct (HS p Hall) as [v Hv]. congruence.
  - destruct (HW q Hq) as [v Hv]. congruence.
Qed.

Lemma returns_a_value {A} (c : M A) (st : state) :
  terminates c -> result c st <> Fault -> exists a, result c st = Val a.
Proof.
  intros Ht Hf. specialize (Ht st).
  destruct (result c st) as [a| |]; [eauto|contradiction|contradiction].
Qed.

Lemma in_range_allocated (m : mem) (base : pointer) (n : Z) (p : pointer) :
  allocated m base n -> in_range base n p -> is_Some (load_cell m p).
Proof.
  intros Hall [Hb Ho].
  replace p with (base .+ (ofs p - ofs base)); [apply Hall; lia|].
  destruct p as [b o], base as [b' o']. simpl in *. subst b'.
  unfold ptr_add. simpl. f_equal. lia.
Qed.

(** ** The routines fault on their loads and on their stores only *)

Ltac fbind := apply faults_at_bind; [|intros ?].
Ltac fret := apply faults_at_ret.

Lemma faults_at_load_uchar (W : pointer -> Prop) (p : pointer) :
  faults_at W (load_uchar p).
Proof. unfold load_uchar. fbind; [apply faults_at_load|fret]. Qed.

Lemma faults_at_ntohs (W : pointer -> Prop) (p : pointer) :
  faults_at W (ntohs p).
Proof.
  unfold ntohs. fbind; [apply faults_at_load_uchar|].
  fbind; [apply faults_at_load_uchar|fret].
Qed.

Lemma faults_at_load_bytes (W : pointer -> Prop) (n : nat) :
  forall p, faults_at W (load_bytes p n).
Proof.
  induction n as [|n IH]; intros p; simpl; [fret|].
  fbind; [apply faults_at_load_uchar|]. fbind; [apply IH|fret].
Qed.

Lemma faults_at_memchr (W : pointer -> Prop) (n : nat) (c : Z) :
  forall s, faults_at W (memchr s c n).
Proof.
  induction n as [|n IH]; intros s; simpl; [fret|].
  fbind; [apply faults_at_load_uchar|]. case_decide; [fret|apply IH].
Qed.

Lemma faults_at_memcpy (W : pointer -> Prop) (n : nat) :
  forall dst src,
    (forall i, 0 <= i < Z.of_nat n -> W (dst .+ i)) ->
    faults_at W (memcpy dst src n).
Proof.
  induction n as [|n IH]; intros dst src HW; simpl; [fret|].
  fbind; [apply faults_at_load|]. fbind.
  - apply faults_at_store. rewrite <- (ptr_add_0 dst). apply HW. lia.
  - apply IH. intros i Hi. rewrite ptr_add_add. apply HW. lia.
Qed.

Lemma faults_at_header_qr (W : pointer -> Prop) (header : pointer) :
  faults_at W (header_qr header).
Proof. unfold header_qr. fbind; [apply faults_at_load_uchar|fret]. Qed.

Lemma faults_at_header_opcode (W : pointer -> Prop) (header : pointer) :
  faults_at W (header_opcode header).
Proof. unfold header_opcode. fbind; [apply faults_at_load_uchar|fret]. Qed.

Lemma faults_at_decode_name_loop (W : pointer -> Prop) (fuel : nat) :
  forall (first : bool) (out src : pointer) (len : Z),
    (forall i, 0 <= i < len -> W (out .+ i)) ->
    faults_at W (decode_name_loop fuel first out src len).
Proof.
  induction fuel as [|fuel IH]; intros first out src len HW; simpl.
  - case_decide; [apply faults_at_out_of_fuel|]. case_decide; fret.
  - case_decide; [|case_decide; fret].
    apply (faults_at_bind_value W
             (fun o => o = if first then out else out .+ 1)).
    + intros st a. destruct first.
      * intros [= <-]. reflexivity.
      * unfold result, mbind, M_MBind, M_bind, store.
        destruct (store_cell (heap st) out 46); simpl; [|discriminate].
        intros [= <-]. reflexivity.
    + destruct first; [fret|]. fbind; [|fret].
      apply faults_at_store. rewrite <- (ptr_add_0 out). apply HW. lia.
    + intros out' ->. fbind; [apply faults_at_load_uchar|].
      repeat (case_decide; [fret|]).
      apply IH. intros i Hi.
      destruct first; rewrite ?ptr_add_add; apply HW; lia.
Qed.

Lemma faults_at_decode_name (out src : pointer) (len : Z) :
  faults_at (in_range out (Z.max 2 (len - 1))) (decode_name out src len).
Proof.
  assert (Hin : forall i, 0 <= i < Z.max 2 (len - 1) ->
                  in_range out (Z.max 2 (len - 1)) (out .+ i)).
  { intros i Hi. unfold in_range. simpl. split; [reflexivity|lia]. }
  unfold decode_name. case_decide.
  - fbind.
    { apply faults_at_store. specialize (Hin 0). rewrite ptr_add_0 in Hin.
      apply Hin. lia. }
    fbind; [apply faults_at_store, Hin; lia|fret].
  - unfold DNS_NAME_ENC_MINLEN in *. fbind.
    + apply faults_at_memcpy. intros i Hi. apply Hin.
      assert (size_wrap (len - 1) <= len - 1).
      { unfold size_wrap. apply Z.mod_le; lia. }
      lia.
    + apply faults_at_decode_name_loop. intros i Hi. apply Hin. lia.
Qed.

Lemma faults_at_skip_name_loop (W : pointer -> Prop) (fuel : nat) :
  forall ptr len, faults_at W (skip_name_loop fuel ptr len).
Proof.
  induction fuel as [|fuel IH]; intros ptr len; simpl.
  - case_decide; [apply faults_at_out_of_fuel|fret].
  - case_decide; [|fret]. fbind; [apply faults_at_load_uchar|].
    repeat (case_decide; [fret|]). apply IH.
Qed.

Lemma faults_at_skip_name (W : pointer -> Prop) (ptr : pointer) (len : Z) :
  faults_at W (skip_name ptr len).
Proof.
  unfold skip_name.
  apply faults_at_bind; [apply faults_at_skip_name_loop|].
  intros [[p l]|]; [|fret]. case_decide; fret.
Qed.

Section FaultsDns.

Variable DNS_PACKET_MINSIZE : Z.
Variable DNS_PACKET_MAXSIZE : Z.
Variable DNS_NAME_ENC_MAXLEN : Z.
Variable ipset_addr_is_exists : list Z -> bool -> bool.

Lemma faults_at_check_packet (is_query : bool) (packet_buf : pointer)
    (packet_len : Z) (name_buf p_namelen : option pointer) :
  faults_at (check_packet_writes DNS_NAME_ENC_MAXLEN name_buf p_namelen)
    (check_packet DNS_PACKET_MINSIZE DNS_PACKET_MAXSIZE DNS_NAME_ENC_MAXLEN
       is_query packet_buf packet_len name_buf p_namelen).
Proof.
  unfold check_packet.
  case_decide; [fret|]. case_decide; [fret|].
  fbind; [apply faults_at_header_qr|]. case_decide; [fret|].
  fbind; [apply faults_at_header_opcode|]. case_decide; [fret|].
  fbind; [apply faults_at_ntohs|]. case_decide; [fret|].
  apply faults_at_bind; [apply faults_at_memchr|].
  intros [p|]; [|fret].
  case_decide; [fret|]. case_decide; [fret|].
  apply faults_at_bind.
  { destruct name_buf as [out|]; [|fret].
    eapply faults_at_mono; [|apply faults_at_decode_name].
    intros q [Hb Ho]. left. exists out. split; [reflexivity|].
    split; [exact Hb|].
    pose proof (size_wrap_range
                  (ofs p + 1 - ofs (packet_buf .+ sizeof_dns_header_t)))
      as Hr.
    pose proof (ssize_wrap_le _ Hr). lia. }
  intros decoded. destruct decoded; simpl; [|fret].
  fbind.
  { destruct p_namelen as [slot|]; [|fret].
    apply faults_at_store. right. reflexivity. }
  case_decide; [fret|].
  fbind; [apply faults_at_ntohs|]. case_decide; fret.
Qed.

Lemma faults_at_ipset_query (W : pointer -> Prop) (rdata : pointer)
    (is_ipv4 : bool) :
  faults_at W (ipset_query ipset_addr_is_exists rdata is_ipv4).
Proof.
  unfold ipset_query. fbind; [apply faults_at_load_bytes|].
  fbind; [apply faults_at_log|fret].
Qed.

Lemma faults_at_chnip_record (W : pointer -> Prop) (ptr : pointer) (len : Z) :
  faults_at W (chnip_record ipset_addr_is_exists ptr len).
Proof.
  unfold chnip_record.
  apply faults_at_bind; [apply faults_at_skip_name|].
  intros [[record len']|]; [|fret].
  fbind; [apply faults_at_ntohs|]. case_decide; [fret|].
  fbind; [apply faults_at_ntohs|]. case_decide; [fret|].
  fbind; [apply faults_at_ntohs|].
  case_decide.
  - case_decide; [fret|]. fbind; [apply faults_at_ipset_query|fret].
  - case_decide; [|fret].
    case_decide; [fret|]. fbind; [apply faults_at_ipset_query|fret].
Qed.

Lemma faults_at_chnip_loop (W : pointer -> Prop) (n : nat) :
  forall ptr len, faults_at W (chnip_loop ipset_addr_is_exists n ptr len).
Proof.
  induction n as [|n IH]; intros ptr len; simpl; [fret|].
  apply faults_at_bind; [apply faults_at_chnip_record|].
  intros [v|p l]; [fret|apply IH].
Qed.

Lemma faults_at_dns_chnip_check (W : pointer -> Prop)
    (packet_buf : pointer) (packet_len namelen : Z) :
  faults_at W
    (dns_chnip_check ipset_addr_is_exists packet_buf packet_len namelen).
Proof.
  unfold dns_chnip_check. fbind; [apply faults_at_ntohs|].
  apply faults_at_chnip_loop.
Qed.

End FaultsDns.

(** ** No routine faults on memory that is there *)

(** [decode_name] is memory safe: when the [len] bytes of the input
    exist and the output buffer has [len - 1] cells, two at least, it
    returns a verdict: it neither faults nor runs on. *)
Theorem decode_name_never_faults (out src : pointer) (len : Z) (st : state) :
  allocated (heap st) src len ->
  allocated (heap st) out (Z.max 2 (len - 1)) ->
  exists decoded, result (decode_name out src len) st = Val decoded.
Proof.
  intros Hsrc Hout. apply returns_a_value; [apply terminates_decode_name|].
  eapply faults_at_safe.
  - apply faults_at_decode_name.
  - apply decode_name_reads.
  - intros p Hp. exact (in_range_allocated _ _ _ _ Hsrc Hp).
  - intros q Hq. exact (in_range_allocated _ _ _ _ Hout Hq).
Qed.

(** [skip_name] is memory safe: when the [len] bytes that remain exist,
    it returns, with the moved cursor or with [false]. *)
Theorem skip_name_never_faults (ptr : pointer) (len : Z) (st : state) :
  allocated (heap st) ptr len ->
  exists r, result (skip_name ptr len) st = Val r.
Proof.
  intros Hptr. apply returns_a_value; [apply terminates_skip_name|].
  eapply (faults_at_safe (in_range ptr len) (fun _ => False)).
  - apply faults_at_skip_name.
  - apply skip_name_reads. intros i Hi. unfold in_range. simpl.
    split; [reflexivity|lia].
  - intros p Hp. exact (in_range_allocated _ _ _ _ Hptr Hp).
  - contradiction.
Qed.

Section MemorySafety.

Variable DNS_PACKET_MINSIZE : Z.
Variable DNS_PACKET_MAXSIZE : Z.
Variable DNS_NAME_ENC_MAXLEN : Z.
Variable ipset_addr_is_exists : list Z -> bool -> bool.

Hypothesis minsize_covers_header : sizeof_dns_header_t <= DNS_PACKET_MINSIZE.

(** The validator is memory safe: when the [packet_len] bytes of the
    packet exist, the name buffer, if one is given, has
    [DNS_NAME_ENC_MAXLEN - 1] cells, two at least, and the slot of the
    encoded length, if one is given, exists, the validator returns
    [true] or [false]: it neither faults nor runs on, whatever the packet
    holds. *)
Theorem check_packet_never_faults (is_query : bool) (packet_buf : pointer)
    (packet_len : Z) (name_buf p_namelen : option pointer) (st : state) :
  is_ssize packet_len ->
  allocated (heap st) packet_buf packet_len ->
  (forall out, name_buf = Some out ->
     allocated (heap st) out (Z.max 2 (DNS_NAME_ENC_MAXLEN - 1))) ->
  (forall slot, p_namelen = Some slot -> is_Some (load_cell (heap st) slot)) ->
  exists accepted,
    result (check_packet DNS_PACKET_MINSIZE DNS_PACKET_MAXSIZE
              DNS_NAME_ENC_MAXLEN is_query packet_buf packet_len
              name_buf p_namelen) st = Val accepted.
Proof.
  intros Hss Hpkt Hout Hslot.
  apply returns_a_value; [apply terminates_check_packet|].
  eapply faults_at_safe.
  - apply faults_at_check_packet.
  - apply (check_packet_reads DNS_PACKET_MINSIZE DNS_PACKET_MAXSIZE
             DNS_NAME_ENC_MAXLEN minsize_covers_header is_query packet_buf
             packet_len name_buf p_namelen Hss st).
  - intros p Hp. exact (in_range_allocated _ _ _ _ Hpkt Hp).
  - intros q [[out [Hname Hq]]|Hq].
    + eapply in_range_allocated; [apply Hout, Hname|exact Hq].
    + apply Hslot, Hq.
Qed.

(** The scan is memory safe: when the [packet_len] bytes of the packet
    exist and the question it steps over, of a name of [namelen] bytes,
    fits in them, the scan returns one of its four verdicts: it neither
    faults nor runs on, whatever the packet holds. *)
Theorem dns_chnip_check_never_faults (packet_buf : pointer)
    (packet_len namelen : Z) (st : state) :
  is_ssize packet_len -> 0 <= namelen ->
  sizeof_dns_header_t + namelen + sizeof_dns_query_t <= packet_len ->
  allocated (heap st) packet_buf packet_len ->
  exists verdict,
    result (dns_chnip_check ipset_addr_is_exists
              packet_buf packet_len namelen) st = Val verdict.
Proof.
  intros Hss Hn Hfit Hpkt.
  apply returns_a_value; [apply terminates_dns_chnip_check|].
  eapply (faults_at_safe (in_range packet_buf packet_len) (fun _ => False)).
  - apply faults_at_dns_chnip_check.
  - apply (dns_chnip_check_reads ipset_addr_is_exists packet_buf packet_len
             namelen Hss Hn Hfit st).
  - intros p Hp. exact (in_range_allocated _ _ _ _ Hpkt Hp).
  - contradiction.
Qed.

End MemorySafety.

Lemma allocated_packet (pkt : list Z) (o n : Z) :
  0 <= o -> o + n <= Z.of_nat (length pkt) ->
  allocated (heap_of pkt) (at_packet o) n.
Proof.
  intros Ho Hn i Hi.
  replace (at_packet o .+ i) with (at_packet (Z.of_nat (Z.to_nat (o + i)))).
  - rewrite load_cell_packet. apply lookup_lt_is_Some. lia.
  - unfold at_packet, ptr_add. simpl. f_equal. lia.
Qed.

Lemma decode_name_never_faults_witness :
  exists decoded,
    result (decode_name name_buf_0 (at_packet 0) 10) (state_of a_bb_ccc)
      = Val decoded.
Proof.
  apply (decode_name_never_faults name_buf_0 (at_packet 0) 10
           (state_of a_bb_ccc)).
  - apply allocated_packet; simpl; lia.
  - apply allocated_name_buf. lia.
Defined.

Lemma skip_name_never_faults_witness :
  exists r, result (skip_name (at_packet 32) 16) (state_of reply_a) = Val r.
Proof.
  apply (skip_name_never_faults (at_packet 32) 16 (state_of reply_a)).
  apply allocated_packet; simpl; lia.
Defined.

Lemma check_packet_never_faults_witness :
  exists accepted,
    result (check_packet sample_minsize sample_maxsize sample_enc_maxlen
              false (at_packet 0) 48 (Some name_buf_0) (Some slot_0))
      (state_of reply_a) = Val accepted.
Proof.
  apply (check_packet_never_faults sample_minsize sample_maxsize
           sample_enc_maxlen sample_minsize_covers_header false
           (at_packet 0) 48 (Some name_buf_0) (Some slot_0)
           (state_of reply_a)).
  - apply (small_is_ssize 48). lia.
  - apply allocated_packet; simpl; lia.
  - intros out [= <-]. apply allocated_name_buf. vm_compute. discriminate.
  - intros slot [= <-]. vm_compute. eauto.
Defined.

Lemma dns_chnip_check_never_faults_witness :
  exists verdict,
    result (dns_chnip_check sample_ipset (at_packet 0) 48 16)
      (state_of reply_a) = Val verdict.
Proof.
  apply (dns_chnip_check_never_faults sample_ipset (at_packet 0) 48 16
           (state_of reply_a)).
  - apply (small_is_ssize 48). lia.
  - lia.
  - vm_compute. discriminate.
  - apply allocated_packet; simpl; lia.
Defined.

(** * The scan and the membership set *)

Lemma ipset_queries_app (t1 t2 : list event) :
  ipset_queries (t1 ++ t2) = ipset_queries t1 ++ ipset_queries t2.
Proof.
  induction t1 as [|[p|addr v4] t1 IH]; simpl; [reflexivity|exact IH|].
  rewrite IH. reflexivity.
Qed.

Lemma ipset_queries_untouched (t : list event) :
  Forall (fun e => ~ is_ipset_event e) t -> ipset_queries t = [].
Proof.
  induction 1 as [|[p|addr v4] t He _ IH]; simpl; [reflexivity|exact IH|].
  exfalso. apply He. exact I.
Qed.

Lemma accounts_ret {A} (Phi : res A -> list (list Z * bool) -> Prop) (a : A) :
  Phi (Val a) [] -> accounts Phi (mret a).
Proof.
  intros H st. exists []. split; [rewrite app_nil_r; reflexivity|exact H].
Qed.

Lemma accounts_bind {A B} (Phi1 : res A -> list (list Z * bool) -> Prop)
    (Phi2 : A -> res B -> list (list Z * bool) -> Prop)
    (Psi : res B -> list (list Z * bool) -> Prop)
    (c : M A) (k : A -> M B) :
  accounts Phi1 c -> (forall a, accounts (Phi2 a) (k a)) ->
  (forall a q r2 q2, Phi1 (Val a) q -> Phi2 a r2 q2 -> Psi r2 (q ++ q2)) ->
  (forall q, Phi1 Fault q -> Psi Fault q) ->
  (forall q, Phi1 OutOfFuel q -> Psi OutOfFuel q) ->
  accounts Psi (c ≫= k).
Proof.
  intros Hc Hk Hval Hfault Hfuel st.
  destruct (Hc st) as [t1 [Ht1 H1]].
  unfold result, final, mbind, M_MBind, M_bind in *.
  destruct (c st) as [[a| |] st1]; simpl in *.
  - destruct (Hk a st1) as [t2 [Ht2 H2]]. unfold result, final in Ht2, H2.
    exists (t1 ++ t2). split.
    + rewrite Ht2, Ht1, app_assoc. reflexivity.
    + rewrite ipset_queries_app. eapply Hval; eassumption.
  - exists t1. split; [exact Ht1|apply Hfault, H1].
  - exists t1. split; [exact Ht1|apply Hfuel, H1].
Qed.

Lemma accounts_quiet {A} (c : M A) :
  keeps ipset_untouched c -> accounts (fun _ q => q = []) c.
Proof.
  intros Hc st. destruct (Hc st) as [t [Ht Hall]].
  exists t. split; [exact Ht|apply ipset_queries_untouched, Hall].
Qed.

Lemma accounts_bind_quiet {A B} (Psi : res B -> list (list Z * bool) -> Prop)
    (c : M A) (k : A -> M B) :
  keeps ipset_untouched c -> (forall a, accounts Psi (k a)) ->
  Psi Fault [] -> Psi OutOfFuel [] ->
  accounts Psi (c ≫= k).
Proof.
  intros Hc Hk Hfault Hfuel.
  eapply (accounts_bind (fun _ q => q = []) (fun _ => Psi));
    [apply accounts_quiet, Hc|exact Hk| | |].
  - intros a q r2 q2 -> H2. exact H2.
  - intros q ->. exact Hfault.
  - intros q ->. exact Hfuel.
Qed.

Lemma load_bytes_untouched (n : nat) (p : pointer) :
  keeps ipset_untouched (load_bytes p n).
Proof.
  revert p. induction n as [|n IH]; intros p; simpl; [kret|].
  kbind; [apply load_uchar_untouched|]. intros v.
  kbind; [apply IH|]. intros vs. kret.
Qed.

Lemma load_bytes_length (n : nat) :
  forall (p : pointer) (st : state) (l : list Z),
    result (load_bytes p n) st = Val l -> length l = n.
Proof.
  induction n as [|n IH]; intros p st l; simpl.
  - intros [= <-]. reflexivity.
  - unfold result, mbind, M_MBind, M_bind.
    destruct (load_uchar p st) as [[v| |] st1]; simpl; try discriminate.
    specialize (IH (p .+ 1) st1). unfold result in IH.
    destruct (load_bytes (p .+ 1) n st1) as [[vs| |] st2]; simpl in *;
      try discriminate.
    intros [= <-]. simpl. f_equal. apply IH. reflexivity.
Qed.

Section ScanAndSet.

Variable ipset_addr_is_exists : list Z -> bool -> bool.

(** A consultation: the external predicate is asked once, about the
    bytes read, as many as the family has; nothing is asked when the
    bytes cannot be read. *)
Lemma ipset_query_accounts (rdata : pointer) (is_ipv4 : bool) :
  accounts
    (fun r q =>
       match r with
       | Val found =>
           exists addr,
             q = [(addr, is_ipv4)] /\
             found = ipset_addr_is_exists addr is_ipv4 /\
             Z.of_nat (length addr)
               = (if is_ipv4 then IPV4_BINADDR_LEN else IPV6_BINADDR_LEN)
       | _ => q = []
       end)
    (ipset_query ipset_addr_is_exists rdata is_ipv4).
Proof.
  intros st. unfold ipset_query.
  set (n := Z.to_nat (if is_ipv4 then IPV4_BINADDR_LEN
                      else IPV6_BINADDR_LEN)).
  destruct (load_bytes_untouched n rdata st) as [t [Ht Hall]].
  pose proof (load_bytes_length n rdata st) as Hlen.
  unfold result, final, mbind, M_MBind, M_bind, log in *.
  destruct (load_bytes rdata n st) as [[addr| |] st1]; simpl in *.
  - exists (t ++ [EvIpset addr is_ipv4]). split.
    + rewrite Ht, app_assoc. reflexivity.
    + rewrite ipset_queries_app, (ipset_queries_untouched _ Hall). simpl.
      exists addr. split; [reflexivity|]. split; [reflexivity|].
      rewrite (Hlen addr eq_refl). unfold n.
      destruct is_ipv4; reflexivity.
  - exists t. split; [exact Ht|apply ipset_queries_untouched, Hall].
  - exists t. split; [exact Ht|apply ipset_queries_untouched, Hall].
Qed.

Lemma ipset_verdict_accounts (rdata : pointer) (is_ipv4 : bool) :
  accounts
    (fun r q =>
       match r with
       | Val (Verdict v) => verdict_from_set ipset_addr_is_exists (Val v) q
       | _ => q = []
       end)
    (found ← ipset_query ipset_addr_is_exists rdata is_ipv4;
     mret (Verdict (if found : bool then DNS_IPCHK_IS_CHNIP
                    else DNS_IPCHK_NOT_CHNIP))).
Proof.
  eapply accounts_bind.
  - apply ipset_query_accounts.
  - intros found.
    apply (accounts_ret
             (fun r q => r = Val (Verdict (if found : bool
                                           then DNS_IPCHK_IS_CHNIP
                                           else DNS_IPCHK_NOT_CHNIP)) /\
                         q = [])).
    split; reflexivity.
  - intros found q r2 q2 [addr [-> [-> Hwidth]]] [-> ->]. simpl.
    destruct (ipset_addr_is_exists addr is_ipv4) eqn:E; simpl;
      exists addr, is_ipv4; auto.
  - intros q H. exact H.
  - intros q H. exact H.
Qed.

Lemma chnip_record_accounts (ptr : pointer) (len : Z) :
  accounts
    (fun r q =>
       match r with
       | Val (Verdict v) => verdict_from_set ipset_addr_is_exists (Val v) q
       | _ => q = []
       end)
    (chnip_record ipset_addr_is_exists ptr len).
Proof.
  unfold chnip_record.
  apply accounts_bind_quiet; [apply skip_name_untouched| |reflexivity..].
  intros [[record len']|]; [|apply accounts_ret; reflexivity].
  apply accounts_bind_quiet; [apply ntohs_untouched| |reflexivity..].
  intros rclass. case_decide; [apply accounts_ret; reflexivity|].
  apply accounts_bind_quiet; [apply ntohs_untouched| |reflexivity..].
  intros rdatalen. case_decide; [apply accounts_ret; reflexivity|].
  apply accounts_bind_quiet; [apply ntohs_untouched| |reflexivity..].
  intros rtype. case_decide.
  - case_decide; [apply accounts_ret; reflexivity|].
    apply ipset_verdict_accounts.
  - case_decide; [|apply accounts_ret; reflexivity].
    case_decide; [apply accounts_ret; reflexivity|].
    apply ipset_verdict_accounts.
Qed.

Lemma chnip_loop_accounts (n : nat) :
  forall ptr len,
    accounts (verdict_from_set ipset_addr_is_exists)
      (chnip_loop ipset_addr_is_exists n ptr len).
Proof.
  induction n as [|n IH]; intros ptr len; simpl.
  - apply accounts_ret. reflexivity.
  - eapply (accounts_bind _
              (fun a r2 q2 =>
                 match a with
                 | Verdict v => r2 = Val v /\ q2 = []
                 | Next _ _ => verdict_from_set ipset_addr_is_exists r2 q2
                 end)).
    + apply chnip_record_accounts.
    + intros [v|p l]; [|apply IH].
      apply (accounts_ret (fun r2 q2 => r2 = Val v /\ q2 = [])).
      split; reflexivity.
    + intros [v|p l] q r2 q2 H1 H2; simpl in *.
      * destruct H2 as [-> ->]. rewrite app_nil_r. exact H1.
      * subst q. exact H2.
    + intros q H. exact H.
    + intros q H. exact H.
Qed.

(** The verdicts "in range" and "not in range" come from the
    membership set, and from it only: whatever the memory holds, a scan
    that returns one of the two has consulted the set exactly once, about
    an address of the width of its family, four bytes for IPv4 and
    sixteen for IPv6, and the verdict is the answer of the set; a scan
    that ends in any other way, by "not found", "bad packet" or a fault,
    has not consulted the set at all. *)
Theorem chnip_check_verdict_from_set (packet_buf : pointer)
    (packet_len namelen : Z) (st : state) :
  exists t,
    trace (final (dns_chnip_check ipset_addr_is_exists
                    packet_buf packet_len namelen) st) = trace st ++ t /\
    verdict_from_set ipset_addr_is_exists
      (result (dns_chnip_check ipset_addr_is_exists
                 packet_buf packet_len namelen) st)
      (ipset_queries t).
Proof.
  revert st.
  change (accounts (verdict_from_set ipset_addr_is_exists)
            (dns_chnip_check ipset_addr_is_exists
               packet_buf packet_len namelen)).
  unfold dns_chnip_check.
  apply accounts_bind_quiet; [apply ntohs_untouched| |reflexivity..].
  intros answer_count. apply chnip_loop_accounts.
Qed.

End ScanAndSet.

(** * The validator and the scan, one after the other *)

Section ValidateThenScan.

Variable DNS_PACKET_MINSIZE : Z.
Variable DNS_PACKET_MAXSIZE : Z.
Variable DNS_NAME_ENC_MAXLEN : Z.
Variable ipset_addr_is_exists : list Z -> bool -> bool.

Hypothesis minsize_covers_header : sizeof_dns_header_t <= DNS_PACKET_MINSIZE.

(** The reply validator hands the scan what it needs: once
    [dns_reply_check] has accepted a packet whose [packet_len] bytes
    exist, the slot holds an encoded length, and [dns_chnip_check] run
    with that length on the memory the validator has left returns one of
    its verdicts: it neither faults nor runs on. *)
Theorem reply_check_then_chnip_check (packet_buf : pointer) (packet_len : Z)
    (name_buf : option pointer) (slot : pointer) (st st' : state) :
  is_ssize packet_len ->
  allocated (heap st) packet_buf packet_len ->
  dns_reply_check DNS_PACKET_MINSIZE DNS_PACKET_MAXSIZE DNS_NAME_ENC_MAXLEN
    packet_buf packet_len name_buf (Some slot) st = (Val true, st') ->
  exists namelen verdict,
    load_cell (heap st') slot = Some namelen /\
    result (dns_chnip_check ipset_addr_is_exists
              packet_buf packet_len namelen) st' = Val verdict.
Proof.
  intros Hss Hpkt Hrun.
  destruct (check_packet_inv _ _ _ minsize_covers_header _ _ _ _ _ _ _ _
              Hrun Hss)
    as [[Hfalse _]|[n [Hn [_ [_ [_ [_ [Hstored Hiff]]]]]]]]; [discriminate|].
  destruct Hiff as [Hiff _]. destruct (Hiff eq_refl) as [Hfit _].
  unfold DNS_NAME_ENC_MINLEN in Hn.
  assert (Hpkt' : allocated (heap st') packet_buf packet_len).
  { destruct (faults_at_check_packet DNS_PACKET_MINSIZE DNS_PACKET_MAXSIZE
                DNS_NAME_ENC_MAXLEN false packet_buf packet_len name_buf
                (Some slot) st) as [[_ Hkeep] _].
    unfold final, dns_reply_check in *. rewrite Hrun in Hkeep.
    intros i Hi. apply Hkeep, Hpkt, Hi. }
  destruct (returns_a_value
              (dns_chnip_check ipset_addr_is_exists packet_buf packet_len n)
              st') as [verdict Hverdict].
  - apply terminates_dns_chnip_check.
  - eapply (faults_at_safe (in_range packet_buf packet_len)
              (fun _ => False)).
    + apply faults_at_dns_chnip_check.
    + apply (dns_chnip_check_reads ipset_addr_is_exists packet_buf
               packet_len n Hss); lia.
    + intros p Hp. exact (in_range_allocated _ _ _ _ Hpkt' Hp).
    + contradiction.
  - exists n, verdict. split; [apply Hstored; reflexivity|exact Hverdict].
Qed.

End ValidateThenScan.

Lemma reply_check_then_chnip_check_witness :
  exists namelen verdict,
    load_cell (heap (validated reply_a)) slot_0 = Some namelen /\
    result (dns_chnip_check sample_ipset (at_packet 0) 48 namelen)
      (validated reply_a) = Val verdict.
Proof.
  apply (reply_check_then_chnip_check sample_minsize sample_maxsize
           sample_enc_maxlen sample_ipset sample_minsize_covers_header
           (at_packet 0) 48 (Some name_buf_0) slot_0 (state_of reply_a)
           (validated reply_a)).
  - apply (small_is_ssize 48). lia.
  - apply allocated_packet; simpl; lia.
  - exact reply_a_accepted.
Defined.

(** * The name the validator hands out *)

(** A sequence of bytes either splits into labels or is malformed. *)
Lemma labels_or_malformed (n : nat) :
  forall body, (length body <= n)%nat -> Forall is_byte body ->
    malformed_labels body \/
    exists ls, body = encode_labels ls /\ Forall label_ok ls.
Proof.
  induction n as [|n IH]; intros body Hlen Hb.
  - destruct body; [|simpl in Hlen; lia].
    right. exists []. split; [reflexivity|apply Forall_nil_2].
  - destruct body as [|l rest];
      [right; exists []; split; [reflexivity|apply Forall_nil_2]|].
    apply Forall_cons in Hb. destruct Hb as [Hl Hrest]. unfold is_byte in Hl.
    simpl in Hlen.
    destruct (decide (l = 0 \/ l > DNS_DNAME_LABEL_MAXLEN \/
                      l > Z.of_nat (length rest))) as [Hbad|Hgood].
    { left. apply malformed_here, Hbad. }
    unfold DNS_DNAME_LABEL_MAXLEN in *.
    assert (Hrange : 1 <= l <= 63 /\ l <= Z.of_nat (length rest)) by lia.
    destruct (IH (drop (Z.to_nat l) rest)) as [Hbad|[ls [Hls Hok]]].
    + rewrite length_drop. lia.
    + apply Forall_drop, Hrest.
    + left. apply malformed_later;
        [unfold DNS_DNAME_LABEL_MAXLEN; lia|lia|exact Hbad].
    + right. exists (take (Z.to_nat l) rest :: ls). split.
      * simpl. rewrite length_take.
        replace (Z.of_nat (Z.to_nat l `min` length rest)) with l by lia.
        rewrite <- Hls, take_drop. reflexivity.
      * apply Forall_cons_2; [|exact Hok].
        split; [rewrite length_take; lia|apply Forall_take, Hrest].
Qed.

Section AcceptedName.

Variable DNS_PACKET_MINSIZE : Z.
Variable DNS_PACKET_MAXSIZE : Z.
Variable DNS_NAME_ENC_MAXLEN : Z.

Hypothesis minsize_covers_header : sizeof_dns_header_t <= DNS_PACKET_MINSIZE.

(** What an accepting run with a name buffer has gone through: the
    search for the zero byte, the decoding of the name, which succeeded,
    and the store of the encoded length. *)
Lemma check_packet_accepts_decoded (is_query : bool) (packet_buf : pointer)
    (packet_len : Z) (out : pointer) (p_namelen : option pointer)
    (st st' : state) :
  check_packet DNS_PACKET_MINSIZE DNS_PACKET_MAXSIZE DNS_NAME_ENC_MAXLEN
    is_query packet_buf packet_len (Some out) p_namelen st = (Val true, st') ->
  is_ssize packet_len ->
  exists d st4 st5,
    0 <= d /\ d + 1 <= DNS_NAME_ENC_MAXLEN /\
    sizeof_dns_header_t + d + 1 <= packet_len /\
    heap st4 = heap st /\
    peek8 (heap st) (packet_buf .+ sizeof_dns_header_t .+ d) = Some 0 /\
    (forall j, 0 <= j < d ->
       peek8 (heap st) (packet_buf .+ sizeof_dns_header_t .+ j) <> Some 0) /\
    decode_name out (packet_buf .+ sizeof_dns_header_t) (d + 1) st4
      = (Val true, st5) /\
    (forall q, p_namelen <> Some q ->
       load_cell (heap st') q = load_cell (heap st5) q) /\
    (forall slot, p_namelen = Some slot ->
       load_cell (heap st') slot = Some (d + 1)).
Proof.
  unfold is_ssize. intros H Hss.
  pose proof minsize_covers_header as Hmin.
  unfold check_packet in H.
  unfold sizeof_dns_header_t, sizeof_dns_query_t, off_qclass,
    DNS_NAME_ENC_MINLEN, DNS_CLASS_INTERNET in *.
  case_decide; [discriminate|]. case_decide; [discriminate|].
  apply bind_Val_inv in H. destruct H as [qr [st1 [Hqr H]]].
  pose proof (keeps_run same_heap _ _ _ _ (header_qr_same_heap _) Hqr) as Hh1.
  case_decide; [discriminate|].
  apply bind_Val_inv in H. destruct H as [opcode [st2 [Hop H]]].
  pose proof (keeps_run same_heap _ _ _ _ (header_opcode_same_heap _) Hop)
    as Hh2.
  case_decide; [discriminate|].
  apply bind_Val_inv in H. destruct H as [qc [st3 [Hqc H]]].
  apply ntohs_inv in Hqc. destruct Hqc as [_ Hh3].
  case_decide; [discriminate|].
  rewrite (ssize_wrap_small (packet_len - 12)) in H by lia.
  rewrite (size_wrap_small (packet_len - 12)) in H by lia.
  apply bind_Val_inv in H. destruct H as [found [st4 [Hfound H]]].
  destruct found as [p|]; [|discriminate].
  apply memchr_found in Hfound.
  destruct Hfound as [d [-> [Hd [Hzero [Hbefore Hh4]]]]].
  unfold same_heap in Hh1, Hh2.
  assert (Hh03 : heap st3 = heap st) by congruence.
  assert (Hh04 : heap st4 = heap st) by congruence.
  simpl in H.
  replace (ofs packet_buf + 12 + d + 1 - (ofs packet_buf + 12)) with (d + 1)
    in H by lia.
  rewrite (size_wrap_small (d + 1)) in H by lia.
  case_decide; [discriminate|]. case_decide; [discriminate|].
  rewrite (ssize_wrap_small (d + 1)) in H by lia.
  apply bind_Val_inv in H. destruct H as [decoded [st5 [Hdec H]]].
  destruct decoded; simpl in H; [|discriminate].
  apply bind_Val_inv in H. destruct H as [[] [st6 [Hstore H]]].
  rewrite (ssize_wrap_small (packet_len - 12 - (d + 1))) in H by lia.
  case_decide; [discriminate|].
  apply bind_Val_inv in H. destruct H as [qclass [st7 [Hqclass H]]].
  apply ntohs_inv in Hqclass. destruct Hqclass as [_ Hh7].
  assert (Hst' : heap st' = heap st6).
  { case_decide; [discriminate|]. injection H as <-. exact Hh7. }
  rewrite Hh03 in Hzero, Hbefore.
  exists d, st4, st5.
  split; [lia|]. split; [lia|]. split; [lia|]. split; [exact Hh04|].
  split; [exact Hzero|]. split; [exact Hbefore|]. split; [exact Hdec|].
  rewrite Hst'. destruct p_namelen as [slot|].
  - unfold store in Hstore.
    destruct (store_cell (heap st5) slot (d + 1)) as [m6|] eqn:Em6;
      [|discriminate].
    injection Hstore as <-. simpl. split.
    + intros q Hq. eapply load_store_ne; [exact Em6|]. congruence.
    + intros s [= <-]. eapply load_store_eq, Em6.
  - injection Hstore as <-. split; [reflexivity|discriminate].
Qed.

(** What acceptance means for the name: when the validator accepts a
    packet and has been given a name buffer, apart from the packet and
    from the slot of the encoded length, the bytes between the header and
    the first zero byte behind it are labels of 1 to 63 bytes behind
    their length bytes, the name buffer holds these labels joined by
    dots, a single dot if there is none, and a NUL, and the slot, if
    there is one, holds the number of bytes of the encoded name, the zero
    byte included. *)
Theorem check_packet_accepts_name (is_query : bool)
    (packet_buf out : pointer) (p_namelen : option pointer)
    (st st' : state) (pkt : list Z) :
  is_ssize (Z.of_nat (length pkt)) ->
  bytes_at (heap st) packet_buf pkt ->
  allocated (heap st) out (Z.max 2 (DNS_NAME_ENC_MAXLEN - 1)) ->
  blk out <> blk packet_buf ->
  (forall slot, p_namelen = Some slot -> blk slot <> blk out) ->
  check_packet DNS_PACKET_MINSIZE DNS_PACKET_MAXSIZE DNS_NAME_ENC_MAXLEN
    is_query packet_buf (Z.of_nat (length pkt)) (Some out) p_namelen st
    = (Val true, st') ->
  exists ls,
    Forall label_ok ls /\
    question_name pkt = encode_labels ls /\
    cells_at (heap st') out (dotted_name ls ++ [0]) /\
    (forall slot, p_namelen = Some slot ->
       load_cell (heap st') slot
         = Some (Z.of_nat (length (encode_labels ls)) + 1)).
Proof.
  intros Hss Hpkt Hout Hne Hslot Hrun.
  destruct (check_packet_accepts_decoded _ _ _ _ _ _ _ Hrun Hss)
    as [d [st4 [st5 [Hd0 [Hdenc [Hdfit [Hh4 [Hzero [Hbefore [Hdec
          [Hrest Hstored]]]]]]]]]]].
  unfold is_ssize, sizeof_dns_header_t in *.
  set (after := drop 12 pkt).
  assert (Hlen_after : Z.of_nat (length after) = Z.of_nat (length pkt) - 12).
  { unfold after. rewrite length_drop. lia. }
  assert (Hafter : bytes_at (heap st) (packet_buf .+ 12) after).
  { apply (bytes_at_drop _ _ _ 12); [lia|exact Hpkt]. }
  assert (Hlook : forall i, (i < length after)%nat ->
            peek8 (heap st) (packet_buf .+ 12 .+ Z.of_nat i) = after !! i).
  { intros i Hi. destruct (lookup_lt_is_Some_2 after i Hi) as [b Hb].
    rewrite Hb. eapply bytes_at_peek8; eassumption. }
  set (k := Z.to_nat d).
  assert (Hk : Z.of_nat k = d) by lia.
  assert (Hk0 : after !! k = Some 0).
  { rewrite <- Hlook by lia. rewrite Hk. exact Hzero. }
  assert (Hfind : list_find (fun b => b = 0) after = Some (k, 0)).
  { apply list_find_Some. split; [exact Hk0|]. split; [reflexivity|].
    intros j y Hj Hjk ->. apply (Hbefore (Z.of_nat j)); [lia|].
    rewrite Hlook by lia. exact Hj. }
  assert (Hq : question_name pkt = take k after).
  { unfold question_name, sizeof_dns_header_t.
    change (Z.to_nat 12) with 12%nat. fold after. rewrite Hfind.
    reflexivity. }
  set (body := take k after) in *.
  assert (Hbody_len : length body = k).
  { unfold body. rewrite length_take. lia. }
  assert (Hname : bytes_at (heap st) (packet_buf .+ 12) (body ++ [0])).
  { unfold body. rewrite <- (take_S_r _ _ _ Hk0). apply bytes_at_take, Hafter. }
  assert (Hwf : exists ls, body = encode_labels ls /\ Forall label_ok ls).
  { destruct (labels_or_malformed (length body) body (le_n _))
      as [Hbad|Hls]; [|exfalso|exact Hls].
    { apply bytes_at_app in Hname. apply Hname. }
    destruct (decide (k = 0%nat)) as [Hz|Hnz].
    { destruct body; [|simpl in Hbody_len; lia].
      exact (malformed_labels_nil Hbad). }
    destruct (decode_name_verdict (heap st) out (packet_buf .+ 12) (d + 1)
                body 0 Hname) as [r [m' [Hrunv Hiff]]].
    - lia.
    - unfold DNS_NAME_ENC_MINLEN. lia.
    - unfold is_ssize. lia.
    - intros i Hi. apply Hout. lia.
    - simpl. exact Hne.
    - destruct (Hrunv st4 Hh4) as [Hr _]. unfold result in Hr.
      rewrite Hdec in Hr. simpl in Hr. injection Hr as <-.
      destruct Hiff as [_ Hiff]. specialize (Hiff Hbad). discriminate. }
  destruct Hwf as [ls [Hls Hok]].
  assert (Henc : length (encode_labels ls) = k).
  { rewrite <- Hls. exact Hbody_len. }
  exists ls. split; [exact Hok|]. split; [rewrite Hq; exact Hls|].
  destruct (decode_name_text (heap st) out (packet_buf .+ 12) ls Hok)
    as [m1 [Hrun1 [Htext _]]].
  - rewrite <- Hls. exact Hname.
  - rewrite Henc. lia.
  - rewrite Henc. intros i Hi. apply Hout. lia.
  - simpl. exact Hne.
  - rewrite Henc, Hk in Hrun1.
    destruct (Hrun1 st4 Hh4) as [_ Hheap]. unfold final in Hheap.
    rewrite Hdec in Hheap. simpl in Hheap. subst m1.
    split.
    + eapply cells_at_frame; [|exact Htext]. intros q Hblk.
      apply Hrest. intros E. apply (Hslot q E). exact Hblk.
    + intros slot E. rewrite (Hstored slot E), Henc, Hk. reflexivity.
Qed.

End AcceptedName.

Lemma check_packet_accepts_name_witness :
  exists ls,
    Forall label_ok ls /\
    question_name reply_a = encode_labels ls /\
    cells_at (heap (validated reply_a)) name_buf_0 (dotted_name ls ++ [0]) /\
    (forall slot, Some slot_0 = Some slot ->
       load_cell (heap (validated reply_a)) slot
         = Some (Z.of_nat (length (encode_labels ls)) + 1)).
Proof.
  apply (check_packet_accepts_name sample_minsize sample_maxsize
           sample_enc_maxlen sample_minsize_covers_header false
           (at_packet 0) name_buf_0 (Some slot_0) (state_of reply_a)
           (validated reply_a) reply_a).
  - apply (small_is_ssize 48). lia.
  - apply bytes_at_packet, bytes_decide. reflexivity.
  - apply allocated_name_buf. vm_compute. discriminate.
  - discriminate.
  - intros slot [= <-]. discriminate.
  - exact reply_a_accepted.
Defined.
